(** * Eous: relay hub, edge agent and lyric scheduler

    A shallow embedding of the parts of the repository that carry its
    relay contracts:

    - [unity.py]  (module [Hub]): the four shared cells of the hub and the
      request handlers that read and write them;
    - [lyrics.py] (module [Lyrics]): the LRC timestamp parser;
    - [spotify.py] (module [Spotify]): the playback helper;
    - [rpi.py]    (module [Agent]): the command forwarding loop, the lyric
      streaming flow and the audio processing pipeline.

    Text is ASCII text: the type [string] stands for Python [str] values
    whose code points are below 128.  Clock readings ([time.time()]) and
    the durations of the hub are exact rationals; the offsets of lyric
    lines are Python floats, computed by the interpreter's conversions,
    which are parameters of the parser and can raise or give infinity.
    File paths are written relative to the directory of the script.
    Everything the handlers obtain from outside the repository (clock
    readings, file presence, peer responses, library parsers) is an
    explicit argument. *)

From Stdlib Require Import String Ascii List ZArith QArith Qround Qminmax Lia Lqa Bool.
From Stdlib Require Import DecimalString.
From stdpp Require Import gmap strings list.

Local Open Scope string_scope.
Local Open Scope list_scope.

(** ** Python string primitives used by the sources *)

Module PyStr.

(** [str.isspace] on ASCII: TAB, LF, VT, FF, CR, FS, GS, RS, US, SPACE. *)
Definition is_space (c : ascii) : bool :=
  let n := N_of_ascii c in
  (N.leb 9 n && N.leb n 13) || (N.leb 28 n && N.leb n 32).

Definition upper_char (c : ascii) : ascii :=
  let n := N_of_ascii c in
  if N.leb 97 n && N.leb n 122 then ascii_of_N (n - 32) else c.

Definition lower_char (c : ascii) : ascii :=
  let n := N_of_ascii c in
  if N.leb 65 n && N.leb n 90 then ascii_of_N (n + 32) else c.

Definition is_digit (c : ascii) : bool :=
  let n := N_of_ascii c in N.leb 48 n && N.leb n 57.

(** [s.upper()] and [s.lower()]. *)
Fixpoint upper (s : string) : string :=
  match s with
  | EmptyString => EmptyString
  | String c r => String (upper_char c) (upper r)
  end.

Fixpoint lower (s : string) : string :=
  match s with
  | EmptyString => EmptyString
  | String c r => String (lower_char c) (lower r)
  end.

(** Truthiness of a [str]: [not s] holds exactly for the empty string. *)
Definition is_empty (s : string) : bool :=
  match s with EmptyString => true | String _ _ => false end.

Fixpoint lstrip (s : string) : string :=
  match s with
  | EmptyString => EmptyString
  | String c r => if is_space c then lstrip r else s
  end.

Fixpoint rstrip (s : string) : string :=
  match s with
  | EmptyString => EmptyString
  | String c r =>
      let r' := rstrip r in
      if is_empty r' && is_space c then EmptyString else String c r'
  end.

(** [s.strip()]. *)
Definition strip (s : string) : string := rstrip (lstrip s).

(** The longest whitespace-free prefix and what follows it. *)
Fixpoint span_token (s : string) : string * string :=
  match s with
  | EmptyString => (EmptyString, EmptyString)
  | String c r =>
      if is_space c then (EmptyString, s)
      else let '(t, rest) := span_token r in (String c t, rest)
  end.

(** [s.split()]: the maximal whitespace-free runs, in order.  [cur] is the
    run being read. *)
Fixpoint split_from (cur : string) (s : string) : list string :=
  match s with
  | EmptyString => if is_empty cur then [] else [cur]
  | String c r =>
      if is_space c
      then (if is_empty cur then split_from EmptyString r
            else cur :: split_from EmptyString r)
      else split_from (cur +:+ String c EmptyString) r
  end.

Definition split (s : string) : list string := split_from EmptyString s.

(** [s.split(maxsplit=1)]: the first run, then the remainder with its
    leading whitespace removed when that remainder is not blank. *)
Definition split_max1 (s : string) : list string :=
  let s1 := lstrip s in
  if is_empty s1 then []
  else
    let '(tok, rest) := span_token s1 in
    let rest' := lstrip rest in
    if is_empty rest' then [tok] else [tok; rest'].

(** [s.split(sep)] for a one-character separator. *)
Fixpoint split_on (sep : ascii) (s : string) : list string :=
  match s with
  | EmptyString => [EmptyString]
  | String c r =>
      if Ascii.eqb c sep then EmptyString :: split_on sep r
      else match split_on sep r with
           | h :: t => String c h :: t
           | [] => [String c EmptyString]
           end
  end.

(** [sub in s]. *)
Fixpoint contains (sub s : string) : bool :=
  String.prefix sub s ||
  match s with
  | EmptyString => false
  | String _ r => contains sub r
  end.

Fixpoint all_chars (p : ascii -> bool) (s : string) : bool :=
  match s with
  | EmptyString => true
  | String c r => p c && all_chars p r
  end.

(** Any character but the line feed. *)
Definition not_lf (c : ascii) : bool := negb (Ascii.eqb c "010"%char).

End PyStr.

(** An external call either raises or gives a value. *)
Inductive ext (A : Type) :=
| Raises
| Gives (a : A).
Arguments Raises {A}.
Arguments Gives {A} a.

(** ** unity.py: the hub *)

Module Hub.
Import PyStr.

Definition bytes := list Byte.byte.

(** Python [float] values: exact rationals and the three specials. *)
Inductive pyfloat :=
| Fin (q : Q)
| PInf
| NInf
| NaN.

(** [a > b] on floats; every comparison with NaN is false. *)
Definition fgt (a b : pyfloat) : bool :=
  match a, b with
  | NaN, _ | _, NaN => false
  | PInf, PInf => false
  | PInf, _ => true
  | _, PInf => false
  | NInf, _ => false
  | Fin _, NInf => true
  | Fin x, Fin y => negb (Qle_bool x y)
  end.

(** [a >= b] on floats. *)
Definition fge (a b : pyfloat) : bool :=
  match a, b with
  | NaN, _ | _, NaN => false
  | PInf, _ => true
  | _, NInf => true
  | NInf, _ => false
  | Fin _, PInf => false
  | Fin x, Fin y => Qle_bool y x
  end.

Definition fadd (a b : pyfloat) : pyfloat :=
  match a, b with
  | NaN, _ | _, NaN => NaN
  | PInf, NInf | NInf, PInf => NaN
  | PInf, _ | _, PInf => PInf
  | NInf, _ | _, NInf => NInf
  | Fin x, Fin y => Fin (x + y)
  end.

(** The builtin [max(a, b)]: [b] when [b > a], otherwise [a]. *)
Definition pymax (a b : pyfloat) : pyfloat := if fgt b a then b else a.

(** The shared cells of the hub process (its module globals). *)
Record state := mkState {
  latest_frame_bytes : option bytes;
  current_command : string;
  pending_audio_ready : bool;
  current_transcript : string;
  transcript_expire_time : pyfloat
}.

Definition initial : state :=
  {| latest_frame_bytes := None;
     current_command := "NOT_MOVING";
     pending_audio_ready := false;
     current_transcript := "";
     transcript_expire_time := Fin 0 |}.

Definition set_frame (b : bytes) (st : state) : state :=
  mkState (Some b) (current_command st) (pending_audio_ready st)
          (current_transcript st) (transcript_expire_time st).

Definition set_command (t : string) (st : state) : state :=
  mkState (latest_frame_bytes st) t (pending_audio_ready st)
          (current_transcript st) (transcript_expire_time st).

Definition set_pending (p : bool) (st : state) : state :=
  mkState (latest_frame_bytes st) (current_command st) p
          (current_transcript st) (transcript_expire_time st).

Definition set_transcript (t : string) (e : pyfloat) (st : state) : state :=
  mkState (latest_frame_bytes st) (current_command st) (pending_audio_ready st) t e.

(** What a handler returns: a status code and a body. *)
Inductive body :=
| BJson (fields : list (string * string))
| BText (text : string)
| BFile (mimetype : string) (data : bytes)
| BEmpty.

Record response := mkResp { status : Z; content : body }.

Definition json_ok : response := mkResp 200 (BJson [("status", "ok")]).

Definition json_error (code : Z) (reason : string) : response :=
  mkResp code (BJson [("status", "error"); ("reason", reason)]).

(** *** Command cell *)

Definition mapping : gmap string string :=
  list_to_map [("W", "FORWARD"); ("S", "BACKWARD"); ("A", "LEFT");
               ("D", "RIGHT"); ("X", "Not Moving"); ("P", "PHOTO")].

Definition set_current_command_from_key (cmd : string) (st : state) : state :=
  let cmd := upper cmd in
  match mapping !! cmd with
  | None => st
  | Some token => set_command token st
  end.

Definition raw_commands : gset string := {["W"; "A"; "S"; "D"; "X"]}.

(** [POST /command]; [command] is [str(data.get("command", ""))]. *)
Definition command_post (command : string) (st : state) : state * response :=
  let cmd := upper command in
  if bool_decide (cmd ∈ raw_commands)
  then (set_current_command_from_key cmd st, json_ok)
  else (st, json_error 400 "invalid command").

(** [GET /command]. *)
Definition command_get (st : state) : response :=
  let token := if is_empty (current_command st) then "NOT_MOVING"
               else current_command st in
  mkResp 200 (BText token).

(** One line typed into [keyboard_loop]. *)
Definition keyboard_line (line : string) (st : state) : state :=
  let cmd := upper (strip line) in
  if bool_decide (cmd ∈ raw_commands)
  then set_current_command_from_key cmd st
  else st.

(** *** Audio hand-off *)

(** [ASK_AUDIO_PATH]: the file [ask.mp3] in the directory of the
    script. *)
Definition ASK_AUDIO_PATH : string := "ask.mp3".

(** [POST /send-audio]; [file_exists] is [os.path.exists(ASK_AUDIO_PATH)]. *)
Definition send_audio (file_exists : bool) (st : state) : state * response :=
  if negb file_exists
  then (st, json_error 404 ("Audio file not found at " +:+ ASK_AUDIO_PATH))
  else (set_pending true st, json_ok).

(** [GET /audio]; [file] is what [send_file] can read: [None] when it
    raises [OSError]. *)
Definition audio (file : option bytes) (st : state) : state * response :=
  if negb (pending_audio_ready st)
  then (st, mkResp 204 BEmpty)
  else
    let st' := set_pending false st in
    match file with
    | Some data => (st', mkResp 200 (BFile "audio/mpeg" data))
    | None => (st', json_error 500 "failed_to_read_audio")
    end.

(** *** Transcript board *)

Section WithFloat.

(** The builtin [float(str)], a parameter of the hub: [None] stands for
    [ValueError]. *)
Variable float : string -> option pyfloat.

(** The two pieces [duration_str, text] of a stripped, non-empty body;
    [None] stands for the [IndexError] of [parts[0]] on an empty list. *)
Definition duration_and_text (raw : string) : option (string * string) :=
  match split_max1 raw with
  | [p] => Some ("0", p)
  | d :: t :: _ => Some (d, t)
  | [] => None
  end.

Definition parse_duration (duration_str : string) : pyfloat :=
  match float duration_str with
  | Some d => d
  | None => Fin 0
  end.

(** [POST /transcript]; [now] is the reading of [time.time()] and [raw]
    the request body as text. *)
Definition receive_transcript (now : Q) (raw : string) (st : state)
  : state * response :=
  let raw := strip raw in
  if is_empty raw then (st, json_error 400 "empty body")
  else
    match duration_and_text raw with
    | None => (st, mkResp 500 BEmpty)
    | Some (duration_str, text) =>
        let duration := parse_duration duration_str in
        let display_seconds := fadd (pymax (Fin 0) duration) (Fin 5) in
        let expires_at := fadd (Fin now) display_seconds in
        (set_transcript text expires_at st, json_ok)
    end.

(** [GET /transcript/latest]; [now] is the reading of [time.time()]. *)
Definition latest_transcript (now : Q) (st : state) : response :=
  if is_empty (current_transcript st) || fge (Fin now) (transcript_expire_time st)
  then mkResp 200 (BJson [("transcript", "")])
  else mkResp 200 (BJson [("transcript", current_transcript st)]).

(** *** Frame relay *)

(** Request bodies as JSON values (numbers are integers here). *)
#[local] Unset Elimination Schemes.
Inductive json :=
| JNull
| JBool (b : bool)
| JNum (n : Z)
| JStr (s : string)
| JArr (items : list json)
| JObj (fields : list (string * json)).
#[local] Set Elimination Schemes.

(** Python truthiness of a decoded JSON value. *)
Definition truthy (j : json) : bool :=
  match j with
  | JNull => false
  | JBool b => b
  | JNum n => negb (Z.eqb n 0)
  | JStr s => negb (is_empty s)
  | JArr l => match l with [] => false | _ => true end
  | JObj l => match l with [] => false | _ => true end
  end.

Fixpoint assoc (key : string) (fields : list (string * json)) : option json :=
  match fields with
  | [] => None
  | (k, v) :: rest => if String.eqb k key then Some v else assoc key rest
  end.

(** [dict.get(key)] on a decoded object: a repeated key keeps its last
    value, a missing key gives [None]. *)
Definition dict_get (key : string) (fields : list (string * json)) : json :=
  default JNull (assoc key (rev fields)).

(** The value of a character in the base64 alphabet. *)
Definition b64_value (c : ascii) : option N :=
  let n := N_of_ascii c in
  if N.leb 65 n && N.leb n 90 then Some (n - 65)%N
  else if N.leb 97 n && N.leb n 122 then Some (n - 71)%N
  else if N.leb 48 n && N.leb n 57 then Some (n + 4)%N
  else if N.eqb n 43 then Some 62%N
  else if N.eqb n 47 then Some 63%N
  else None.

Definition byte_of_N (n : N) : Byte.byte :=
  default Byte.x00 (Byte.of_N (n mod 256)).

(** The exceptions [base64.b64decode] raises. *)
Inductive decode_error :=
| IncorrectPadding
| DataLength (n : N)
| NotAscii
| NotText (type_name : string).

(** [str(e)] for these exceptions. *)
Definition error_text (e : decode_error) : string :=
  match e with
  | IncorrectPadding => "Incorrect padding"
  | DataLength n =>
      "Invalid base64-encoded string: number of data characters ("
      +:+ NilZero.string_of_uint (N.to_uint n)
      +:+ ") cannot be 1 more than a multiple of 4"
  | NotAscii => "string argument should contain only ASCII characters"
  | NotText type_name =>
      "argument should be a bytes-like object or ASCII string, not '"
      +:+ type_name +:+ "'"
  end.

(** The lenient decoder behind [base64.b64decode(s)]: characters outside
    the alphabet are skipped, a completed pad sequence ends the input, and
    an unfinished quad is an error. *)
Fixpoint a2b_base64 (s : string) (quad_pos leftchar pads : N) (out : bytes)
  : decode_error + bytes :=
  match s with
  | EmptyString =>
      if N.eqb quad_pos 0 then inr (rev out)
      else if N.eqb quad_pos 1
           then inl (DataLength (N.of_nat (length out) / 3 * 4 + 1))
           else inl IncorrectPadding
  | String c r =>
      if Ascii.eqb c "="%char then
        if N.leb 2 quad_pos then
          if N.leb 4 (quad_pos + (pads + 1)) then inr (rev out)
          else a2b_base64 r quad_pos leftchar (pads + 1) out
        else a2b_base64 r quad_pos leftchar pads out
      else
        match b64_value c with
        | None => a2b_base64 r quad_pos leftchar pads out
        | Some v =>
            if N.eqb quad_pos 0 then a2b_base64 r 1 v 0 out
            else if N.eqb quad_pos 1 then
              a2b_base64 r 2 (N.land v 15) 0
                (byte_of_N (N.lor (N.shiftl leftchar 2) (N.shiftr v 4)) :: out)
            else if N.eqb quad_pos 2 then
              a2b_base64 r 3 (N.land v 3) 0
                (byte_of_N (N.lor (N.shiftl leftchar 4) (N.shiftr v 2)) :: out)
            else
              a2b_base64 r 0 0 0
                (byte_of_N (N.lor (N.shiftl leftchar 6) v) :: out)
        end
  end.

(** The Python type name of a decoded JSON value. *)
Definition type_name (x : json) : string :=
  match x with
  | JNull => "NoneType"
  | JBool _ => "bool"
  | JNum _ => "int"
  | JStr _ => "str"
  | JArr _ => "list"
  | JObj _ => "dict"
  end.

(** [base64.b64decode(x)] for a decoded JSON value [x]. *)
Definition b64decode (x : json) : decode_error + bytes :=
  match x with
  | JStr s =>
      if all_chars (fun c => N.ltb (N_of_ascii c) 128) s
      then a2b_base64 s 0 0 0 []
      else inl NotAscii
  | _ => inl (NotText (type_name x))
  end.

(** The character of a six-bit value in the base64 alphabet. *)
Definition b64_char (v : N) : ascii :=
  if N.ltb v 26 then ascii_of_N (v + 65)
  else if N.ltb v 52 then ascii_of_N (v + 71)
  else if N.ltb v 62 then ascii_of_N (v - 4)
  else if N.eqb v 62 then "+"%char
  else "/"%char.

(** [base64.b64encode(data).decode("utf-8")]: three bytes give four
    characters, and a last group of one or two bytes is padded. *)
Fixpoint b64encode (data : bytes) : string :=
  match data with
  | [] => EmptyString
  | [b1] =>
      let n1 := Byte.to_N b1 in
      String (b64_char (N.shiftr n1 2))
        (String (b64_char (N.shiftl (N.land n1 3) 4)) "==")
  | [b1; b2] =>
      let n1 := Byte.to_N b1 in
      let n2 := Byte.to_N b2 in
      String (b64_char (N.shiftr n1 2))
        (String (b64_char (N.lor (N.shiftl (N.land n1 3) 4) (N.shiftr n2 4)))
           (String (b64_char (N.shiftl (N.land n2 15) 2)) "="))
  | b1 :: b2 :: b3 :: rest =>
      let n1 := Byte.to_N b1 in
      let n2 := Byte.to_N b2 in
      let n3 := Byte.to_N b3 in
      String (b64_char (N.shiftr n1 2))
        (String (b64_char (N.lor (N.shiftl (N.land n1 3) 4) (N.shiftr n2 4)))
           (String (b64_char (N.lor (N.shiftl (N.land n2 15) 2) (N.shiftr n3 6)))
              (String (b64_char (N.land n3 63)) (b64encode rest))))
  end.

(** [POST /send]; [payload] is [request.json].  A truthy payload that is
    not an object has no [get] and ends in the framework's 500 reply. *)
Definition receive_frame (payload : json) (st : state) : state * response :=
  let data := if truthy payload then payload else JObj [] in
  match data with
  | JObj fields =>
      let frame_b64 := dict_get "frame" fields in
      if negb (truthy frame_b64)
      then (st, json_error 400 "no frame provided")
      else
        match b64decode frame_b64 with
        | inr frame_bytes => (set_frame frame_bytes st, json_ok)
        | inl e => (st, json_error 500 (error_text e))
        end
  | _ => (st, mkResp 500 BEmpty)
  end.

(** [GET /latest.jpg]. *)
Definition latest_jpg (st : state) : response :=
  match latest_frame_bytes st with
  | None => json_error 404 "no frame received yet"
  | Some b => mkResp 200 (BFile "image/jpeg" b)
  end.

(** *** The hub as a transition system *)

Inductive request :=
| PostCommand (command : string)
| GetCommand
| KeyboardLine (line : string)
| SetFromKey (cmd : string)
| PostSendAudio (file_exists : bool)
| GetAudio (file : option bytes)
| PostTranscript (now : Q) (raw : string)
| GetTranscript (now : Q)
| PostFrame (payload : json)
| GetLatestJpg.

Definition handle (r : request) (st : state) : state * option response :=
  match r with
  | PostCommand c => let '(st', resp) := command_post c st in (st', Some resp)
  | GetCommand => (st, Some (command_get st))
  | KeyboardLine l => (keyboard_line l st, None)
  | SetFromKey c => (set_current_command_from_key c st, None)
  | PostSendAudio e => let '(st', resp) := send_audio e st in (st', Some resp)
  | GetAudio f => let '(st', resp) := audio f st in (st', Some resp)
  | PostTranscript now raw =>
      let '(st', resp) := receive_transcript now raw st in (st', Some resp)
  | GetTranscript now => (st, Some (latest_transcript now st))
  | PostFrame p => let '(st', resp) := receive_frame p st in (st', Some resp)
  | GetLatestJpg => (st, Some (latest_jpg st))
  end.

(** The states and replies of a sequence of requests, oldest first. *)
Fixpoint run (rs : list request) (st : state) : state * list (option response) :=
  match rs with
  | [] => (st, [])
  | r :: rest =>
      let '(st1, resp) := handle r st in
      let '(st2, resps) := run rest st1 in
      (st2, resp :: resps)
  end.

End WithFloat.

End Hub.

(** ** lyrics.py: the LRC parser *)

Module Lyrics.
Import PyStr.

(** The exceptions the conversions of a matching line can raise. *)
Inductive error :=
| ValueError
| OverflowError.

(** The number conversions of the interpreter, parameters of the parser:
    - [int_max_str_digits], the limit [int(str)] puts on the number of
      digits ([sys.get_int_max_str_digits()]: 0 for no limit, as on
      interpreters that have none, and otherwise at least 640), beyond
      which it raises [ValueError];
    - the builtin [float(str)], where [None] stands for [ValueError];
    - [n + x] for an [int] [n] and a [float] [x], which converts [n] to a
      float and raises [OverflowError] when [n] is too large for one. *)
Record arith := mkArith {
  int_max_str_digits : nat;
  float : string -> option Hub.pyfloat;
  add_int_float : Z -> Hub.pyfloat -> ext Hub.pyfloat
}.

(** The longest prefix of decimal digits ([\d+], greedy) and the rest. *)
Fixpoint span_digits (s : string) : string * string :=
  match s with
  | EmptyString => (EmptyString, EmptyString)
  | String c r =>
      if is_digit c
      then let '(d, rest) := span_digits r in (String c d, rest)
      else (EmptyString, s)
  end.

(** A literal character of the pattern. *)
Definition expect (c : ascii) (s : string) : option string :=
  match s with
  | String d r => if Ascii.eqb d c then Some r else None
  | EmptyString => None
  end.

(** The last group of the pattern, any characters: everything up to the
    first line feed. *)
Fixpoint span_line (s : string) : string :=
  match s with
  | EmptyString => EmptyString
  | String c r => if Ascii.eqb c "010"%char then EmptyString else String c (span_line r)
  end.

(** [re.match(pattern, line)] for the pattern of the source, an opening
    bracket, digits (group 1), a colon, digits, a point, digits (group 2),
    a closing bracket and the rest (group 3): the minutes digits, the
    digits before and after the point of the seconds, and group 3. *)
Definition match_line (line : string) : option (string * (string * string) * string) :=
  r0 ← expect "["%char line;
  let '(g1, r1) := span_digits r0 in
  if is_empty g1 then None else
  r2 ← expect ":"%char r1;
  let '(ip, r3) := span_digits r2 in
  if is_empty ip then None else
  r4 ← expect "."%char r3;
  let '(fp, r5) := span_digits r4 in
  if is_empty fp then None else
  r6 ← expect "]"%char r5;
  Some (g1, (ip, fp), span_line r6).

(** [int(digits)] for a string of decimal digits. *)
Fixpoint int_from (acc : Z) (digits : string) : Z :=
  match digits with
  | EmptyString => acc
  | String c r => int_from (acc * 10 + (Z.of_N (N_of_ascii c) - 48)) r
  end.

Definition int_of (py : arith) (digits : string) : error + Z :=
  if negb (Nat.eqb (int_max_str_digits py) 0)
     && Nat.ltb (int_max_str_digits py) (String.length digits)
  then inl ValueError
  else inr (int_from 0 digits).

(** The body of the [for line in ...] loop for one line: [inr None] when
    the line does not match, [inl] when a conversion raises. *)
Definition line_entry (py : arith) (line : string)
  : error + option (Hub.pyfloat * string) :=
  match match_line line with
  | Some (g1, (ip, fp), g3) =>
      match int_of py g1 with
      | inl e => inl e
      | inr minutes =>
          match float py (ip +:+ "." +:+ fp) with
          | None => inl ValueError
          | Some seconds =>
              let text := strip g3 in
              match add_int_float py (minutes * 60)%Z seconds with
              | Raises => inl OverflowError
              | Gives total_seconds => inr (Some (total_seconds, text))
              end
          end
      end
  | None => inr None
  end.

Fixpoint collect (py : arith) (lines : list string)
  : error + list (Hub.pyfloat * string) :=
  match lines with
  | [] => inr []
  | line :: rest =>
      match line_entry py line with
      | inl e => inl e
      | inr entry =>
          match collect py rest with
          | inl e => inl e
          | inr out =>
              inr (match entry with
                   | Some e => e :: out
                   | None => out
                   end)
          end
      end
  end.

(** [parse_lrc_timestamps(synced_lyrics)]; [None] is Python's [None]. *)
Definition parse_lrc_timestamps (py : arith) (synced_lyrics : option string)
  : error + list (Hub.pyfloat * string) :=
  match synced_lyrics with
  | None => inr []
  | Some s =>
      if is_empty s then inr []
      else collect py (split_on "010"%char s)
  end.

End Lyrics.

(** ** spotify.py: the playback helper *)

Module Spotify.

(** What the Spotify client answers during one [play_song]:
    authentication and track search, the device list, and the request to
    start playback. *)
Record env := {
  search_items : ext (list string);
  devices : ext (list string);
  start_playback : ext unit
}.

(** [play_song(song_name)]: whether the call raises or returns, and
    whether playback was started. *)
Definition play_song (e : env) : ext unit * bool :=
  match search_items e with
  | Raises => (Raises, false)
  | Gives [] => (Gives tt, false)
  | Gives (track_uri :: _) =>
      match devices e with
      | Raises => (Raises, false)
      | Gives [] => (Gives tt, false)
      | Gives (_ :: _) =>
          match start_playback e with
          | Raises => (Gives tt, false)
          | Gives _ => (Gives tt, true)
          end
      end
  end.

End Spotify.

(** ** rpi.py: the agent *)

Module Agent.
Import PyStr.

Definition bytes := Hub.bytes.

(** *** Command forwarding loop *)

(** What the loop does to the outside, oldest first: attempts to open the
    serial port, bytes written to it (and whether the write raised), and
    snapshot files written by the PHOTO handler. *)
Inductive event :=
| SerialOpenFailed
| SerialOpened
| SerialWrite (c : ascii) (ok : bool)
| PhotoSave (data : bytes) (ok : bool).

(** The outcome of [requests.get(REMOTE_COMMAND_ENDPOINT)]. *)
Inductive poll_result :=
| PollFailed
| PollReply (status_code : Z) (text : string).

(** What the outside supplies during one iteration of the loop: the reply,
    the camera cell, whether the snapshot can be written, how often the
    serial port refuses to open before it opens, and whether the serial
    write succeeds. *)
Record tick := mkTick {
  polled : poll_result;
  last_frame_jpeg : option bytes;
  save_ok : bool;
  open_failures : nat;
  write_ok : bool
}.

(** The loop's own variables: [last_cmd] and the handle [ser]. *)
Record loop_state := mkLoop {
  last_cmd : option string;
  ser_open : bool
}.

Definition loop_start : loop_state := mkLoop None true.

Definition dirs : gmap string string :=
  list_to_map [("FORWARD", "W"); ("BACKWARD", "S"); ("LEFT", "A");
               ("RIGHT", "D"); ("NOT", "X"); ("STOP", "X");
               ("NOTMOVING", "X"); ("NOT_MOVING", "X"); ("NOT MOVING", "X")].

(** [init_serial()] when [ser is None]. *)
Definition init_serial (t : tick) : list event :=
  repeat SerialOpenFailed (open_failures t) ++ [SerialOpened].

(** [send_command_to_arduino(cmd)]: the new handle state and the events. *)
Definition send_command_to_arduino (cmd : string) (t : tick) (ser : bool)
  : bool * list event :=
  match cmd with
  | EmptyString => (ser, [])
  | String c _ =>
      let opens := if ser then [] else init_serial t in
      if write_ok t then (true, opens ++ [SerialWrite c true])
      else (false, opens ++ [SerialWrite c false])
  end.

(** The token the loop reads off a reply body. *)
Definition token_of (text : string) : string :=
  let raw_text := strip text in
  if is_empty raw_text then EmptyString
  else upper (hd EmptyString (split raw_text)).

(** One iteration of the [while True] body of [command_poll_loop] (the
    sleeps between iterations are left out). *)
Definition poll_step (t : tick) (s : loop_state) : loop_state * list event :=
  match polled t with
  | PollFailed => (s, [])
  | PollReply status_code text =>
      if negb (Z.eqb status_code 200) then (s, [])
      else
        let token := token_of text in
        if String.eqb token "PHOTO" then
          match last_frame_jpeg t with
          | None => (s, [])
          | Some jpeg_data => (s, [PhotoSave jpeg_data (save_ok t)])
          end
        else
          match dirs !! token with
          | Some mapped_cmd =>
              if bool_decide (Some mapped_cmd = last_cmd s) then (s, [])
              else
                let '(ser, evs) := send_command_to_arduino mapped_cmd t (ser_open s) in
                (mkLoop (Some mapped_cmd) ser, evs)
          | None => (s, [])
          end
  end.

(** The first iterations of the loop, one per element of [ts]. *)
Fixpoint poll_loop (ts : list tick) (s : loop_state) : loop_state * list event :=
  match ts with
  | [] => (s, [])
  | t :: rest =>
      let '(s1, evs1) := poll_step t s in
      let '(s2, evs2) := poll_loop rest s1 in
      (s2, evs1 ++ evs2)
  end.

(** The calls of [ser.write], in order: the byte given to each and
    whether the call returned ([false] when it raised). *)
Fixpoint serial_writes (evs : list event) : list (ascii * bool) :=
  match evs with
  | [] => []
  | SerialWrite c ok :: rest => (c, ok) :: serial_writes rest
  | _ :: rest => serial_writes rest
  end.

(** The bytes the serial port took: those of the writes that returned. *)
Fixpoint bytes_written (evs : list event) : list ascii :=
  match evs with
  | [] => []
  | SerialWrite c true :: rest => c :: bytes_written rest
  | _ :: rest => bytes_written rest
  end.

(** The snapshots the PHOTO handler set out to write, in order: the frame
    of each and whether the file was written ([false] when creating or
    writing it raised). *)
Fixpoint photo_saves (evs : list event) : list (bytes * bool) :=
  match evs with
  | [] => []
  | PhotoSave d ok :: rest => (d, ok) :: photo_saves rest
  | _ :: rest => photo_saves rest
  end.

(** The snapshot files written. *)
Fixpoint photos_written (evs : list event) : list bytes :=
  match evs with
  | [] => []
  | PhotoSave d true :: rest => d :: photos_written rest
  | _ :: rest => photos_written rest
  end.

(** *** Camera loop *)

(** The JSON body [camera_loop] posts for one encoded frame. *)
Definition frame_payload (jpeg_bytes : bytes) : Hub.json :=
  Hub.JObj [("frame", Hub.JStr (Hub.b64encode jpeg_bytes))].

(** *** Lyric streaming flow *)

(** Exceptions that leave a function of the agent. *)
Inductive exn :=
| NameError (name : string)
| UnboundLocalError (name : string)
| TypeError
| ValueError
| OverflowError
| ExternalError.

Definition exn_of (e : Lyrics.error) : exn :=
  match e with
  | Lyrics.ValueError => ValueError
  | Lyrics.OverflowError => OverflowError
  end.

(** [get_openai_client()]: [cached] tells whether the shared client exists
    already, [construct] what building one does; the result and the new
    cache flag. *)
Definition get_openai_client (cached : bool) (construct : ext unit) : ext unit * bool :=
  if cached then (Gives tt, true)
  else match construct with
       | Raises => (Raises, false)
       | Gives _ => (Gives tt, true)
       end.

(** What the outside supplies to one run of [handle_music_spotify_flow]:
    the answer of the chat completion (the song name, possibly [None]),
    the result of [lyrics.search_lyrics] ([None], or the record with its
    [syncedLyrics] field), the Spotify client, the clock: its reading
    when the stopwatch starts, the time [spotify.play_song] takes, the
    length of the k-th [time.sleep(0.01)] and the time the i-th transcript
    POST takes; the number conversions of the interpreter; and whether
    the i-th transcript POST is answered 200 ([false] when it raises or
    is answered otherwise). *)
Record music_env := mkMusicEnv {
  chat_song : ext (option string);
  lyrics_data : option (option string);
  spotify_env : Spotify.env;
  clock_start : Q;
  play_latency : Q;
  sleep_len : nat -> Q;
  post_latency : nat -> Q;
  py : Lyrics.arith;
  post_ok : nat -> bool
}.

(** [while (time.time() - start_time) < timestamp: time.sleep(0.01)]:
    the clock and the number of sleeps so far when the loop is left;
    [None] when [fuel] sleeps were not enough. *)
Fixpoint wait_until (fuel : nat) (sleep_len : nat -> Q) (start_time : Q)
  (timestamp : Hub.pyfloat) (clock : Q) (k : nat) : option (Q * nat) :=
  if negb (Hub.fgt timestamp (Hub.Fin (clock - start_time))) then Some (clock, k)
  else match fuel with
       | O => None
       | S fuel' =>
           wait_until fuel' sleep_len start_time timestamp (clock + sleep_len k) (S k)
       end.

(** One call of [send_transcript_to_server] by the streaming loop: the
    clock reading at which it is made, the body, and whether the POST was
    answered 200; a POST that fails is logged and not repeated. *)
Record post := mkPost {
  sent_at : Q;
  body : string;
  delivered : bool
}.

(** The [for timestamp, text in lines] loop: the calls of
    [send_transcript_to_server], in order. *)
Fixpoint stream_lines (fuel : nat) (e : music_env) (start_time : Q)
  (lines : list (Hub.pyfloat * string)) (clock : Q) (k i : nat) : option (list post) :=
  match lines with
  | [] => Some []
  | (timestamp, text) :: rest =>
      match wait_until fuel (sleep_len e) start_time timestamp clock k with
      | None => None
      | Some (clock', k') =>
          match stream_lines fuel e start_time rest (clock' + post_latency e i) k' (S i) with
          | None => None
          | Some posts => Some (mkPost clock' ("10 " +:+ text) (post_ok e i) :: posts)
          end
      end
  end.

(** How one run of the flow ends. *)
Inductive flow_outcome :=
| FlowRaised (e : exn)
| FlowReported (body : string)
| FlowStreamed (start_time play_returned : Q) (playing : bool) (posts : list post)
| FlowOutOfFuel.

(** [handle_music_spotify_flow(transcribed_text)], entered with the shared
    client in state [cached]. *)
Definition handle_music_spotify_flow (fuel : nat) (e : music_env) (cached : bool)
  (construct : ext unit) : flow_outcome :=
  match fst (get_openai_client cached construct) with
  | Raises => FlowRaised ExternalError
  | Gives _ =>
      match chat_song e with
      | Raises => FlowReported "5 Error parsing music command"
      | Gives None => FlowReported "5 No Song Name found"
      | Gives (Some name) =>
          if is_empty name then FlowReported "5 No Song Name found"
          else
            let song_name := strip name in
            let synced :=
              match lyrics_data e with
              | Some (Some s) => if is_empty s then None else Some s
              | _ => None
              end in
            match synced with
            | None => FlowReported ("5 No synced lyrics available for " +:+ song_name)
            | Some s =>
                match Lyrics.parse_lrc_timestamps (py e) (Some s) with
                | inl err => FlowRaised (exn_of err)
                | inr [] =>
                    FlowReported ("5 Could not parse synced lyrics for " +:+ song_name)
                | inr lines =>
                    let start_time := clock_start e in
                    let '(played, playing) := Spotify.play_song (spotify_env e) in
                    let clock := (start_time + play_latency e)%Q in
                    match played with
                    | Raises => FlowReported "5 Error starting Spotify playback"
                    | Gives _ =>
                        match stream_lines fuel e start_time lines clock 0 0 with
                        | None => FlowOutOfFuel
                        | Some posts => FlowStreamed start_time clock playing posts
                        end
                    end
                end
            end
      end
  end.

(** *** Audio processing pipeline *)

(** Names bound at module level of [rpi.py]. *)
Definition module_globals : gset string :=
  {[ "base64"; "os"; "threading"; "time"; "cv2"; "OpenAI"; "requests";
     "serial"; "chatgpt"; "lyrics"; "spotify";
     "UNITY_HOST"; "UNITY_PORT"; "UNITY_FRAME_ENDPOINT"; "AUDIO_ENDPOINT";
     "TRANSCRIPT_ENDPOINT"; "REMOTE_COMMAND_ENDPOINT"; "SERIAL_PORT";
     "BAUD_RATE"; "COMMAND_POLL_INTERVAL"; "ser"; "OPENAI_API_KEY";
     "openai_client"; "AUDIO_POLL_INTERVAL"; "last_frame_jpeg";
     "last_frame_lock"; "get_openai_client"; "send_transcript_to_server";
     "handle_chatgpt_tts_flow"; "handle_music_spotify_flow";
     "process_audio_file"; "audio_poll_loop"; "init_serial";
     "send_command_to_arduino"; "command_poll_loop"; "camera_loop"; "main" ]}.

(** The builtin names the two functions below use. *)
Definition builtins : gset string :=
  {[ "print"; "str"; "any"; "Exception" ]}.

(** A function's scope: the names its body assigns (its locals) and those
    bound so far. *)
Record scope := mkScope { locals : gset string; bound : gset string }.

(** Reading a name inside a function: a local must be bound already, any
    other name is looked up in the module and then in the builtins. *)
Definition load_name (sc : scope) (name : string) : option exn :=
  if bool_decide (name ∈ locals sc) then
    if bool_decide (name ∈ bound sc) then None else Some (UnboundLocalError name)
  else if bool_decide (name ∈ module_globals ∪ builtins) then None
  else Some (NameError name).

Definition bind (name : string) (sc : scope) : scope :=
  mkScope (locals sc) ({[name]} ∪ bound sc).

(** What the inference service answers during one generic request: the
    chat completion, the speech synthesis, and [str] of the measured
    duration. *)
Record chat_env := mkChatEnv {
  chat_reply : ext (option string);
  tts : ext unit;
  duration_text : ext string
}.

Definition chatgpt_locals : gset string :=
  {[ "transcribed_text"; "client"; "gpt_response"; "_"; "e";
     "output_audio"; "audio_duration" ]}.

(** [handle_chatgpt_tts_flow(transcribed_text)]: the exception that leaves
    it, if any, and the transcript bodies it posts. *)
Definition handle_chatgpt_tts_flow (e : chat_env) (cached : bool) (construct : ext unit)
  : option exn * list string :=
  let sc := mkScope chatgpt_locals {["transcribed_text"]} in
  match fst (get_openai_client cached construct) with
  | Raises => (Some ExternalError, [])
  | Gives _ =>
      let sc := bind "client" sc in
      match chat_reply e with
      | Raises => (None, [])
      | Gives gpt_response =>
          let sc := bind "_" (bind "gpt_response" sc) in
          let '(sc, duration) :=
            match tts e with
            | Raises => (sc, None)
            | Gives _ =>
                let sc := bind "output_audio" sc in
                match duration_text e with
                | Raises => (sc, None)
                | Gives d => (bind "audio_duration" sc, Some d)
                end
            end in
          match load_name sc "audio_duration", duration with
          | Some err, _ => (Some err, [])
          | None, None => (Some (UnboundLocalError "audio_duration"), [])
          | None, Some d =>
              match gpt_response with
              | None => (Some TypeError, [])
              | Some r => (None, [d +:+ " " +:+ r])
              end
          end
      end
  end.

(** The names [handle_music_spotify_flow] assigns. *)
Definition music_locals : gset string :=
  {[ "transcribed_text"; "client"; "music_prompt"; "song_name"; "_"; "e";
     "lyrics_data"; "lines"; "start_time"; "timestamp"; "text" ]}.

(** What the outside supplies to one run of [process_audio_file]. *)
Record audio_env := mkAudioEnv {
  construct_client : ext unit;
  transcription : ext (option string);
  generic : chat_env;
  music : music_env
}.

Definition process_locals : gset string :=
  {[ "audio_path"; "client"; "transcribed_text"; "lower_text"; "e" ]}.

Definition music_keywords : list string := ["music"; "spotify"; "song"].

(** How one run of [process_audio_file] ends. *)
Inductive process_outcome :=
| Returned
| Raised (e : exn)
| OutOfFuel.

Definition bodies_of (o : flow_outcome) : list string :=
  match o with
  | FlowReported b => [b]
  | FlowStreamed _ _ _ posts => map body posts
  | _ => []
  end.

(** [process_audio_file(audio_path)], entered with the shared client in
    state [cached]: how it ends and the transcript bodies posted on the
    way. *)
Definition process_audio_file (fuel : nat) (e : audio_env) (cached : bool)
  : process_outcome * list string :=
  let sc := mkScope process_locals {["audio_path"]} in
  match get_openai_client cached (construct_client e) with
  | (Raises, _) => (Raised ExternalError, [])
  | (Gives _, cached) =>
      let sc := bind "client" sc in
      match transcription e with
      | Raises => (Returned, [])
      | Gives None => (Returned, [])
      | Gives (Some transcribed_text) =>
          let sc := bind "transcribed_text" sc in
          if is_empty transcribed_text then (Returned, [])
          else
            let lower_text := lower transcribed_text in
            let sc := bind "lower_text" sc in
            if existsb (fun keyword => contains keyword lower_text) music_keywords
            then
              let o := handle_music_spotify_flow fuel (music e) cached (construct_client e) in
              match o with
              | FlowRaised err => (Raised err, [])
              | FlowOutOfFuel => (OutOfFuel, [])
              | _ => (Returned, bodies_of o)
              end
            else
              match handle_chatgpt_tts_flow (generic e) cached (construct_client e) with
              | (Some err, posted) => (Raised err, posted)
              | (None, posted) =>
                  match load_name sc "song_name" with
                  | Some err => (Raised err, posted)
                  | None =>
                      (Returned,
                       posted ++ ["5 No synced lyrics available for {song_name}"])
                  end
              end
      end
  end.

End Agent.

(** ** Reference notions the properties are stated with *)

Module Ref.
Import PyStr.

(** The direction a raw key stands for, read off the interface: W, A, S, D
    and X, and nothing else. *)
Definition direction_of (key : string) : option string :=
  if String.eqb key "W" then Some "FORWARD"
  else if String.eqb key "A" then Some "LEFT"
  else if String.eqb key "S" then Some "BACKWARD"
  else if String.eqb key "D" then Some "RIGHT"
  else if String.eqb key "X" then Some "Not Moving"
  else None.

(** The tokens a command read can return. *)
Definition read_tokens : list string :=
  ["FORWARD"; "BACKWARD"; "LEFT"; "RIGHT"; "NOT_MOVING"; "Not Moving"; "PHOTO"].

(** The state after a sequence of hub requests. *)
Definition after (float : string -> option Hub.pyfloat) (rs : list Hub.request)
  (st : Hub.state) : Hub.state :=
  fst (Hub.run float rs st).


(** Three bytes standing for the content of the audio file. *)
Definition sample_audio : Hub.bytes := [Byte.x49; Byte.x44; Byte.x33].


(** A smallest frame that opens and closes as a JPEG stream. *)
Definition sample_frame : Hub.bytes := [Byte.xff; Byte.xd8; Byte.xff; Byte.xd9].

(** The frame field of a push request body. *)
Definition frame_field (payload : Hub.json) : Hub.json :=
  match payload with
  | Hub.JObj fields => Hub.dict_get "frame" fields
  | _ => Hub.JNull
  end.

(** A request body that is an object, or a falsy value the handler
    replaces by the empty object. *)
Definition object_like (payload : Hub.json) : bool :=
  match payload with
  | Hub.JObj _ => true
  | _ => negb (Hub.truthy payload)
  end.

(** Text without whitespace, and text of whitespace only. *)
Definition no_space (s : string) : Prop :=
  all_chars (fun c => negb (is_space c)) s = true.

Definition blank (s : string) : Prop := all_chars is_space s = true.

(** [body_parts body duration_str text]: how a stripped, non-empty
    transcript body reads as an optional duration prefix and a text.  A
    body of one word is all text and its duration is the default "0";
    otherwise the first word is the duration prefix and the text is what
    follows the whitespace after it. *)
Inductive body_parts : string -> string -> string -> Prop :=
| parts_text_only text :
    text <> EmptyString -> no_space text -> body_parts text "0" text
| parts_prefixed d ws c text :
    d <> EmptyString -> no_space d -> ws <> EmptyString -> blank ws ->
    is_space c = false ->
    body_parts (d +:+ ws +:+ String c text) d (String c text).

(** [expiry_for now duration e]: [e] is [now + max(0, duration) + 5],
    where a prefix that does not parse counts as 0, as do the values the
    builtin [max] does not rank above 0 (negative infinity and NaN). *)
Definition expiry_for (now : Q) (duration : option Hub.pyfloat) (e : Hub.pyfloat) : Prop :=
  match duration with
  | Some (Hub.Fin d) => exists x, e = Hub.Fin x /\ (x == now + Qmax 0 d + 5)%Q
  | Some Hub.PInf => e = Hub.PInf
  | Some Hub.NInf | Some Hub.NaN | None => exists x, e = Hub.Fin x /\ (x == now + 5)%Q
  end.

(** [now < expiry] and [now >= expiry]. *)
Definition before (now : Q) (e : Hub.pyfloat) : Prop :=
  match e with
  | Hub.Fin x => (now < x)%Q
  | Hub.PInf => True
  | _ => False
  end.

Definition reached (now : Q) (e : Hub.pyfloat) : Prop :=
  match e with
  | Hub.Fin x => (x <= now)%Q
  | Hub.NInf => True
  | _ => False
  end.

(** The value of a decimal digit and of a string of decimal digits. *)
Definition digit_value (c : ascii) : Z :=
  (match c with
   | "0"%char => 0 | "1"%char => 1 | "2"%char => 2 | "3"%char => 3
   | "4"%char => 4 | "5"%char => 5 | "6"%char => 6 | "7"%char => 7
   | "8"%char => 8 | "9"%char => 9
   | _ => 0
   end)%Z.

Fixpoint decimal (s : string) : Z :=
  match s with
  | EmptyString => 0%Z
  | String c r => (digit_value c * 10 ^ Z.of_nat (String.length r) + decimal r)%Z
  end.

(** The rational an unsigned decimal numeral [ip.fp] denotes. *)
Definition decimal_fraction (ip fp : string) : Q :=
  (inject_Z (decimal ip)
   + inject_Z (decimal fp) / inject_Z (10 ^ Z.of_nat (String.length fp))%Z)%Q.

(** A stand-in for the builtin [float] on unsigned decimal numerals
    (digits, optionally a point and more digits), enough to run the
    examples. *)
Definition decimal_float (s : string) : option Hub.pyfloat :=
  let '(ip, rest) := Lyrics.span_digits s in
  if is_empty ip then None
  else match rest with
       | EmptyString => Some (Hub.Fin (inject_Z (decimal ip)))
       | String c fp =>
           if Ascii.eqb c "."%char && negb (is_empty fp) && all_chars is_digit fp
           then Some (Hub.Fin (decimal_fraction ip fp))
           else None
       end.

(** *** The interpreter's numbers: IEEE 754 binary64 *)

(** [2 ^ e] for any integer [e]. *)
Definition pow2 (e : Z) : Q :=
  if Z.leb 0 e then inject_Z (2 ^ e)%Z else (1 / inject_Z (2 ^ (- e))%Z)%Q.

(** The integer nearest to a rational, ties going to the even one. *)
Definition round_half_even (q : Q) : Z :=
  let n := Qnum q in
  let d := Zpos (Qden q) in
  let f := Z.div n d in
  match Z.compare (2 * Z.modulo n d)%Z d with
  | Lt => f
  | Gt => (f + 1)%Z
  | Eq => if Z.even f then f else (f + 1)%Z
  end.

(** The exponent of the binade of a positive rational: the greatest [e]
    with [2 ^ e <= q]. *)
Definition floor_log2 (q : Q) : Z :=
  let e := (Z.log2 (Qnum q) - Z.log2 (Zpos (Qden q)))%Z in
  if Qle_bool (pow2 e) q then e else (e - 1)%Z.

(** Rounding to the nearest binary64 value, ties to even: 53 bits of
    precision, exponents from -1022 (subnormal numbers below), and
    infinity from [2 ^ 1024] on. *)
Definition round64 (q : Q) : Hub.pyfloat :=
  if Qeq_bool q 0 then Hub.Fin 0
  else
    let positive := Qle_bool 0 q in
    let a := if positive then q else (- q)%Q in
    let e := Z.max (floor_log2 a) (-1022)%Z in
    let quantum := pow2 (e - 52)%Z in
    let m := round_half_even (a / quantum)%Q in
    let v := Qred (inject_Z m * quantum)%Q in
    if Qle_bool (pow2 1024) v then (if positive then Hub.PInf else Hub.NInf)
    else Hub.Fin (if positive then v else Qred (- v)).

(** The builtin [float] on the numerals the lyric parser passes to it,
    digits, a point and digits: the nearest binary64 value. *)
Definition float64 (s : string) : option Hub.pyfloat :=
  match decimal_float s with
  | Some (Hub.Fin q) => Some (round64 q)
  | other => other
  end.

(** [n + x] for an [int] and a [float]: [n] is converted to the nearest
    float, [OverflowError] if that is beyond the largest one, and the sum
    is rounded. *)
Definition add64 (n : Z) (x : Hub.pyfloat) : ext Hub.pyfloat :=
  match round64 (inject_Z n) with
  | Hub.Fin a =>
      Gives (match x with
             | Hub.Fin b => round64 (a + b)%Q
             | other => other
             end)
  | _ => Raises
  end.

(** The number conversions of CPython 3.11 on an IEEE 754 machine, with
    the default limit of 4300 digits. *)
Definition binary64 : Lyrics.arith := Lyrics.mkArith 4300 float64 add64.

(** *** The timestamp-markup form, written out *)

(** The characters of a string, the ten decimal digits, and the
    whitespace of ASCII: TAB, LF, VT, FF, CR, FS, GS, RS, US and the
    space. *)
Definition chars (s : string) : list ascii := list_ascii_of_string s.

Definition digit_chars : list ascii :=
  ["0"; "1"; "2"; "3"; "4"; "5"; "6"; "7"; "8"; "9"]%char.

Definition space_chars : list ascii :=
  ["009"; "010"; "011"; "012"; "013"; "028"; "029"; "030"; "031"; " "]%char.

(** One decimal digit or more, and whitespace only. *)
Definition digits (s : string) : Prop :=
  s <> EmptyString /\ Forall (fun c => In c digit_chars) (chars s).

Definition whitespace (s : string) : Prop :=
  Forall (fun c => In c space_chars) (chars s).

(** [lrc_form line mm ss cc text]: the line reads as an opening bracket,
    digits, a colon, digits, a point, digits, a closing bracket and free
    text. *)
Definition lrc_form (line mm ss cc text : string) : Prop :=
  line = "[" +:+ mm +:+ ":" +:+ ss +:+ "." +:+ cc +:+ "]" +:+ text
  /\ digits mm /\ digits ss /\ digits cc.

(** The offset of a line of that form, minutes * 60 + seconds as the
    interpreter computes it, or the exception raised on the way: the
    minutes have too many digits for [int], or are too large for a
    float. *)
Definition stamp (py : Lyrics.arith) (mm ss cc : string) : Lyrics.error + Hub.pyfloat :=
  if bool_decide (0 < Lyrics.int_max_str_digits py < String.length mm)%nat
  then inl Lyrics.ValueError
  else
    match Lyrics.float py (ss +:+ "." +:+ cc) with
    | None => inl Lyrics.ValueError
    | Some seconds =>
        match Lyrics.add_int_float py (decimal mm * 60)%Z seconds with
        | Raises => inl Lyrics.OverflowError
        | Gives t => inr t
        end
    end.

(** [trimmed s t]: [t] is [s] without the whitespace at its two ends. *)
Definition trimmed (s t : string) : Prop :=
  (exists l r, s = l +:+ t +:+ r /\ whitespace l /\ whitespace r)
  /\ (forall c rest, t = String c rest -> ~ In c space_chars)
  /\ (forall front c, t = front +:+ String c EmptyString -> ~ In c space_chars).

(** The lines of a text: the text is its lines with a line feed between
    each two, and no line holds a line feed. *)
Fixpoint joined (lines : list string) : string :=
  match lines with
  | [] => EmptyString
  | line :: rest =>
      match rest with
      | [] => line
      | _ => line +:+ String "010"%char (joined rest)
      end
  end.

Definition lines_of (s : string) (lines : list string) : Prop :=
  lines <> [] /\ Forall (fun line => ~ In "010"%char (chars line)) lines
  /\ joined lines = s.

(** [parsed py lines result]: what reading the lines in order gives.  A
    line of the markup form whose offset is computed adds the pair of
    offset and trimmed text; one whose offset raises ends the reading
    with that exception; any other line adds nothing. *)
Inductive parsed (py : Lyrics.arith)
  : list string -> Lyrics.error + list (Hub.pyfloat * string) -> Prop :=
| parsed_nil : parsed py [] (inr [])
| parsed_keep line mm ss cc text t text' rest result :
    lrc_form line mm ss cc text ->
    stamp py mm ss cc = inr t ->
    trimmed text text' ->
    parsed py rest result ->
    parsed py (line :: rest)
      (match result with
       | inl e => inl e
       | inr out => inr ((t, text') :: out)
       end)
| parsed_raise line mm ss cc text e rest :
    lrc_form line mm ss cc text ->
    stamp py mm ss cc = inl e ->
    parsed py (line :: rest) (inl e)
| parsed_drop line rest result :
    (forall mm ss cc text, ~ lrc_form line mm ss cc text) ->
    parsed py rest result ->
    parsed py (line :: rest) result.

(** A string of [n] nines. *)
Fixpoint nines (n : nat) : string :=
  match n with
  | O => EmptyString
  | S n' => String "9"%char (nines n')
  end.

(** [due start offset clock]: the reading [clock] is not before
    [start + offset]; an offset that is no number, or is minus infinity,
    holds nothing back, and plus infinity is never due. *)
Definition due (start : Q) (offset : Hub.pyfloat) (clock : Q) : Prop :=
  match offset with
  | Hub.Fin q => (start + q <= clock)%Q
  | Hub.PInf => False
  | Hub.NInf | Hub.NaN => True
  end.

(** The direction command a polled reply stands for, if any. *)
Definition mapped_of (t : Agent.tick) : option string :=
  match Agent.polled t with
  | Agent.PollFailed => None
  | Agent.PollReply status_code text =>
      if negb (Z.eqb status_code 200) then None
      else if String.eqb (Agent.token_of text) "PHOTO" then None
      else Agent.dirs !! Agent.token_of text
  end.

(** The polled value of a tick, as the loop sees it: the token of a 200
    reply. *)
Definition polled_token (t : Agent.tick) : option string :=
  match Agent.polled t with
  | Agent.PollFailed => None
  | Agent.PollReply status_code text =>
      if negb (Z.eqb status_code 200) then None else Some (Agent.token_of text)
  end.




(** What [last_cmd] and a sequence of direction commands leave to forward:
    a command is kept unless it equals the one before it (or [last]). *)
Fixpoint dedup_from (last : option string) (l : list string) : list string :=
  match l with
  | [] => []
  | x :: rest =>
      if decide (Some x = last) then dedup_from last rest
      else x :: dedup_from (Some x) rest
  end.

(** The byte the serial port receives for a command: its first character. *)
Definition first_char (cmd : string) : list ascii :=
  match cmd with
  | EmptyString => []
  | String c _ => [c]
  end.

(** A tick whose poll is answered 200 with the given body; the camera has
    a frame and every device call succeeds. *)
Definition reply (text : string) : Agent.tick :=
  Agent.mkTick (Agent.PollReply 200 text) (Some sample_frame) true 0 true.

(** A PHOTO poll taken before the camera has captured a frame. *)
Definition idle_photo : Agent.tick :=
  Agent.mkTick (Agent.PollReply 200 " photo ") None true 0 true.



(** A Spotify client for which every call succeeds. *)
Definition spotify_up : Spotify.env :=
  {| Spotify.search_items := Gives ["spotify:track:1"];
     Spotify.devices := Gives ["speaker"];
     Spotify.start_playback := Gives tt |}.

(** A music request for the lyric text [synced]; the clock reads 100
    when the stopwatch starts, starting playback takes [latency] seconds,
    each sleep lasts its 10 ms, posts are immediate and answered 200. *)
Definition song_request (synced : string) (sp : Spotify.env) (latency : Q)
  : Agent.music_env :=
  Agent.mkMusicEnv (Gives (Some "Song")) (Some (Some synced)) sp
                   100%Q latency (fun _ => (1 # 100)%Q) (fun _ => 0%Q)
                   binary64 (fun _ => true).

(** A music request for one lyric line at offset one second. *)
Definition one_line_song (sp : Spotify.env) (latency : Q) : Agent.music_env :=
  song_request "[00:01.00]la" sp latency.

(** A spoken request that names no music, answered by the inference
    service without any failure. *)
Definition time_request : Agent.audio_env :=
  Agent.mkAudioEnv (Gives tt) (Gives (Some "What time is it"))
    (Agent.mkChatEnv (Gives (Some "Noon")) (Gives tt) (Gives "1.5"))
    (one_line_song spotify_up 0).

End Ref.
Import Ref.

From Stdlib Require Qabs.

(** ** unity.py: the key handlers of the served page *)

Module Page.
Import PyStr.

Inductive key_event :=
| KeyDown (key : string)
| KeyUp (key : string).

Definition movementKeys : list string := ["w"; "a"; "s"; "d"].

(** The [keydown] listener: [pressed] is the set [pressedKeys]; the result
    is the new set and the commands given to [sendCommand]. *)
Definition keydown (key : string) (pressed : gset string) : gset string * list string :=
  let key := lower key in
  if bool_decide (key ∈ movementKeys ++ ["x"]) then
    if bool_decide (key ∈ pressed) then (pressed, [])
    else ({[key]} ∪ pressed, [upper key])
  else (pressed, []).

(** The [keyup] listener. *)
Definition keyup (key : string) (pressed : gset string) : gset string * list string :=
  let key := lower key in
  if bool_decide (key ∈ movementKeys) then
    let pressed := pressed ∖ {[key]} in
    let stillPressed := existsb (fun k => bool_decide (k ∈ pressed)) movementKeys in
    if negb stillPressed then (pressed, ["X"])
    else
      let remaining := filter (fun k => k ∈ pressed) movementKeys in
      match last remaining with
      | Some k => (pressed, [upper k])
      | None => (pressed, [])
      end
  else if String.eqb key "x" then (∅, ["X"])
  else (pressed, []).

Definition on_event (ev : key_event) (pressed : gset string) : gset string * list string :=
  match ev with
  | KeyDown key => keydown key pressed
  | KeyUp key => keyup key pressed
  end.

(** A sequence of key events: the final set and every command sent, in
    order. *)
Fixpoint on_events (evs : list key_event) (pressed : gset string)
  : gset string * list string :=
  match evs with
  | [] => (pressed, [])
  | ev :: rest =>
      let '(pressed1, sent1) := on_event ev pressed in
      let '(pressed2, sent2) := on_events rest pressed1 in
      (pressed2, sent1 ++ sent2)
  end.

End Page.

(** ** rpi.py: the audio polling loop and the camera loop *)

Module AudioLoop.

Definition bytes := Hub.bytes.

(** The outcome of [requests.get(AUDIO_ENDPOINT)]. *)
Inductive poll_result :=
| PollFailed
| PollReply (status_code : Z) (content : bytes).

(** What the outside supplies during one iteration: the reply, whether the
    audio file can be written, and what the processing of the request
    meets. *)
Record tick := mkTick {
  polled : poll_result;
  save_ok : bool;
  request : Agent.audio_env;
  fuel : nat
}.

(** How an iteration ends. *)
Inductive note :=
| NoAudio
| GetFailed (status_code : Z)
| PollError
| Done
| UnexpectedError (e : Agent.exn)
| Unfinished.

(** What an iteration leaves: the audio file written, the transcript
    bodies posted, and how it ended. *)
Record iteration := mkIteration {
  saved : option bytes;
  posted : list string;
  ending : note
}.

Definition is_nil (b : bytes) : bool :=
  match b with [] => true | _ => false end.

(** One iteration of the [while True] body of [audio_poll_loop], entered
    with the shared client in state [cached]. *)
Definition poll_step (t : tick) (cached : bool) : iteration :=
  match polled t with
  | PollFailed => mkIteration None [] PollError
  | PollReply status_code content =>
      if Z.eqb status_code 204 || is_nil content then mkIteration None [] NoAudio
      else if negb (Z.eqb status_code 200) then mkIteration None [] (GetFailed status_code)
      else
        let audio_bytes := content in
        if is_nil audio_bytes then mkIteration None [] NoAudio
        else if negb (save_ok t) then
          mkIteration None [] (UnexpectedError Agent.ExternalError)
        else
          match Agent.process_audio_file (fuel t) (request t) cached with
          | (Agent.Returned, bodies) => mkIteration (Some audio_bytes) bodies Done
          | (Agent.Raised e, bodies) =>
              mkIteration (Some audio_bytes) bodies (UnexpectedError e)
          | (Agent.OutOfFuel, bodies) => mkIteration (Some audio_bytes) bodies Unfinished
          end
  end.

(** The shared client after an iteration: built once a request was
    processed with a client that could be constructed. *)
Definition client_after (t : tick) (cached : bool) : bool :=
  match saved (poll_step t cached) with
  | Some _ => snd (Agent.get_openai_client cached (Agent.construct_client (request t)))
  | None => cached
  end.

(** The first iterations of the loop, one per element of [ts]. *)
Fixpoint poll_loop (ts : list tick) (cached : bool) : list iteration :=
  match ts with
  | [] => []
  | t :: rest => poll_step t cached :: poll_loop rest (client_after t cached)
  end.

End AudioLoop.

Module Camera.

Definition bytes := Hub.bytes.

(** What one pass of the capture loop meets: the JPEG bytes of
    [cv2.imencode], [None] when it reports failure, and whether the POST
    of the frame reaches the hub. *)
Record tick := mkTick {
  encoded : option bytes;
  delivered : bool
}.

(** One pass of the [while True] body of [camera_loop]: the new value of
    [last_frame_jpeg] and the request body posted, if any. *)
Definition capture (t : tick) (last_frame_jpeg : option bytes)
  : option bytes * option Hub.json :=
  match encoded t with
  | None => (last_frame_jpeg, None)
  | Some jpeg_bytes => (Some jpeg_bytes, Some (Agent.frame_payload jpeg_bytes))
  end.

End Camera.

(** ** lyrics.py: search, file and karaoke *)

Module LyricsTools.
Import PyStr.

(** The [duration] field of a search result: absent, [null] or a number. *)
Inductive field :=
| Missing
| Null
| Num (q : Q).

(** A search result of LRCLIB, as far as the code reads it. *)
Record track := mkTrack {
  track_id : Z;
  duration : field;
  synced : option string
}.

(** What the HTTP call of [search_lyrics] meets: the call raising, or a
    status code with the decoded body ([Raises] when [response.json()]
    raises). *)
Definition reply := ext (Z * ext (list track)).

(** The sort key [abs(x.get('duration', 0) - duration)]; [None] is the
    [TypeError] of subtracting from [None]. *)
Definition sort_key (wanted : Q) (x : track) : option Q :=
  match duration x with
  | Missing => Some (Qabs.Qabs (0 - wanted))
  | Null => None
  | Num q => Some (Qabs.Qabs (q - wanted))
  end.

Fixpoint keyed (wanted : Q) (results : list track) : option (list (Q * track)) :=
  match results with
  | [] => Some []
  | x :: rest =>
      match sort_key wanted x, keyed wanted rest with
      | Some k, Some krest => Some ((k, x) :: krest)
      | _, _ => None
      end
  end.

(** [a < b] on keys. *)
Definition key_lt (a b : Q) : bool := negb (Qle_bool b a).

(** Putting an element in front of a sorted list, behind the elements
    with a strictly smaller key. *)
Fixpoint insert (x : Q * track) (l : list (Q * track)) : list (Q * track) :=
  match l with
  | [] => [x]
  | y :: rest => if key_lt (fst y) (fst x) then y :: insert x rest else x :: y :: rest
  end.

(** The builtin [sorted(results, key=...)], a stable sort. *)
Definition sorted (l : list (Q * track)) : list (Q * track) :=
  fold_right insert [] l.

(** [search_lyrics(track_name, artist_name, album_name, duration)] once the
    request is sent; [wanted] is the [duration] argument. *)
Definition search_lyrics (r : reply) (wanted : option Q) : option track :=
  match r with
  | Raises => None
  | Gives (status_code, body) =>
      if negb (Z.eqb status_code 200) then None
      else
        match body with
        | Raises => None
        | Gives [] => None
        | Gives results =>
            match wanted with
            | Some d =>
                if Qeq_bool d 0 then hd_error results
                else match keyed d results with
                     | None => None
                     | Some kl => hd_error (map snd (sorted kl))
                     end
            | None => hd_error results
            end
        end
  end.

(** The record [save_lrc_file] reads; [length_text] is
    [str(lyrics_data.get('duration', 0))]. *)
Record lyrics_data := mkLyricsData {
  trackName : string;
  artistName : string;
  albumName : option string;
  length_text : string;
  syncedLyrics : option string
}.

(** A character of the class the pattern of [re.sub] keeps: a word
    character, whitespace or the hyphen. *)
Definition kept (c : ascii) : bool :=
  let n := N_of_ascii c in
  (N.leb 48 n && N.leb n 57) || (N.leb 65 n && N.leb n 90)
  || (N.leb 97 n && N.leb n 122) || N.eqb n 95
  || is_space c || N.eqb n 45.

(** [re.sub(pattern, '', s)]: the characters outside the class are
    removed. *)
Fixpoint safe (s : string) : string :=
  match s with
  | EmptyString => EmptyString
  | String c r => if kept c then String c (safe r) else safe r
  end.

Definition truthy_text (o : option string) : option string :=
  match o with
  | Some s => if is_empty s then None else Some s
  | None => None
  end.

Definition lf : string := String "010"%char EmptyString.

(** [save_lrc_file(lyrics_data, filename)]: the name of the file written
    and its content; [None] when there are no synced lyrics to save. *)
Definition save_lrc_file (d : lyrics_data) (filename : option string)
  : option (string * string) :=
  match truthy_text (syncedLyrics d) with
  | None => None
  | Some lyrics =>
      let filename :=
        match truthy_text filename with
        | Some name => name
        | None =>
            let safe_title := safe (trackName d) in
            let safe_artist := safe (artistName d) in
            safe_artist +:+ " - " +:+ safe_title +:+ ".lrc"
        end in
      let album_line :=
        match truthy_text (albumName d) with
        | Some album => "[al:" +:+ album +:+ "]" +:+ lf
        | None => EmptyString
        end in
      Some (filename,
            "[ar:" +:+ artistName d +:+ "]" +:+ lf
            +:+ ("[ti:" +:+ trackName d +:+ "]" +:+ lf)
            +:+ album_line
            +:+ ("[length:" +:+ length_text d +:+ "]" +:+ lf)
            +:+ lf
            +:+ lyrics)
  end.

(** How [simulate_karaoke] ends: the parser raising, nothing to show, the
    lines shown with the clock reading of each, the division raising
    after some lines were shown, or the run not over within the fuel. *)
Inductive karaoke :=
| ParseRaised (e : Lyrics.error)
| NoLyrics
| Shown (lines : list (Q * string))
| ZeroDivision (shown : list (Q * string))
| OutOfFuel.

(** The [for i, (timestamp, text) in enumerate(lines)] loop; [fdiv] is
    the division of two floats, which raises [ZeroDivisionError]. *)
Fixpoint show_lines (fuel : nat)
  (fdiv : Hub.pyfloat -> Hub.pyfloat -> ext Hub.pyfloat) (sleep_len : nat -> Q)
  (start_time : Q) (speed : Hub.pyfloat)
  (lines : list (Hub.pyfloat * string)) (clock : Q) (k : nat) : karaoke :=
  match lines with
  | [] => Shown []
  | (timestamp, text) :: rest =>
      match fdiv timestamp speed with
      | Raises => ZeroDivision []
      | Gives due_at =>
          match Agent.wait_until fuel sleep_len start_time due_at clock k with
          | None => OutOfFuel
          | Some (clock', k') =>
              match show_lines fuel fdiv sleep_len start_time speed rest clock' k' with
              | Shown shown => Shown ((clock', text) :: shown)
              | ZeroDivision shown => ZeroDivision ((clock', text) :: shown)
              | other => other
              end
          end
      end
  end.

(** [simulate_karaoke(synced_lyrics, speed_multiplier)]; [py] and [fdiv]
    are the interpreter's number conversions and float division, and
    [clock_start] is the reading of [time.time()] when the stopwatch
    starts. *)
Definition simulate_karaoke (fuel : nat) (py : Lyrics.arith)
  (fdiv : Hub.pyfloat -> Hub.pyfloat -> ext Hub.pyfloat) (sleep_len : nat -> Q)
  (clock_start : Q) (synced_lyrics : option string) (speed_multiplier : Hub.pyfloat)
  : karaoke :=
  match Lyrics.parse_lrc_timestamps py synced_lyrics with
  | inl e => ParseRaised e
  | inr [] => NoLyrics
  | inr lines =>
      show_lines fuel fdiv sleep_len clock_start speed_multiplier lines clock_start 0
  end.

End LyricsTools.

(** ** Further reference notions: how hub, agent and page are wired *)

Module Wiring.
Import PyStr.

(** A request of the hub's own surface: anything but a direct call of
    [set_current_command_from_key], which no handler makes with a key
    outside W, A, S, D, X. *)
Definition public (r : Hub.request) : bool :=
  match r with
  | Hub.SetFromKey _ => false
  | _ => true
  end.

(** What the agent's [requests.get(REMOTE_COMMAND_ENDPOINT)] receives when
    the hub is in state [st] and the call goes through. *)
Definition command_poll (st : Hub.state) : Agent.poll_result :=
  match Hub.content (Hub.command_get st) with
  | Hub.BText text => Agent.PollReply (Hub.status (Hub.command_get st)) text
  | _ => Agent.PollReply (Hub.status (Hub.command_get st)) EmptyString
  end.

(** One iteration of the forwarding loop whose poll is answered by the hub
    in state [hub]; [dev] supplies what the devices do. *)
Definition poll_tick (dev : Agent.tick) (hub : Hub.state) : Agent.tick :=
  Agent.mkTick (command_poll hub) (Agent.last_frame_jpeg dev)
               (Agent.save_ok dev) (Agent.open_failures dev) (Agent.write_ok dev).

(** The tokens the hub serves through its own surface. *)
Definition served_tokens : list string :=
  ["FORWARD"; "BACKWARD"; "LEFT"; "RIGHT"; "NOT_MOVING"; "Not Moving"].


(** The bytes a frame push stores, if the hub accepts it. *)
Definition stored_frame (r : Hub.request) : option Hub.bytes :=
  match r with
  | Hub.PostFrame payload =>
      if object_like payload && Hub.truthy (frame_field payload) then
        match Hub.b64decode (frame_field payload) with
        | inr data => Some data
        | inl _ => None
        end
      else None
  | _ => None
  end.

(** The serial port as the events of the loop leave it: [None] when an
    event does not fit the port (an open attempt on an open port, a write
    on a closed one); a write that raises closes the port. *)
Fixpoint port_after (open : bool) (evs : list Agent.event) : option bool :=
  match evs with
  | [] => Some open
  | Agent.SerialOpenFailed :: rest => if open then None else port_after false rest
  | Agent.SerialOpened :: rest => if open then None else port_after true rest
  | Agent.SerialWrite _ ok :: rest => if open then port_after ok rest else None
  | Agent.PhotoSave _ _ :: rest => port_after open rest
  end.

(** The snapshot a PHOTO poll sets out to write, if the tick is one and a
    frame was captured: the frame, and whether the file gets written. *)
Definition snapshot_of (t : Agent.tick) : option (Agent.bytes * bool) :=
  if bool_decide (polled_token t = Some "PHOTO") then
    match Agent.last_frame_jpeg t with
    | Some jpeg_data => Some (jpeg_data, Agent.save_ok t)
    | None => None
    end
  else None.

(** The snapshot file a poll leaves behind. *)
Definition snapshot_file (t : Agent.tick) : option Agent.bytes :=
  match snapshot_of t with
  | Some (jpeg_data, true) => Some jpeg_data
  | _ => None
  end.

(** What the agent's [requests.get(AUDIO_ENDPOINT)] receives for a reply
    of the hub; [other] stands for the bytes of a JSON or text body. *)
Definition audio_poll (r : Hub.response) (other : Hub.bytes) : AudioLoop.poll_result :=
  match Hub.content r with
  | Hub.BEmpty => AudioLoop.PollReply (Hub.status r) []
  | Hub.BFile _ data => AudioLoop.PollReply (Hub.status r) data
  | _ => AudioLoop.PollReply (Hub.status r) other
  end.

(** The agent polls the hub's audio endpoint once per element of [files],
    the content of the audio file at that moment ([None] when it cannot be
    read): the hub state and the iterations of the polling loop. [dev]
    supplies what the agent's own calls meet. *)
Fixpoint handoff (files : list (option Hub.bytes)) (dev : AudioLoop.tick)
  (other : Hub.bytes) (hub : Hub.state) (cached : bool)
  : Hub.state * list AudioLoop.iteration :=
  match files with
  | [] => (hub, [])
  | file :: rest =>
      let '(hub1, r) := Hub.audio file hub in
      let t := AudioLoop.mkTick (audio_poll r other) (AudioLoop.save_ok dev)
                 (AudioLoop.request dev) (AudioLoop.fuel dev) in
      let '(hub2, its) := handoff rest dev other hub1 (AudioLoop.client_after t cached) in
      (hub2, AudioLoop.poll_step t cached :: its)
  end.

(** The camera loop runs against the hub: the agent's [last_frame_jpeg]
    and the hub state after the passes [ts]. *)
Fixpoint film (ts : list Camera.tick) (last_frame_jpeg : option Hub.bytes)
  (hub : Hub.state) : option Hub.bytes * Hub.state :=
  match ts with
  | [] => (last_frame_jpeg, hub)
  | t :: rest =>
      let '(last1, payload) := Camera.capture t last_frame_jpeg in
      let hub1 :=
        match payload with
        | Some p => if Camera.delivered t then fst (Hub.receive_frame p hub) else hub
        | None => hub
        end in
      film rest last1 hub1
  end.

(** The frame a pass of the camera loop puts on the hub: the encoded
    frame, when there is one, it is not empty and the POST is delivered. *)
Definition shown_frame (t : Camera.tick) : option Hub.bytes :=
  if Camera.delivered t then
    match Camera.encoded t with
    | Some (b :: data) => Some (b :: data)
    | _ => None
    end
  else None.

(** No movement key is in the page's set of pressed keys. *)
Definition released (pressed : gset string) : Prop :=
  forall k, In k Page.movementKeys -> k ∉ pressed.

(** An iteration of the audio loop in which the file can be written and
    the request is the one for the time of day. *)
Definition audio_dev : AudioLoop.tick :=
  AudioLoop.mkTick AudioLoop.PollFailed true time_request 0.

(** The division of two floats with the results rounded to binary64;
    [ZeroDivisionError] for a zero divisor. *)
Definition div64 (a b : Hub.pyfloat) : ext Hub.pyfloat :=
  match a, b with
  | _, Hub.Fin y =>
      if Qeq_bool y 0 then Raises
      else Gives (match a with
                  | Hub.Fin x => round64 (x / y)
                  | Hub.PInf => if Qle_bool 0 y then Hub.PInf else Hub.NInf
                  | Hub.NInf => if Qle_bool 0 y then Hub.NInf else Hub.PInf
                  | Hub.NaN => Hub.NaN
                  end)
  | Hub.Fin _, (Hub.PInf | Hub.NInf) => Gives (Hub.Fin 0)
  | _, _ => Gives Hub.NaN
  end.


End Wiring.
Import Wiring.

(** * Properties *)

(** ** Hub: command cell *)

(** Case analysis on a lookup in a literal finite map: [H] is the lookup
    equation and [key] the key looked up. *)
Ltac lookup_cases H key :=
  repeat (rewrite lookup_insert in H;
          destruct (decide (_ = key)) as [_|_];
          [inversion H; subst; simpl; tauto|]);
  rewrite lookup_empty in H; discriminate H.

Section CommandCell.
Import PyStr.

Lemma upper_char_idem c : upper_char (upper_char c) = upper_char c.
Proof.
  destruct c as [[] [] [] [] [] [] [] []]; reflexivity.
Qed.

Lemma upper_idem s : upper (upper s) = upper s.
Proof.
  induction s as [|c s IH]; simpl; [reflexivity|].
  now rewrite upper_char_idem, IH.
Qed.

Lemma raw_commands_spec key :
  key ∈ Hub.raw_commands <->
  key = "W" \/ key = "A" \/ key = "S" \/ key = "D" \/ key = "X".
Proof.
  unfold Hub.raw_commands.
  rewrite !elem_of_union, !elem_of_singleton. tauto.
Qed.

Lemma mapping_values key token :
  Hub.mapping !! key = Some token -> In token read_tokens.
Proof.
  unfold Hub.mapping; simpl; intros H. lookup_cases H key.
Qed.

Lemma direction_of_spec key :
  match direction_of key with
  | Some t => key ∈ Hub.raw_commands /\ Hub.mapping !! key = Some t
  | None => key ∉ Hub.raw_commands
  end.
Proof.
  unfold direction_of.
  repeat match goal with
         | |- context [String.eqb key ?k] =>
             destruct (String.eqb_spec key k) as [->|?];
             [split; [apply raw_commands_spec; tauto | reflexivity]|]
         end.
  intros Hin; apply raw_commands_spec in Hin; tauto.
Qed.

Lemma command_post_spec c st :
  Hub.command_post c st =
  match direction_of (upper c) with
  | Some t => (Hub.set_command t st, Hub.json_ok)
  | None => (st, Hub.json_error 400 "invalid command")
  end.
Proof.
  unfold Hub.command_post, Hub.set_current_command_from_key.
  rewrite upper_idem.
  pose proof (direction_of_spec (upper c)) as H.
  destruct (direction_of (upper c)) as [t|].
  - destruct H as [Hin Hm]. rewrite bool_decide_eq_true_2 by exact Hin.
    now rewrite Hm.
  - now rewrite bool_decide_eq_false_2 by exact H.
Qed.

Lemma set_from_key_command cmd st :
  Hub.current_command (Hub.set_current_command_from_key cmd st) = Hub.current_command st
  \/ In (Hub.current_command (Hub.set_current_command_from_key cmd st)) read_tokens.
Proof.
  unfold Hub.set_current_command_from_key.
  destruct (Hub.mapping !! upper cmd) as [t|] eqn:E; [right|left; reflexivity].
  simpl. eapply mapping_values, E.
Qed.

End CommandCell.

Section HubRuns.
Import PyStr.
Variable float : string -> option Hub.pyfloat.

Lemma after_nil st : after float [] st = st.
Proof. reflexivity. Qed.

Lemma after_cons r rs st :
  after float (r :: rs) st = after float rs (fst (Hub.handle float r st)).
Proof.
  unfold after; simpl.
  destruct (Hub.handle float r st) as [st1 resp]; simpl.
  now destruct (Hub.run float rs st1).
Qed.


Lemma after_app rs1 rs2 st :
  after float (rs1 ++ rs2) st = after float rs2 (after float rs1 st).
Proof.
  revert st; induction rs1 as [|r rs1 IH]; intros st; [reflexivity|].
  simpl. now rewrite !after_cons, IH.
Qed.

Lemma handle_post_command c st :
  Hub.handle float (Hub.PostCommand c) st =
  match direction_of (upper c) with
  | Some t => (Hub.set_command t st, Some Hub.json_ok)
  | None => (st, Some (Hub.json_error 400 "invalid command"))
  end.
Proof.
  simpl. rewrite command_post_spec. now destruct (direction_of (upper c)).
Qed.

Lemma last_accepted_after cs st :
  Hub.current_command (after float (map Hub.PostCommand cs) st) =
  default (Hub.current_command st) (last (omap (fun c => direction_of (upper c)) cs)).
Proof.
  revert st; induction cs as [|c cs IH]; intros st; [reflexivity|].
  simpl map. rewrite after_cons, handle_post_command, IH. simpl omap.
  destruct (direction_of (upper c)) as [t|]; simpl; [|reflexivity].
  rewrite last_cons. now destruct (last _).
Qed.

End HubRuns.

(** C6, as the code has it: a command write is accepted exactly when the
    upper-cased input is one of W, A, S, D, X (so lower-case keys are
    accepted too); an accepted write stores the direction of the key and
    answers ok, any other input is answered with the 400 validation error
    and leaves the stored command as it was; hence after any sequence of
    writes the stored command is the direction of the most recently
    accepted key, or the earlier value when none was accepted. *)
Theorem command_write_validation (float : string -> option Hub.pyfloat) :
  (forall c st,
     Hub.command_post c st =
     match direction_of (PyStr.upper c) with
     | Some t => (Hub.set_command t st, Hub.json_ok)
     | None => (st, Hub.json_error 400 "invalid command")
     end)
  /\ (forall cs st,
        Hub.current_command (after float (map Hub.PostCommand cs) st) =
        default (Hub.current_command st)
                (last (omap (fun c => direction_of (PyStr.upper c)) cs))).
Proof.
  split; [apply command_post_spec | apply last_accepted_after].
Qed.

(** C6 as stated fails: the input w is none of the raw tokens W, A, S, D,
    X, yet the write is accepted and the stored command changes. *)
Lemma command_write_lowercase_accepted :
  ("w" ∉ Hub.raw_commands)
  /\ Hub.command_post "w" Hub.initial = (Hub.set_command "FORWARD" Hub.initial, Hub.json_ok)
  /\ Hub.current_command (fst (Hub.command_post "w" Hub.initial)) <> Hub.current_command Hub.initial.
Proof.
  split; [|split].
  - intros H; apply raw_commands_spec in H.
    destruct H as [H|[H|[H|[H|H]]]]; discriminate H.
  - reflexivity.
  - simpl. discriminate.
Qed.

Example command_sequence :
  Hub.current_command
    (after (fun _ => None) (map Hub.PostCommand ["W"; "q"; "a"; "STOP"; ""]) Hub.initial)
  = "LEFT".
Proof. reflexivity. Qed.

Section CommandRead.
Import PyStr.
Variable float : string -> option Hub.pyfloat.

Lemma handle_command_cases r st :
  Hub.current_command (fst (Hub.handle float r st)) = Hub.current_command st
  \/ In (Hub.current_command (fst (Hub.handle float r st))) read_tokens.
Proof.
  destruct r as [c| |l|c|e|f|now raw|now|p|]; simpl;
    try (left; reflexivity).
  - unfold Hub.command_post. destruct (bool_decide _); simpl.
    + apply set_from_key_command.
    + now left.
  - unfold Hub.keyboard_line. destruct (bool_decide _).
    + apply set_from_key_command.
    + now left.
  - apply set_from_key_command.
  - unfold Hub.send_audio. destruct e; simpl; now left.
  - unfold Hub.audio. destruct (Hub.pending_audio_ready st); simpl; [|now left].
    destruct f; simpl; now left.
  - unfold Hub.receive_transcript.
    destruct (is_empty (strip raw)); simpl; [now left|].
    destruct (Hub.duration_and_text _) as [[d t]|]; simpl; now left.
  - unfold Hub.receive_frame.
    destruct (if Hub.truthy p then p else Hub.JObj []); simpl; try now left.
    destruct (Hub.truthy _); simpl; [|now left].
    destruct (Hub.b64decode _); simpl; now left.
Qed.

Lemma read_token_kept rs st :
  In (Hub.current_command st) read_tokens ->
  In (Hub.current_command (after float rs st)) read_tokens.
Proof.
  revert st; induction rs as [|r rs IH]; intros st H; [exact H|].
  rewrite after_cons. apply IH.
  destruct (handle_command_cases r st) as [E|E]; [now rewrite E | exact E].
Qed.

Lemma command_get_token st :
  In (Hub.current_command st) read_tokens ->
  Hub.command_get st = Hub.mkResp 200 (Hub.BText (Hub.current_command st)).
Proof.
  unfold Hub.command_get. intros H.
  destruct (Hub.current_command st) eqn:E; [|reflexivity].
  simpl in H. repeat (destruct H as [H|H]; [discriminate H|]). destruct H.
Qed.

End CommandRead.

(** C7, as the code has it: a command read always succeeds with status
    200 and a plain-text token; it returns NOT_MOVING if no command was
    ever set, and in every state reached from the initial one by any
    sequence of hub requests the token is one of FORWARD, BACKWARD, LEFT,
    RIGHT, NOT_MOVING, Not Moving, PHOTO. *)
Theorem command_read_output (float : string -> option Hub.pyfloat) :
  Hub.command_get Hub.initial = Hub.mkResp 200 (Hub.BText "NOT_MOVING")
  /\ (forall rs, exists token,
        Hub.command_get (after float rs Hub.initial) = Hub.mkResp 200 (Hub.BText token)
        /\ In token read_tokens).
Proof.
  split; [reflexivity|].
  intros rs. exists (Hub.current_command (after float rs Hub.initial)).
  assert (H : In (Hub.current_command (after float rs Hub.initial)) read_tokens).
  { apply read_token_kept. simpl. tauto. }
  split; [apply command_get_token, H | exact H].
Qed.

(** C7 as stated fails twice: with no command ever set the read returns
    NOT_MOVING, not STOP; and after the key X is written the read returns
    the text Not Moving, which is none of FORWARD, BACKWARD, LEFT, RIGHT,
    NOT_MOVING, PHOTO. *)
Lemma command_read_not_stop :
  Hub.command_get Hub.initial <> Hub.mkResp 200 (Hub.BText "STOP")
  /\ Hub.command_get (fst (Hub.command_post "X" Hub.initial))
     = Hub.mkResp 200 (Hub.BText "Not Moving")
  /\ ~ In "Not Moving" ["FORWARD"; "BACKWARD"; "LEFT"; "RIGHT"; "NOT_MOVING"; "PHOTO"].
Proof.
  split; [|split].
  - simpl. unfold Hub.command_get; simpl. discriminate.
  - reflexivity.
  - simpl. intros H. repeat (destruct H as [H|H]; [discriminate H|]). exact H.
Qed.

(** ** Hub: audio hand-off *)

Section AudioHandoff.
Variable float : string -> option Hub.pyfloat.

Lemma set_pending_twice p st :
  Hub.set_pending p (Hub.set_pending p st) = Hub.set_pending p st.
Proof. reflexivity. Qed.

Lemma triggers_pending es st :
  In true es ->
  after float (map Hub.PostSendAudio es) st = Hub.set_pending true st.
Proof.
  revert st; induction es as [|e es IH]; intros st H; [destruct H|].
  simpl map. rewrite after_cons. destruct e; simpl.
  - destruct (in_dec Bool.bool_dec true es) as [Hin|Hout].
    + now rewrite IH.
    + clear IH H. induction es as [|e es IH]; [reflexivity|].
      destruct e; [exfalso; apply Hout; now left|].
      simpl map. rewrite after_cons. simpl. apply IH.
      intros Hin; apply Hout; now right.
  - destruct H as [H|H]; [discriminate H|]. now apply IH.
Qed.

Lemma failed_triggers_keep es st :
  ~ In true es -> after float (map Hub.PostSendAudio es) st = st.
Proof.
  revert st; induction es as [|e es IH]; intros st H; [reflexivity|].
  destruct e; [exfalso; apply H; now left|].
  simpl map. rewrite after_cons. simpl. apply IH.
  intros Hin; apply H; now right.
Qed.


Lemma first_poll f st :
  Hub.pending_audio_ready st = true ->
  Hub.audio f st =
  (Hub.set_pending false st,
   match f with
   | Some data => Hub.mkResp 200 (Hub.BFile "audio/mpeg" data)
   | None => Hub.json_error 500 "failed_to_read_audio"
   end).
Proof. intros Hp. unfold Hub.audio. rewrite Hp. simpl. now destruct f. Qed.

End AudioHandoff.




(** ** Hub: frame relay *)

Lemma receive_frame_cases payload st :
  Hub.receive_frame payload st =
  if object_like payload then
    if Hub.truthy (frame_field payload) then
      match Hub.b64decode (frame_field payload) with
      | inr data => (Hub.set_frame data st, Hub.json_ok)
      | inl e => (st, Hub.json_error 500 (Hub.error_text e))
      end
    else (st, Hub.json_error 400 "no frame provided")
  else (st, Hub.mkResp 500 Hub.BEmpty).
Proof.
  unfold Hub.receive_frame, object_like, frame_field.
  destruct payload as [|b|n|s|l|fields]; simpl; try reflexivity.
  - now destruct b.
  - now destruct (Z.eqb n 0).
  - now destruct s.
  - now destruct l.
  - destruct fields as [|kv fields]; simpl; [reflexivity|].
    destruct (Hub.truthy _); [|reflexivity].
    now destruct (Hub.b64decode _).
Qed.

(** *** The camera's encoding is decoded back *)

Section Base64.
Local Open Scope N_scope.

(** A property checked on every number below [k] holds below [k]. *)
Lemma below_forallb (p : N -> bool) (k : nat) :
  forallb p (map N.of_nat (seq 0 k)) = true ->
  forall v, v < N.of_nat k -> p v = true.
Proof.
  intros H v Hv. rewrite forallb_forall in H. apply H.
  apply in_map_iff. exists (N.to_nat v). split; [apply N2Nat.id|].
  apply in_seq. lia.
Qed.

Lemma below_forallb2 (p : N -> N -> bool) (k : nat) :
  forallb (fun a => forallb (p a) (map N.of_nat (seq 0 k))) (map N.of_nat (seq 0 k)) = true ->
  forall a b, a < N.of_nat k -> b < N.of_nat k -> p a b = true.
Proof.
  intros H a b Ha Hb.
  apply (below_forallb (p a) k); [|exact Hb].
  apply (below_forallb (fun a => forallb (p a) (map N.of_nat (seq 0 k))) k H a Ha).
Qed.

(** Every six-bit value has a character that is not the pad and that
    reads back as the value. *)
Lemma b64_char_value v :
  v < 64 ->
  Ascii.eqb (Hub.b64_char v) "="%char = false
  /\ Hub.b64_value (Hub.b64_char v) = Some v
  /\ N.ltb (N_of_ascii (Hub.b64_char v)) 128 = true.
Proof.
  intros Hv.
  set (p := fun v : N =>
              negb (Ascii.eqb (Hub.b64_char v) "="%char)
              && match Hub.b64_value (Hub.b64_char v) with
                 | Some w => N.eqb w v
                 | None => false
                 end
              && N.ltb (N_of_ascii (Hub.b64_char v)) 128).
  assert (H : p v = true).
  { apply (below_forallb p 64); [vm_compute; reflexivity | exact Hv]. }
  unfold p in H. apply andb_prop in H as [H H3]. apply andb_prop in H as [H1 H2].
  apply negb_true_iff in H1.
  destruct (Hub.b64_value (Hub.b64_char v)) as [w|]; [|discriminate H2].
  apply N.eqb_eq in H2. subst w. auto.
Qed.

(** The bit arithmetic of one pair of neighbouring bytes. *)
Lemma sextets_of_pair a b :
  a < 256 -> b < 256 ->
  let hi := N.lor (N.shiftl (N.land a 3) 4) (N.shiftr b 4) in
  let lo := N.lor (N.shiftl (N.land a 15) 2) (N.shiftr b 6) in
  (N.shiftr a 2 < 64 /\ N.land a 63 < 64 /\ hi < 64 /\ lo < 64)
  /\ N.lor (N.shiftl (N.shiftr a 2) 2) (N.shiftr hi 4) = a
  /\ N.land hi 15 = N.shiftr b 4
  /\ N.lor (N.shiftl (N.shiftr a 4) 4) (N.shiftr lo 2) = a
  /\ N.lor (N.shiftl (N.land lo 3) 6) (N.land b 63) = b
  /\ (N.shiftl (N.land a 3) 4 < 64
      /\ N.lor (N.shiftl (N.shiftr a 2) 2) (N.shiftr (N.shiftl (N.land a 3) 4) 4) = a)
  /\ (N.shiftl (N.land a 15) 2 < 64
      /\ N.lor (N.shiftl (N.shiftr a 4) 4) (N.shiftr (N.shiftl (N.land a 15) 2) 2) = a).
Proof.
  intros Ha Hb.
  set (p := fun a b : N =>
     let hi := N.lor (N.shiftl (N.land a 3) 4) (N.shiftr b 4) in
     let lo := N.lor (N.shiftl (N.land a 15) 2) (N.shiftr b 6) in
     (N.shiftr a 2 <? 64) && (N.land a 63 <? 64) && (hi <? 64) && (lo <? 64)
     && (N.lor (N.shiftl (N.shiftr a 2) 2) (N.shiftr hi 4) =? a)
     && (N.land hi 15 =? N.shiftr b 4)
     && (N.lor (N.shiftl (N.shiftr a 4) 4) (N.shiftr lo 2) =? a)
     && (N.lor (N.shiftl (N.land lo 3) 6) (N.land b 63) =? b)
     && (N.shiftl (N.land a 3) 4 <? 64)
     && (N.lor (N.shiftl (N.shiftr a 2) 2) (N.shiftr (N.shiftl (N.land a 3) 4) 4) =? a)
     && (N.shiftl (N.land a 15) 2 <? 64)
     && (N.lor (N.shiftl (N.shiftr a 4) 4) (N.shiftr (N.shiftl (N.land a 15) 2) 2) =? a)).
  assert (H : p a b = true).
  { apply (below_forallb2 p 256); [vm_compute; reflexivity | exact Ha | exact Hb]. }
  unfold p in H. cbv beta zeta in H.
  repeat (apply andb_prop in H as [H ?]).
  repeat match goal with
         | X : (_ <? _) = true |- _ => apply N.ltb_lt in X
         | X : (_ =? _) = true |- _ => apply N.eqb_eq in X
         end.
  cbv zeta. repeat split; assumption.
Qed.

Lemma byte_below b : Byte.to_N b < 256.
Proof. pose proof (Byte.to_N_bounded b). lia. Qed.

Lemma byte_of_to_N b : Hub.byte_of_N (Byte.to_N b) = b.
Proof.
  unfold Hub.byte_of_N. rewrite N.mod_small by apply byte_below.
  now rewrite Byte.of_to_N.
Qed.

(** Reading one character of the alphabet. *)
Lemma a2b_char v r q l p out :
  v < 64 ->
  Hub.a2b_base64 (String (Hub.b64_char v) r) q l p out =
  if N.eqb q 0 then Hub.a2b_base64 r 1 v 0 out
  else if N.eqb q 1 then
    Hub.a2b_base64 r 2 (N.land v 15) 0
      (Hub.byte_of_N (N.lor (N.shiftl l 2) (N.shiftr v 4)) :: out)
  else if N.eqb q 2 then
    Hub.a2b_base64 r 3 (N.land v 3) 0
      (Hub.byte_of_N (N.lor (N.shiftl l 4) (N.shiftr v 2)) :: out)
  else
    Hub.a2b_base64 r 0 0 0 (Hub.byte_of_N (N.lor (N.shiftl l 6) v) :: out).
Proof.
  intros Hv. destruct (b64_char_value v Hv) as [E [V _]].
  simpl. now rewrite E, V.
Qed.

Lemma list_ind3 {A} (P : list A -> Prop) :
  P [] -> (forall a, P [a]) -> (forall a b, P [a; b]) ->
  (forall a b c l, P l -> P (a :: b :: c :: l)) ->
  forall l, P l.
Proof.
  intros H0 H1 H2 H3.
  fix IH 1. intros [|a [|b [|c l]]];
    [exact H0 | apply H1 | apply H2 | apply H3, IH].
Qed.

(** Decoding what [b64encode] produced gives the bytes back. *)
Lemma a2b_b64encode data out :
  Hub.a2b_base64 (Hub.b64encode data) 0 0 0 out = inr (rev out ++ data).
Proof.
  revert out. induction data as [|b1|b1 b2|b1 b2 b3 rest IH] using list_ind3; intros out.
  - simpl. now rewrite app_nil_r.
  - pose proof (sextets_of_pair (Byte.to_N b1) 0 (byte_below b1) eq_refl)
      as [[S1 _] [_ [_ [_ [_ [[T1 T2] _]]]]]].
    cbn [Hub.b64encode]. rewrite (a2b_char _ _ _ _ _ _ S1); simpl N.eqb; cbv iota.
    rewrite (a2b_char _ _ _ _ _ _ T1); simpl N.eqb; cbv iota.
    rewrite T2, byte_of_to_N. reflexivity.
  - pose proof (sextets_of_pair (Byte.to_N b1) (Byte.to_N b2) (byte_below b1) (byte_below b2))
      as [[S1 [_ [S2 _]]] [B1 [A _]]].
    pose proof (sextets_of_pair (Byte.to_N b2) 0 (byte_below b2) eq_refl)
      as [_ [_ [_ [_ [_ [_ [T1 T2]]]]]]].
    cbv zeta in *. cbn [Hub.b64encode]. cbv zeta.
    rewrite (a2b_char _ _ _ _ _ _ S1); simpl N.eqb; cbv iota.
    rewrite (a2b_char _ _ _ _ _ _ S2); simpl N.eqb; cbv iota.
    rewrite (a2b_char _ _ _ _ _ _ T1); simpl N.eqb; cbv iota.
    rewrite B1, A, T2, !byte_of_to_N. simpl.
    now rewrite <- ?app_assoc.
  - pose proof (sextets_of_pair (Byte.to_N b1) (Byte.to_N b2) (byte_below b1) (byte_below b2))
      as [[S1 [_ [S2 _]]] [B1 [A _]]].
    pose proof (sextets_of_pair (Byte.to_N b2) (Byte.to_N b3) (byte_below b2) (byte_below b3))
      as [[_ [_ [_ S3]]] [_ [_ [B2 [B3 _]]]]].
    pose proof (sextets_of_pair (Byte.to_N b3) 0 (byte_below b3) eq_refl)
      as [[_ [S4 _]] _].
    cbv zeta in *. cbn [Hub.b64encode]. cbv zeta.
    rewrite (a2b_char _ _ _ _ _ _ S1); simpl N.eqb; cbv iota.
    rewrite (a2b_char _ _ _ _ _ _ S2); simpl N.eqb; cbv iota.
    rewrite (a2b_char _ _ _ _ _ _ S3); simpl N.eqb; cbv iota.
    rewrite (a2b_char _ _ _ _ _ _ S4); simpl N.eqb; cbv iota.
    rewrite B1, A, B2, B3, !byte_of_to_N, IH. simpl.
    now rewrite <- ?app_assoc.
Qed.

Lemma b64encode_ascii data :
  PyStr.all_chars (fun c => N.ltb (N_of_ascii c) 128) (Hub.b64encode data) = true.
Proof.
  induction data as [|b1|b1 b2|b1 b2 b3 rest IH] using list_ind3; [reflexivity| | |].
  - pose proof (sextets_of_pair (Byte.to_N b1) 0 (byte_below b1) eq_refl)
      as [[S1 _] [_ [_ [_ [_ [[T1 _] _]]]]]].
    cbn [Hub.b64encode PyStr.all_chars]. cbv zeta.
    destruct (b64_char_value _ S1) as [_ [_ ->]].
    destruct (b64_char_value _ T1) as [_ [_ ->]]. reflexivity.
  - pose proof (sextets_of_pair (Byte.to_N b1) (Byte.to_N b2) (byte_below b1) (byte_below b2))
      as [[S1 [_ [S2 _]]] _].
    pose proof (sextets_of_pair (Byte.to_N b2) 0 (byte_below b2) eq_refl)
      as [_ [_ [_ [_ [_ [_ [T1 _]]]]]]].
    cbv zeta in *. cbn [Hub.b64encode PyStr.all_chars]. cbv zeta.
    destruct (b64_char_value _ S1) as [_ [_ ->]].
    destruct (b64_char_value _ S2) as [_ [_ ->]].
    destruct (b64_char_value _ T1) as [_ [_ ->]]. reflexivity.
  - pose proof (sextets_of_pair (Byte.to_N b1) (Byte.to_N b2) (byte_below b1) (byte_below b2))
      as [[S1 [_ [S2 _]]] _].
    pose proof (sextets_of_pair (Byte.to_N b2) (Byte.to_N b3) (byte_below b2) (byte_below b3))
      as [[_ [_ [_ S3]]] _].
    pose proof (sextets_of_pair (Byte.to_N b3) 0 (byte_below b3) eq_refl)
      as [[_ [S4 _]] _].
    cbv zeta in *. cbn [Hub.b64encode PyStr.all_chars]. cbv zeta.
    destruct (b64_char_value _ S1) as [_ [_ ->]].
    destruct (b64_char_value _ S2) as [_ [_ ->]].
    destruct (b64_char_value _ S3) as [_ [_ ->]].
    destruct (b64_char_value _ S4) as [_ [_ ->]]. now rewrite IH.
Qed.

Lemma b64encode_nonempty data :
  data <> [] -> PyStr.is_empty (Hub.b64encode data) = false.
Proof. destruct data as [|b1 [|b2 [|b3 rest]]]; [congruence| | |]; reflexivity. Qed.

(** A frame posted by the camera loop is stored as captured. *)
Lemma camera_frame_stored data st :
  data <> [] ->
  Hub.receive_frame (Agent.frame_payload data) st = (Hub.set_frame data st, Hub.json_ok).
Proof.
  intros H. rewrite receive_frame_cases.
  change (object_like (Agent.frame_payload data)) with true.
  change (frame_field (Agent.frame_payload data)) with (Hub.JStr (Hub.b64encode data)).
  cbn [Hub.truthy]. rewrite (b64encode_nonempty data H). cbn [negb].
  unfold Hub.b64decode. now rewrite b64encode_ascii, a2b_b64encode.
Qed.

End Base64.



Example frame_push_bad_padding :
  Hub.receive_frame (Hub.JObj [("frame", Hub.JStr "aGVsbG8")])
                    (Hub.set_frame sample_frame Hub.initial)
  = (Hub.set_frame sample_frame Hub.initial, Hub.json_error 500 "Incorrect padding").
Proof. reflexivity. Qed.

Example frame_push_jpeg :
  Hub.latest_frame_bytes
    (fst (Hub.receive_frame (Hub.JObj [("frame", Hub.JStr "/9j/2Q==")]) Hub.initial))
  = Some sample_frame.
Proof. reflexivity. Qed.

Example frame_push_empty :
  Hub.receive_frame (Agent.frame_payload []) (Hub.set_frame sample_frame Hub.initial)
  = (Hub.set_frame sample_frame Hub.initial, Hub.json_error 400 "no frame provided").
Proof. reflexivity. Qed.

(** ** String lemmas *)

Section Strings.
Import PyStr.

Lemma is_empty_true s : is_empty s = true <-> s = EmptyString.
Proof. destruct s; simpl; split; intros H; congruence. Qed.

Lemma is_empty_false s : is_empty s = false <-> s <> EmptyString.
Proof. destruct s; simpl; split; intros H; congruence. Qed.

Lemma append_cons c a b : String c a +:+ b = String c (a +:+ b).
Proof. reflexivity. Qed.

Lemma append_nil_l b : EmptyString +:+ b = b.
Proof. reflexivity. Qed.

Lemma append_nil_r s : s +:+ EmptyString = s.
Proof.
  induction s as [|c s IH]; [reflexivity|].
  now rewrite append_cons, IH.
Qed.

Lemma append_assoc a b c : (a +:+ b) +:+ c = a +:+ (b +:+ c).
Proof.
  induction a as [|x a IH]; [reflexivity|].
  now rewrite !append_cons, IH.
Qed.

Lemma lstrip_head s :
  lstrip s = EmptyString \/
  exists c r, lstrip s = String c r /\ is_space c = false.
Proof.
  induction s as [|c s IH]; simpl; [now left|].
  destruct (is_space c) eqn:E; [exact IH|].
  right. now exists c, s.
Qed.

Lemma lstrip_split s : exists ws, s = ws +:+ lstrip s /\ blank ws.
Proof.
  induction s as [|c s [ws [E B]]]; simpl.
  - now exists EmptyString.
  - destruct (is_space c) eqn:Ec.
    + exists (String c ws). split; [rewrite append_cons; now rewrite <- E|].
      unfold blank in *; simpl. now rewrite Ec, B.
    + now exists EmptyString.
Qed.

Lemma lstrip_nospace_head c r : is_space c = false -> lstrip (String c r) = String c r.
Proof. intros E; simpl; now rewrite E. Qed.

Lemma rstrip_nospace_head c r :
  is_space c = false -> rstrip (String c r) = String c (rstrip r).
Proof. intros E; simpl. rewrite E. now rewrite andb_false_r. Qed.

Lemma rstrip_blank b : blank b -> rstrip b = EmptyString.
Proof.
  unfold blank. induction b as [|c b IH]; simpl; [reflexivity|].
  intros H. apply andb_prop in H as [Hc Hb]. now rewrite (IH Hb), Hc.
Qed.

Lemma rstrip_app_blank a b : blank b -> rstrip (a +:+ b) = rstrip a.
Proof.
  intros B. induction a as [|c a IH]; [now apply rstrip_blank|].
  rewrite append_cons. simpl. now rewrite IH.
Qed.

Lemma rstrip_idem s : rstrip (rstrip s) = rstrip s.
Proof.
  induction s as [|c s IH]; simpl; [reflexivity|].
  destruct (is_empty (rstrip s) && is_space c) eqn:E; simpl; [reflexivity|].
  now rewrite IH, E.
Qed.

Lemma rstrip_no_space t : no_space t -> rstrip t = t.
Proof.
  unfold no_space. induction t as [|c t IH]; simpl; [reflexivity|].
  intros H. apply andb_prop in H as [Hc Ht]. rewrite (IH Ht).
  apply negb_true_iff in Hc. now rewrite Hc, andb_false_r.
Qed.

Lemma strip_head s :
  is_empty (strip s) = false ->
  exists c r, strip s = String c r /\ is_space c = false.
Proof.
  unfold strip. intros H.
  destruct (lstrip_head s) as [E|[c [r [E Hc]]]].
  - rewrite E in H. discriminate H.
  - rewrite E, (rstrip_nospace_head c r Hc). now exists c, (rstrip r).
Qed.

Lemma strip_rstrip s : rstrip (strip s) = strip s.
Proof. unfold strip. apply rstrip_idem. Qed.

Lemma span_token_spec s :
  s = fst (span_token s) +:+ snd (span_token s)
  /\ no_space (fst (span_token s))
  /\ (snd (span_token s) = EmptyString \/
      exists c r, snd (span_token s) = String c r /\ is_space c = true).
Proof.
  unfold no_space. induction s as [|c s [E [N R]]]; simpl.
  - repeat split; now left.
  - destruct (is_space c) eqn:Ec; simpl.
    + repeat split. right. now exists c, s.
    + destruct (span_token s) as [t rest]; simpl in *.
      rewrite Ec. simpl. rewrite append_cons.
      repeat split; [now rewrite <- E | exact N | exact R].
Qed.

Lemma append_cancel_nil a b : a +:+ b = a -> b = EmptyString.
Proof.
  induction a as [|c a IH]; [auto|].
  rewrite append_cons. intros H. injection H as H. auto.
Qed.

Lemma body_parts_of_stripped s :
  is_empty (strip s) = false ->
  exists duration_str text,
    body_parts (strip s) duration_str text
    /\ Hub.duration_and_text (strip s) = Some (duration_str, text).
Proof.
  intros H. destruct (strip_head s H) as [c [r [E Hc]]].
  pose proof (strip_rstrip s) as Hr. rewrite E in *. clear H E.
  unfold Hub.duration_and_text, split_max1.
  rewrite (lstrip_nospace_head c r Hc). simpl is_empty. cbv iota.
  pose proof (span_token_spec (String c r)) as [E [N R]].
  destruct (span_token (String c r)) as [tok rest] eqn:Es. simpl in E, N, R.
  assert (Htok : tok <> EmptyString).
  { simpl in Es. rewrite Hc in Es. destruct (span_token r); inversion Es. discriminate. }
  destruct (lstrip_split rest) as [ws [Ews Bws]].
  destruct (lstrip_head rest) as [El|[c' [r' [El Hc']]]].
  - rewrite El. simpl.
    assert (Hrest : rest = EmptyString).
    { rewrite El, append_nil_r in Ews. subst ws.
      rewrite E in Hr. rewrite (rstrip_app_blank tok rest Bws) in Hr.
      rewrite (rstrip_no_space tok N) in Hr. symmetry in Hr.
      now apply append_cancel_nil in Hr. }
    subst rest. rewrite append_nil_r in E. subst tok.
    exists "0", (String c r). split; [|reflexivity].
    now apply parts_text_only.
  - rewrite El. simpl.
    exists tok, (String c' r'). split; [|now destruct tok].
    rewrite E, Ews, El.
    apply parts_prefixed; auto.
    destruct R as [R|[x [y [R Hx]]]]; [rewrite R in El; discriminate El|].
    intros ->. rewrite append_nil_l in Ews. rewrite El, R in Ews.
    injection Ews as -> _. congruence.
Qed.

End Strings.

(** ** Hub: transcript board *)

Section TranscriptBoard.
Import PyStr.
Variable float : string -> option Hub.pyfloat.

Lemma expiry_of_duration now duration_str :
  expiry_for now (float duration_str)
    (Hub.fadd (Hub.Fin now)
       (Hub.fadd (Hub.pymax (Hub.Fin 0) (Hub.parse_duration float duration_str))
                 (Hub.Fin 5))).
Proof.
  unfold Hub.parse_duration, expiry_for.
  destruct (float duration_str) as [[d| | |]|]; simpl.
  - unfold Hub.pymax; simpl.
    destruct (Qle_bool d 0) eqn:E; simpl; eexists; (split; [reflexivity|]).
    + apply Qle_bool_iff in E. rewrite (Q.max_l 0 d E). ring.
    + assert (H : (0 <= d)%Q).
      { destruct (Qlt_le_dec d 0) as [L|L]; [|exact L].
        apply Qlt_le_weak, Qle_bool_iff in L. congruence. }
      rewrite (Q.max_r 0 d H). ring.
  - reflexivity.
  - eexists; split; [reflexivity|ring].
  - eexists; split; [reflexivity|ring].
  - eexists; split; [reflexivity|ring].
Qed.

Lemma publish_blank now raw st :
  is_empty (strip raw) = true ->
  Hub.receive_transcript float now raw st = (st, Hub.json_error 400 "empty body").
Proof. intros H. unfold Hub.receive_transcript. now rewrite H. Qed.

Lemma publish_replaces now raw st :
  is_empty (strip raw) = false ->
  exists duration_str text e,
    body_parts (strip raw) duration_str text
    /\ Hub.receive_transcript float now raw st = (Hub.set_transcript text e st, Hub.json_ok)
    /\ expiry_for now (float duration_str) e.
Proof.
  intros H. destruct (body_parts_of_stripped raw H) as [d [t [B E]]].
  exists d, t. eexists. split; [exact B|].
  unfold Hub.receive_transcript. rewrite H, E. split; [reflexivity|].
  apply expiry_of_duration.
Qed.

Lemma read_visible now st :
  before now (Hub.transcript_expire_time st) ->
  Hub.latest_transcript now st =
  Hub.mkResp 200 (Hub.BJson [("transcript", Hub.current_transcript st)]).
Proof.
  unfold before, Hub.latest_transcript. intros H.
  destruct (Hub.current_transcript st) eqn:T; simpl.
  - reflexivity.
  - destruct (Hub.transcript_expire_time st) as [x| | |]; simpl; try easy.
    destruct (Qle_bool x now) eqn:E; [|reflexivity].
    apply Qle_bool_iff in E. exfalso. apply (Qlt_not_le _ _ H E).
Qed.

Lemma read_expired now st :
  reached now (Hub.transcript_expire_time st) ->
  Hub.latest_transcript now st = Hub.mkResp 200 (Hub.BJson [("transcript", "")]).
Proof.
  unfold reached, Hub.latest_transcript. intros H.
  destruct (Hub.transcript_expire_time st) as [x| | |]; simpl; try easy.
  - apply Qle_bool_iff in H. rewrite H. now rewrite orb_true_r.
  - now rewrite orb_true_r.
Qed.

Lemma read_status now st : Hub.status (Hub.latest_transcript now st) = 200%Z.
Proof. unfold Hub.latest_transcript. now destruct (_ || _). Qed.

End TranscriptBoard.

(** C3, as the code has it: a publish whose body is not blank replaces the
    stored text and expiry whatever they were, with
    expiry = now + max(0, duration) + 5, the duration being the value of
    the first word when another word follows it and 0 when the prefix is
    missing or does not parse; a publish whose body is blank is refused
    with the 400 reply and changes nothing.  A read answers 200 always,
    with the stored text while now < expiry and the empty string once
    now >= expiry. *)
Theorem transcript_ttl_contract (float : string -> option Hub.pyfloat)
  (now : Q) (raw : string) (st : Hub.state) :
  float "0" = Some (Hub.Fin 0) ->
  (PyStr.is_empty (PyStr.strip raw) = true ->
     Hub.receive_transcript float now raw st = (st, Hub.json_error 400 "empty body"))
  /\ (PyStr.is_empty (PyStr.strip raw) = false ->
      exists duration_str text e,
        body_parts (PyStr.strip raw) duration_str text
        /\ Hub.receive_transcript float now raw st
           = (Hub.set_transcript text e st, Hub.json_ok)
        /\ expiry_for now (float duration_str) e
        /\ (duration_str = "0" -> exists x, e = Hub.Fin x /\ (x == now + 5)%Q))
  /\ (forall t,
        Hub.status (Hub.latest_transcript t st) = 200%Z
        /\ (before t (Hub.transcript_expire_time st) ->
            Hub.latest_transcript t st
            = Hub.mkResp 200 (Hub.BJson [("transcript", Hub.current_transcript st)]))
        /\ (reached t (Hub.transcript_expire_time st) ->
            Hub.latest_transcript t st = Hub.mkResp 200 (Hub.BJson [("transcript", "")]))).
Proof.
  intros F0. split; [apply publish_blank|]. split.
  - intros H. destruct (publish_replaces float now raw st H) as [d [t [e [B [E X]]]]].
    exists d, t, e. repeat split; try assumption.
    intros ->. rewrite F0 in X. simpl in X.
    destruct X as [x [-> Hx]]. exists x. split; [reflexivity|].
    rewrite Hx. rewrite (Q.max_l 0 0 (Qle_refl 0)). ring.
  - intros t. split; [apply read_status|]. split; [apply read_visible | apply read_expired].
Qed.

Lemma decimal_float_zero : decimal_float "0" = Some (Hub.Fin 0).
Proof. reflexivity. Qed.

(** C3 on a run: the body 3 hello published at time 100. *)
Lemma transcript_ttl_contract_witness :
  decimal_float "0" = Some (Hub.Fin 0)
  /\ Hub.receive_transcript decimal_float 100 "3 hello" Hub.initial
     = (Hub.set_transcript "hello" (Hub.Fin (100 + (3 + 5))) Hub.initial, Hub.json_ok)
  /\ exists duration_str text e,
       body_parts (PyStr.strip "3 hello") duration_str text
       /\ Hub.receive_transcript decimal_float 100 "3 hello" Hub.initial
          = (Hub.set_transcript text e Hub.initial, Hub.json_ok)
       /\ expiry_for 100 (decimal_float duration_str) e
       /\ (duration_str = "0" -> exists x, e = Hub.Fin x /\ (x == 100 + 5)%Q).
Proof.
  split; [reflexivity|]. split; [reflexivity|].
  apply (transcript_ttl_contract decimal_float 100 "3 hello" Hub.initial decimal_float_zero).
  reflexivity.
Defined.

(** C3 as stated fails: a publish call whose body is blank is refused, so
    it neither replaces the stored text nor sets a new expiry. *)
Lemma transcript_blank_publish_refused :
  let st := Hub.set_transcript "first" (Hub.Fin 15) Hub.initial in
  Hub.receive_transcript decimal_float 20 "   " st = (st, Hub.json_error 400 "empty body")
  /\ Hub.transcript_expire_time (fst (Hub.receive_transcript decimal_float 20 "   " st))
     = Hub.Fin 15.
Proof. split; reflexivity. Qed.

(** The two transcript scenarios of the specification. *)
Example ttl_scenario :
  let st := fst (Hub.receive_transcript decimal_float 0 "3 hello" Hub.initial) in
  Hub.latest_transcript 0 st = Hub.mkResp 200 (Hub.BJson [("transcript", "hello")])
  /\ Hub.latest_transcript 8 st = Hub.mkResp 200 (Hub.BJson [("transcript", "")]).
Proof. split; reflexivity. Qed.

Example override_scenario :
  let st1 := fst (Hub.receive_transcript decimal_float 0 "10 first" Hub.initial) in
  let st2 := fst (Hub.receive_transcript decimal_float 1 "0 second" st1) in
  Hub.latest_transcript 1 st2 = Hub.mkResp 200 (Hub.BJson [("transcript", "second")]).
Proof. reflexivity. Qed.

Example malformed_prefix :
  Hub.receive_transcript decimal_float 0 "hello world" Hub.initial
  = (Hub.set_transcript "world" (Hub.Fin (0 + (0 + 5))) Hub.initial, Hub.json_ok).
Proof. reflexivity. Qed.

(** ** Lyrics: the LRC parser *)

Section LrcParser.
Import PyStr.

Lemma all_chars_app p a b :
  all_chars p (a +:+ b) = all_chars p a && all_chars p b.
Proof.
  induction a as [|c a IH]; [reflexivity|].
  rewrite append_cons. simpl. now rewrite IH, andb_assoc.
Qed.

(** The character classes of the parser are the listed ones. *)
Lemma all_chars_Forall p s :
  all_chars p s = true <-> Forall (fun c => p c = true) (chars s).
Proof.
  induction s as [|c s IH]; simpl.
  - split; [constructor|reflexivity].
  - rewrite andb_true_iff, IH. split.
    + intros [Hc Hs]. now constructor.
    + intros H. inversion H; subst. now split.
Qed.

Lemma is_digit_listed c : is_digit c = true <-> In c digit_chars.
Proof.
  assert (E : is_digit c = existsb (Ascii.eqb c) digit_chars)
    by (destruct c as [[] [] [] [] [] [] [] []]; reflexivity).
  rewrite E, existsb_exists. split.
  - intros [x [I H]]. apply Ascii.eqb_eq in H. now subst.
  - intros I. exists c. split; [exact I | apply Ascii.eqb_refl].
Qed.

Lemma is_space_listed c : is_space c = true <-> In c space_chars.
Proof.
  assert (E : is_space c = existsb (Ascii.eqb c) space_chars)
    by (destruct c as [[] [] [] [] [] [] [] []]; reflexivity).
  rewrite E, existsb_exists. split.
  - intros [x [I H]]. apply Ascii.eqb_eq in H. now subst.
  - intros I. exists c. split; [exact I | apply Ascii.eqb_refl].
Qed.

Lemma is_space_unlisted c : is_space c = false <-> ~ In c space_chars.
Proof.
  rewrite <- is_space_listed. destruct (is_space c); split; congruence.
Qed.

Lemma digits_bool s :
  digits s <-> s <> EmptyString /\ all_chars is_digit s = true.
Proof.
  unfold digits. rewrite all_chars_Forall. split; intros [N F]; (split; [exact N|]);
    (eapply Forall_impl; [exact F|]); intros c; apply is_digit_listed.
Qed.

Lemma whitespace_blank s : whitespace s <-> blank s.
Proof.
  unfold whitespace, blank. rewrite all_chars_Forall. split; intros F;
    (eapply Forall_impl; [exact F|]); intros c; apply is_space_listed.
Qed.

Lemma no_lf_chars s : ~ In "010"%char (chars s) <-> all_chars not_lf s = true.
Proof.
  induction s as [|c s IH]; simpl.
  - split; [reflexivity|tauto].
  - rewrite andb_true_iff, <- IH. unfold not_lf. rewrite negb_true_iff.
    destruct (Ascii.eqb_spec c "010"%char) as [->|N]; split.
    + intros H. exfalso. apply H. now left.
    + intros [H _]. discriminate H.
    + intros H. split; [reflexivity|]. intros I. apply H. now right.
    + intros [_ H] [E|I]; [congruence|contradiction].
Qed.

Lemma no_lf_lines lines :
  Forall (fun line => ~ In "010"%char (chars line)) lines
  <-> Forall (fun line => all_chars not_lf line = true) lines.
Proof.
  split; intros F; (eapply Forall_impl; [exact F|]); intros line; apply no_lf_chars.
Qed.

Lemma span_digits_spec s :
  s = fst (Lyrics.span_digits s) +:+ snd (Lyrics.span_digits s)
  /\ all_chars is_digit (fst (Lyrics.span_digits s)) = true.
Proof.
  induction s as [|c s [E D]]; simpl; [now split|].
  destruct (is_digit c) eqn:Ec; simpl; [|now split].
  destruct (Lyrics.span_digits s) as [d rest]; simpl in *.
  rewrite append_cons, Ec. split; [now rewrite <- E | exact D].
Qed.

Lemma span_digits_app d c rest :
  all_chars is_digit d = true -> is_digit c = false ->
  Lyrics.span_digits (d +:+ String c rest) = (d, String c rest).
Proof.
  intros D C. induction d as [|x d IH].
  - rewrite append_nil_l. simpl. now rewrite C.
  - rewrite append_cons. simpl in *. apply andb_prop in D as [Dx Dd].
    now rewrite Dx, (IH Dd).
Qed.

Lemma span_line_id text : all_chars not_lf text = true -> Lyrics.span_line text = text.
Proof.
  unfold not_lf. induction text as [|c t IH]; simpl; [reflexivity|].
  intros H. apply andb_prop in H as [Hc Ht]. apply negb_true_iff in Hc.
  now rewrite Hc, (IH Ht).
Qed.

Lemma expect_some c s r : Lyrics.expect c s = Some r -> s = String c r.
Proof.
  destruct s as [|d s]; simpl; [discriminate|].
  destruct (Ascii.eqb_spec d c) as [->|]; [|discriminate].
  now intros [= ->].
Qed.

Lemma match_line_complete mm ss cc text :
  digits mm -> digits ss -> digits cc ->
  all_chars not_lf text = true ->
  Lyrics.match_line ("[" +:+ mm +:+ ":" +:+ ss +:+ "." +:+ cc +:+ "]" +:+ text)
  = Some (mm, (ss, cc), text).
Proof.
  intros [Nm Dm]%digits_bool [Ns Ds]%digits_bool [Nc Dc]%digits_bool T.
  unfold Lyrics.match_line.
  change ("[" +:+ mm +:+ ":" +:+ ss +:+ "." +:+ cc +:+ "]" +:+ text)
    with (String "["%char (mm +:+ String ":"%char (ss +:+ String "."%char (cc +:+ String "]"%char text)))).
  simpl Lyrics.expect. simpl mbind.
  rewrite (span_digits_app mm ":"%char _ Dm eq_refl).
  apply is_empty_false in Nm. rewrite Nm. simpl Lyrics.expect. simpl mbind.
  rewrite (span_digits_app ss "."%char _ Ds eq_refl).
  apply is_empty_false in Ns. rewrite Ns. simpl Lyrics.expect. simpl mbind.
  rewrite (span_digits_app cc "]"%char _ Dc eq_refl).
  apply is_empty_false in Nc. rewrite Nc. simpl Lyrics.expect. simpl mbind.
  now rewrite (span_line_id text T).
Qed.

Lemma match_line_sound line g1 ip fp g3 :
  Lyrics.match_line line = Some (g1, (ip, fp), g3) ->
  exists rest,
    line = "[" +:+ g1 +:+ ":" +:+ ip +:+ "." +:+ fp +:+ "]" +:+ rest
    /\ g3 = Lyrics.span_line rest
    /\ digits g1 /\ digits ip /\ digits fp.
Proof.
  unfold Lyrics.match_line. intros H.
  destruct (Lyrics.expect "["%char line) as [r0|] eqn:E0; [|discriminate H].
  apply expect_some in E0. simpl in H.
  pose proof (span_digits_spec r0) as [A1 D1].
  destruct (Lyrics.span_digits r0) as [d1 r1]; simpl in A1, D1.
  destruct (is_empty d1) eqn:N1; [discriminate H|].
  destruct (Lyrics.expect ":"%char r1) as [r2|] eqn:E1; [|discriminate H].
  apply expect_some in E1. simpl in H.
  pose proof (span_digits_spec r2) as [A2 D2].
  destruct (Lyrics.span_digits r2) as [d2 r3]; simpl in A2, D2.
  destruct (is_empty d2) eqn:N2; [discriminate H|].
  destruct (Lyrics.expect "."%char r3) as [r4|] eqn:E2; [|discriminate H].
  apply expect_some in E2. simpl in H.
  pose proof (span_digits_spec r4) as [A3 D3].
  destruct (Lyrics.span_digits r4) as [d3 r5]; simpl in A3, D3.
  destruct (is_empty d3) eqn:N3; [discriminate H|].
  destruct (Lyrics.expect "]"%char r5) as [r6|] eqn:E3; [|discriminate H].
  apply expect_some in E3. simpl in H.
  injection H as <- <- <- <-.
  exists r6. subst.
  apply is_empty_false in N1, N2, N3.
  rewrite !digits_bool. repeat split; auto.
Qed.

Lemma split_on_lines s :
  Forall (fun line => all_chars not_lf line = true) (split_on "010"%char s).
Proof.
  induction s as [|c s IH]; simpl; [now repeat constructor|].
  destruct (Ascii.eqb c "010"%char) eqn:E; [now constructor|].
  destruct (split_on "010"%char s) as [|h t]; [repeat constructor; simpl|].
  - unfold not_lf. now rewrite E.
  - inversion IH as [|? ? Hh Ht]; subst. constructor; [|exact Ht].
    simpl. unfold not_lf at 1. now rewrite E.
Qed.

Lemma split_on_nonempty sep s : split_on sep s <> [].
Proof.
  destruct s as [|c s]; simpl; [discriminate|].
  destruct (Ascii.eqb c sep); [discriminate|].
  destruct (split_on sep s); discriminate.
Qed.

(** Splitting at a separator: the parts before it, then the parts after
    it. *)
Lemma split_on_app sep a b :
  split_on sep (a +:+ String sep b) = split_on sep a ++ split_on sep b.
Proof.
  induction a as [|c a IH].
  - rewrite append_nil_l. simpl. now rewrite Ascii.eqb_refl.
  - rewrite append_cons. simpl. destruct (Ascii.eqb c sep); [now rewrite IH|].
    rewrite IH. pose proof (split_on_nonempty sep a) as N.
    destruct (split_on sep a); [contradiction|reflexivity].
Qed.

Lemma split_on_line s : all_chars not_lf s = true -> split_on "010"%char s = [s].
Proof.
  induction s as [|c s IH]; [reflexivity|].
  simpl. unfold not_lf at 1. intros H. apply andb_prop in H as [Hc Hs].
  apply negb_true_iff in Hc. now rewrite Hc, (IH Hs).
Qed.

(** *** The lines of a text *)

Lemma joined_cons line rest :
  rest <> [] -> joined (line :: rest) = line +:+ String "010"%char (joined rest).
Proof. destruct rest; [congruence|reflexivity]. Qed.

Lemma joined_split s : joined (split_on "010"%char s) = s.
Proof.
  induction s as [|c s IH]; [reflexivity|].
  simpl. destruct (Ascii.eqb_spec c "010"%char) as [->|_].
  - rewrite joined_cons by apply split_on_nonempty. now rewrite IH.
  - pose proof (split_on_nonempty "010"%char s) as N.
    destruct (split_on "010"%char s) as [|h t]; [contradiction|].
    destruct t as [|h' t]; simpl in *; now rewrite <- IH.
Qed.

Lemma split_on_joined lines :
  lines <> [] ->
  Forall (fun line => all_chars not_lf line = true) lines ->
  split_on "010"%char (joined lines) = lines.
Proof.
  intros N F. induction F as [|line rest L F IH]; [congruence|].
  destruct rest as [|line' rest].
  - simpl. now apply split_on_line.
  - rewrite joined_cons by discriminate.
    rewrite split_on_app, (split_on_line line L), IH by discriminate. reflexivity.
Qed.

Lemma lines_of_split s lines : lines_of s lines <-> lines = split_on "010"%char s.
Proof.
  split.
  - intros (N & F & <-). symmetry. apply split_on_joined; [exact N|].
    now apply no_lf_lines.
  - intros ->. split; [apply split_on_nonempty|].
    split; [apply no_lf_lines, split_on_lines | apply joined_split].
Qed.

(** *** Whitespace at the ends *)

Lemma lstrip_blank b : blank b -> lstrip b = EmptyString.
Proof.
  unfold blank. induction b as [|c b IH]; simpl; [reflexivity|].
  intros H. apply andb_prop in H as [Hc Hb]. now rewrite Hc, (IH Hb).
Qed.

Lemma lstrip_app_blank l s : blank l -> lstrip (l +:+ s) = lstrip s.
Proof.
  unfold blank. induction l as [|c l IH]; [reflexivity|].
  intros H. simpl in H. apply andb_prop in H as [Hc Hl].
  rewrite append_cons. simpl. now rewrite Hc, (IH Hl).
Qed.

Lemma rstrip_split s : exists ws, s = rstrip s +:+ ws /\ blank ws.
Proof.
  induction s as [|c s [ws [E B]]]; simpl.
  - now exists EmptyString.
  - destruct (is_empty (rstrip s)) eqn:Es; simpl.
    + apply is_empty_true in Es. rewrite Es, append_nil_l in E. subst ws.
      destruct (is_space c) eqn:Ec.
      * exists (String c s). split; [reflexivity|].
        unfold blank in *. simpl. now rewrite Ec, B.
      * exists s. rewrite Es. split; [reflexivity|exact B].
    + exists ws. rewrite append_cons. split; [now rewrite <- E | exact B].
Qed.

Lemma snoc_not_empty front c : front +:+ String c EmptyString <> EmptyString.
Proof. destruct front; discriminate. Qed.

Lemma rstrip_last s front c :
  rstrip s = front +:+ String c EmptyString -> is_space c = false.
Proof.
  revert front; induction s as [|d s IH]; intros front; simpl.
  - intros H. symmetry in H. now apply snoc_not_empty in H.
  - destruct (is_empty (rstrip s)) eqn:Es; simpl.
    + destruct (is_space d) eqn:Ed.
      * intros H. symmetry in H. now apply snoc_not_empty in H.
      * apply is_empty_true in Es. rewrite Es.
        destruct front as [|x front]; [now intros [= <-]|].
        rewrite append_cons. intros [= _ H]. symmetry in H.
        now apply snoc_not_empty in H.
    + destruct front as [|x front].
      * rewrite append_nil_l. intros [= _ H]. rewrite H in Es. discriminate Es.
      * rewrite append_cons. intros [= _ H]. now apply (IH front).
Qed.

Lemma rstrip_clean t :
  (forall front c, t = front +:+ String c EmptyString -> is_space c = false) ->
  rstrip t = t.
Proof.
  induction t as [|d t IH]; intros H; [reflexivity|].
  simpl. rewrite IH.
  - destruct t as [|x t]; simpl; [|reflexivity].
    now rewrite (H EmptyString d eq_refl).
  - intros front c ->. apply (H (String d front) c). reflexivity.
Qed.

Lemma strip_trimmed s : trimmed s (strip s).
Proof.
  split; [|split].
  - destruct (lstrip_split s) as [l [El Bl]].
    destruct (rstrip_split (lstrip s)) as [r [Er Br]].
    exists l, r. split; [|now split; apply whitespace_blank].
    unfold strip. now rewrite <- Er.
  - intros c rest E. apply is_space_unlisted.
    destruct (strip_head s) as [c' [r' [E' Hc]]]; [now rewrite E|].
    rewrite E in E'. now injection E' as -> _.
  - intros front c E. apply is_space_unlisted.
    now apply (rstrip_last (lstrip s) front c).
Qed.

Lemma trimmed_strip s t : trimmed s t -> strip s = t.
Proof.
  intros [(l & r & -> & Bl%whitespace_blank & Br%whitespace_blank) [Hh Ht]].
  unfold strip. rewrite (lstrip_app_blank l _ Bl).
  destruct t as [|c rest].
  - rewrite append_nil_l, (lstrip_blank r Br). reflexivity.
  - rewrite append_cons.
    rewrite (lstrip_nospace_head c _ (proj2 (is_space_unlisted c) (Hh c rest eq_refl))).
    rewrite <- append_cons, (rstrip_app_blank _ r Br).
    apply rstrip_clean. intros front d E. now apply is_space_unlisted, (Ht front d).
Qed.

(** *** Numbers *)

Lemma digit_value_spec c :
  is_digit c = true -> digit_value c = (Z.of_N (N_of_ascii c) - 48)%Z.
Proof.
  destruct c as [[] [] [] [] [] [] [] []]; intros H;
    try discriminate H; reflexivity.
Qed.

Lemma int_from_decimal s acc :
  all_chars is_digit s = true ->
  Lyrics.int_from acc s = (acc * 10 ^ Z.of_nat (String.length s) + decimal s)%Z.
Proof.
  revert acc; induction s as [|c s IH]; intros acc H.
  - simpl. lia.
  - cbn [all_chars] in H. apply andb_prop in H as [Hc Hs].
    cbn [Lyrics.int_from decimal String.length].
    rewrite (IH _ Hs), <- (digit_value_spec c Hc).
    rewrite Nat2Z.inj_succ, Z.pow_succ_r by lia. ring.
Qed.

Lemma int_of_decimal py mm :
  all_chars is_digit mm = true ->
  Lyrics.int_of py mm
  = if bool_decide (0 < Lyrics.int_max_str_digits py < String.length mm)%nat
    then inl Lyrics.ValueError
    else inr (decimal mm).
Proof.
  intros D. unfold Lyrics.int_of.
  rewrite (int_from_decimal mm 0 D), Z.mul_0_l, Z.add_0_l.
  destruct (Nat.eqb_spec (Lyrics.int_max_str_digits py) 0) as [E|E]; simpl.
  - rewrite bool_decide_eq_false_2 by lia. reflexivity.
  - destruct (Nat.ltb_spec (Lyrics.int_max_str_digits py) (String.length mm)).
    + rewrite bool_decide_eq_true_2 by lia. reflexivity.
    + rewrite bool_decide_eq_false_2 by lia. reflexivity.
Qed.

(** *** One line *)

Lemma form_text_line line mm ss cc text :
  all_chars not_lf line = true -> lrc_form line mm ss cc text ->
  all_chars not_lf text = true.
Proof.
  intros L [-> _]. rewrite !all_chars_app in L.
  repeat (apply andb_prop in L as [_ L]). exact L.
Qed.

Lemma line_entry_form py line mm ss cc text :
  all_chars not_lf line = true ->
  lrc_form line mm ss cc text ->
  Lyrics.line_entry py line
  = match stamp py mm ss cc with
    | inl e => inl e
    | inr t => inr (Some (t, strip text))
    end.
Proof.
  intros L F. pose proof (form_text_line _ _ _ _ _ L F) as T.
  destruct F as (-> & Dm & Ds & Dc).
  unfold Lyrics.line_entry, stamp.
  rewrite (match_line_complete mm ss cc text Dm Ds Dc T).
  rewrite (int_of_decimal py mm (proj2 (proj1 (digits_bool mm) Dm))).
  destruct (bool_decide _); [reflexivity|].
  destruct (Lyrics.float py _) as [seconds|]; [|reflexivity].
  now destruct (Lyrics.add_int_float py _ seconds).
Qed.

Lemma match_line_form line g1 ip fp g3 :
  all_chars not_lf line = true ->
  Lyrics.match_line line = Some (g1, (ip, fp), g3) ->
  lrc_form line g1 ip fp g3.
Proof.
  intros L M.
  destruct (match_line_sound _ _ _ _ _ M) as [rest [E [-> [D1 [D2 D3]]]]].
  assert (R : all_chars not_lf rest = true).
  { rewrite E, !all_chars_app in L.
    repeat (apply andb_prop in L as [_ L]). exact L. }
  rewrite (span_line_id rest R). now split.
Qed.

Lemma no_match_no_form line :
  all_chars not_lf line = true ->
  Lyrics.match_line line = None <-> (forall mm ss cc text, ~ lrc_form line mm ss cc text).
Proof.
  intros L. split.
  - intros M mm ss cc text F.
    pose proof (form_text_line _ _ _ _ _ L F) as T.
    destruct F as (-> & Dm & Ds & Dc).
    rewrite (match_line_complete mm ss cc text Dm Ds Dc T) in M. discriminate M.
  - intros N. destruct (Lyrics.match_line line) as [[[g1 [ip fp]] g3]|] eqn:M;
      [|reflexivity].
    exfalso. exact (N _ _ _ _ (match_line_form _ _ _ _ _ L M)).
Qed.

Lemma line_entry_no_form py line :
  all_chars not_lf line = true ->
  (forall mm ss cc text, ~ lrc_form line mm ss cc text) ->
  Lyrics.line_entry py line = inr None.
Proof.
  intros L N. apply (no_match_no_form line L) in N.
  unfold Lyrics.line_entry. now rewrite N.
Qed.

(** *** All lines *)

Lemma collect_parsed py lines :
  Forall (fun line => all_chars not_lf line = true) lines ->
  parsed py lines (Lyrics.collect py lines).
Proof.
  induction 1 as [|line rest L _ IH]; simpl; [constructor|].
  destruct (Lyrics.match_line line) as [[[g1 [ip fp]] g3]|] eqn:M.
  - pose proof (match_line_form _ _ _ _ _ L M) as F.
    rewrite (line_entry_form py line g1 ip fp g3 L F).
    destruct (stamp py g1 ip fp) as [e|t] eqn:S.
    + now apply (parsed_raise py line g1 ip fp g3).
    + pose proof (parsed_keep py line g1 ip fp g3 t (strip g3) rest _ F S
                    (strip_trimmed g3) IH) as K.
      now destruct (Lyrics.collect py rest).
  - assert (N : forall mm ss cc text, ~ lrc_form line mm ss cc text)
      by now apply no_match_no_form.
    rewrite (line_entry_no_form py line L N).
    pose proof (parsed_drop py line rest _ N IH) as K.
    now destruct (Lyrics.collect py rest).
Qed.

Lemma parsed_collect py lines result :
  Forall (fun line => all_chars not_lf line = true) lines ->
  parsed py lines result -> Lyrics.collect py lines = result.
Proof.
  intros F P. induction P as [|line mm ss cc text t text' rest result Fm S T P IH
                              |line mm ss cc text e rest Fm S
                              |line rest result N P IH];
    [reflexivity| | |]; inversion F as [|? ? L F']; subst; simpl.
  - rewrite (line_entry_form py line mm ss cc text L Fm), S, (IH F').
    rewrite (trimmed_strip text text' T). now destruct result.
  - now rewrite (line_entry_form py line mm ss cc text L Fm), S.
  - rewrite (line_entry_no_form py line L N), (IH F'). now destruct result.
Qed.

End LrcParser.

(** C8, as the code has it: for every input and whatever the number
    conversions of the interpreter do, [parse_lrc_timestamps] reads the
    lines of its input in order.  A line of the form [[mm:ss.cc]text] whose
    offset minutes * 60 + seconds is computed adds the pair of that offset
    and the text without the whitespace at its ends; a line of that form
    whose offset cannot be computed (too many digits for [int], too large
    for a float) makes the whole call raise; every other line is dropped.
    The lines of a text and what reading them gives are unique, so this
    fixes the result.  For [None] and the empty string the result is the
    empty list. *)
Theorem parse_lrc_timestamps_entries (py : Lyrics.arith) (synced_lyrics : option string) :
  match synced_lyrics with
  | None | Some EmptyString => Lyrics.parse_lrc_timestamps py synced_lyrics = inr []
  | Some s =>
      exists lines,
        lines_of s lines
        /\ parsed py lines (Lyrics.parse_lrc_timestamps py synced_lyrics)
  end
  /\ (forall s lines lines' result result',
        lines_of s lines -> parsed py lines result ->
        lines_of s lines' -> parsed py lines' result' ->
        lines = lines' /\ result = result').
Proof.
  split.
  - destruct synced_lyrics as [[|c s]|]; [reflexivity| |reflexivity].
    exists (PyStr.split_on "010"%char (String c s)).
    split; [now apply lines_of_split|].
    apply collect_parsed, split_on_lines.
  - intros s lines lines' result result' L P L' P'.
    pose proof L as (_ & F%no_lf_lines & _). pose proof L' as (_ & F'%no_lf_lines & _).
    apply lines_of_split in L, L'. subst lines lines'. split; [reflexivity|].
    rewrite <- (parsed_collect py _ result F P).
    now apply parsed_collect.
Qed.

(** C8 as stated fails: a line of the markup form can make the call raise
    instead of adding a pair.  With the numbers of CPython, 310 nines for
    the minutes are too large for a float ([OverflowError]), and 4301
    nines are more digits than [int] takes ([ValueError]); nothing is
    returned, not even the pairs of the lines before. *)
Lemma parse_raises_on_matching_line :
  lrc_form ("[" +:+ nines 310 +:+ ":00.00]la") (nines 310) "00" "00" "la"
  /\ Lyrics.parse_lrc_timestamps binary64
       (Some ("[00:01.00]one" +:+ String "010"%char ("[" +:+ nines 310 +:+ ":00.00]la")))
     = inl Lyrics.OverflowError
  /\ Lyrics.parse_lrc_timestamps binary64 (Some ("[" +:+ nines 4301 +:+ ":00.00]la"))
     = inl Lyrics.ValueError.
Proof.
  split; [|split; vm_compute; reflexivity].
  split; [vm_compute; reflexivity|].
  rewrite !digits_bool. repeat split; try discriminate; vm_compute; reflexivity.
Qed.

(** Offsets are binary64 numbers: one minute and 8.04 seconds is the
    float next below 68.04, and 309 nines of seconds are infinity. *)
Example parse_three_lines :
  Lyrics.parse_lrc_timestamps binary64
    (Some ("[00:12.50]Hello" +:+ String "010"%char
           ("[ar:Somebody]" +:+ String "010"%char
            ("[01:08.04]  World " +:+ String "010"%char
             ("[00:" +:+ nines 309 +:+ ".0]end")))))
  = inr [(Hub.Fin (25 # 2), "Hello");
         (Hub.Fin (2393944676924129 # 35184372088832), "World");
         (Hub.PInf, "end")].
Proof. vm_compute. reflexivity. Qed.

(** ** Agent: command forwarding loop *)

Section Forwarding.
Import PyStr.

Lemma dirs_values token cmd :
  Agent.dirs !! token = Some cmd ->
  In cmd ["W"; "S"; "A"; "D"; "X"].
Proof.
  unfold Agent.dirs; simpl; intros H. lookup_cases H token.
Qed.

Lemma mapped_of_values t cmd :
  mapped_of t = Some cmd -> In cmd ["W"; "S"; "A"; "D"; "X"].
Proof.
  unfold mapped_of.
  destruct (Agent.polled t) as [|code text]; [discriminate|].
  destruct (negb _); [discriminate|].
  destruct (String.eqb _ _); [discriminate|].
  apply dirs_values.
Qed.


Lemma serial_writes_app a b :
  Agent.serial_writes (a ++ b) = Agent.serial_writes a ++ Agent.serial_writes b.
Proof.
  induction a as [|e a IH]; [reflexivity|].
  destruct e; simpl; now rewrite IH.
Qed.

Lemma serial_writes_init t : Agent.serial_writes (Agent.init_serial t) = [].
Proof.
  unfold Agent.init_serial. rewrite serial_writes_app. simpl.
  induction (Agent.open_failures t) as [|n IH]; [reflexivity|exact IH].
Qed.

(** A send makes one call of [ser.write], with the first character of the
    command, and the call returns or raises as the device has it. *)
Lemma send_writes cmd t ser :
  Agent.serial_writes (snd (Agent.send_command_to_arduino cmd t ser))
  = map (fun c => (c, Agent.write_ok t)) (first_char cmd).
Proof.
  unfold Agent.send_command_to_arduino.
  destruct cmd as [|c r]; [reflexivity|].
  destruct (Agent.write_ok t); simpl; rewrite serial_writes_app;
    destruct ser; simpl; now rewrite ?serial_writes_init.
Qed.

Lemma map_fst_flagged (ok : bool) (l : list ascii) :
  map fst (map (fun c => (c, ok)) l) = l.
Proof. induction l as [|c l IH]; [reflexivity|]. simpl. now rewrite IH. Qed.

(** One iteration: what is written and what [last_cmd] becomes. *)
Lemma poll_step_spec t s :
  match mapped_of t with
  | Some cmd =>
      if decide (Some cmd = Agent.last_cmd s)
      then Agent.poll_step t s = (s, [])
      else Agent.serial_writes (snd (Agent.poll_step t s))
           = map (fun c => (c, Agent.write_ok t)) (first_char cmd)
           /\ Agent.last_cmd (fst (Agent.poll_step t s)) = Some cmd
  | None =>
      fst (Agent.poll_step t s) = s
      /\ Agent.serial_writes (snd (Agent.poll_step t s)) = []
  end.
Proof.
  unfold mapped_of, Agent.poll_step.
  destruct (Agent.polled t) as [|code text]; [now split|].
  destruct (negb (Z.eqb code 200)); [now split|].
  destruct (String.eqb (Agent.token_of text) "PHOTO").
  - destruct (Agent.last_frame_jpeg t); now split.
  - destruct (Agent.dirs !! Agent.token_of text) as [cmd|]; [|now split].
    destruct (decide (Some cmd = Agent.last_cmd s)) as [E|E].
    + now rewrite bool_decide_eq_true_2.
    + rewrite bool_decide_eq_false_2 by exact E.
      pose proof (send_writes cmd t (Agent.ser_open s)) as W.
      destruct (Agent.send_command_to_arduino cmd t (Agent.ser_open s)) as [ser evs].
      now split.
Qed.

Lemma poll_loop_cons t ts s :
  Agent.poll_loop (t :: ts) s =
  (fst (Agent.poll_loop ts (fst (Agent.poll_step t s))),
   snd (Agent.poll_step t s) ++ snd (Agent.poll_loop ts (fst (Agent.poll_step t s)))).
Proof.
  simpl. destruct (Agent.poll_step t s) as [s1 e1]; simpl.
  now destruct (Agent.poll_loop ts s1).
Qed.

Lemma dedup_from_ext last last' l :
  last = last' -> dedup_from last l = dedup_from last' l.
Proof. now intros ->. Qed.

(** The bytes given to [ser.write] over any number of iterations. *)
Lemma poll_loop_writes ts s :
  map fst (Agent.serial_writes (snd (Agent.poll_loop ts s))) =
  flat_map first_char (dedup_from (Agent.last_cmd s) (omap mapped_of ts)).
Proof.
  revert s; induction ts as [|t ts IH]; intros s; [reflexivity|].
  rewrite poll_loop_cons. simpl snd. rewrite serial_writes_app, map_app, IH. simpl omap.
  pose proof (poll_step_spec t s) as S.
  destruct (mapped_of t) as [cmd|]; simpl.
  - destruct (decide (Some cmd = Agent.last_cmd s)) as [E|E].
    + now rewrite S.
    + destruct S as [W L]. now rewrite W, L, map_fst_flagged.
  - destruct S as [-> ->]. reflexivity.
Qed.













Lemma omap_mapped_values ts :
  Forall (fun cmd => In cmd ["W"; "S"; "A"; "D"; "X"]) (omap mapped_of ts).
Proof.
  induction ts as [|t ts IH]; [constructor|].
  simpl. destruct (mapped_of t) as [cmd|] eqn:E; [|exact IH].
  constructor; [eapply mapped_of_values, E | exact IH].
Qed.


End Forwarding.



Example drive_and_stop :
  Agent.bytes_written
    (snd (Agent.poll_loop
            [reply "FORWARD"; reply "FORWARD"; reply "LEFT"; reply "bogus";
             reply "LEFT"; reply "Not Moving"; reply "FORWARD"]
            Agent.loop_start))
  = ["W"; "A"; "X"; "W"]%char.
Proof. reflexivity. Qed.

(** A write that raises: the command of that run never reaches the port,
    and the next run re-opens the port first. *)
Example failed_write_lost :
  let broken := Agent.mkTick (Agent.PollReply 200 "FORWARD") None true 0 false in
  let events := snd (Agent.poll_loop [broken; broken; reply "LEFT"] Agent.loop_start) in
  events = [Agent.SerialWrite "W"%char false; Agent.SerialOpened;
            Agent.SerialWrite "A"%char true]
  /\ Agent.bytes_written events = ["A"%char].
Proof. split; reflexivity. Qed.

Section Photo.
Import PyStr.

Lemma photo_unmapped t :
  polled_token t = Some "PHOTO" -> mapped_of t = None.
Proof.
  unfold polled_token, mapped_of.
  destruct (Agent.polled t) as [|code text]; [discriminate|].
  destruct (negb _); [discriminate|].
  now intros [= ->].
Qed.

Lemma photo_step t s :
  polled_token t = Some "PHOTO" ->
  Agent.poll_step t s =
  (s, match Agent.last_frame_jpeg t with
      | None => []
      | Some jpeg_data => [Agent.PhotoSave jpeg_data (Agent.save_ok t)]
      end).
Proof.
  unfold polled_token, Agent.poll_step.
  destruct (Agent.polled t) as [|code text]; [discriminate|].
  destruct (negb _); [discriminate|].
  intros [= ->]. simpl. now destruct (Agent.last_frame_jpeg t).
Qed.

Lemma dedup_from_same cmd k : dedup_from (Some cmd) (repeat cmd k) = [].
Proof.
  induction k as [|k IH]; [reflexivity|].
  simpl. now destruct (decide (Some cmd = Some cmd)).
Qed.

Lemma mapped_cons t ts :
  omap mapped_of (t :: ts) =
  match mapped_of t with
  | Some cmd => cmd :: omap mapped_of ts
  | None => omap mapped_of ts
  end.
Proof. reflexivity. Qed.

Lemma photos_only_commands ts cmd :
  Forall (fun t => polled_token t = Some "PHOTO" \/ mapped_of t = Some cmd) ts ->
  ~ Exists (fun t => mapped_of t = Some cmd) ts ->
  omap mapped_of ts = [].
Proof.
  induction 1 as [|t ts [P|M] F IH]; intros E; [reflexivity| |].
  - rewrite mapped_cons, (photo_unmapped t P). apply IH.
    intros X; apply E; now constructor 2.
  - exfalso; apply E; now constructor 1.
Qed.

Lemma interrupted_run_commands ts cmd :
  Forall (fun t => polled_token t = Some "PHOTO" \/ mapped_of t = Some cmd) ts ->
  Exists (fun t => mapped_of t = Some cmd) ts ->
  exists k, omap mapped_of ts = repeat cmd (S k).
Proof.
  induction 1 as [|t ts [P|M] F IH]; intros E.
  - inversion E.
  - rewrite mapped_cons, (photo_unmapped t P).
    inversion E as [? ? M|? ? E']; subst; [|now apply IH].
    rewrite (photo_unmapped t P) in M. discriminate M.
  - rewrite mapped_cons, M.
    destruct (decide (Exists (fun t => mapped_of t = Some cmd) ts)) as [E'|E'].
    + destruct (IH E') as [k Hk]. exists (S k). now rewrite Hk.
    + exists 0. now rewrite (photos_only_commands ts cmd F E').
Qed.

End Photo.

(** C10: a poll whose token is PHOTO writes nothing to the actuator and
    leaves the loop's variables, [last_cmd] among them, as they were; with
    no captured frame it has no effect at all, so no file is written.
    Hence polls of one direction command, with PHOTO polls anywhere among
    them, produce a single actuation. *)
Theorem photo_not_forwarded (t : Agent.tick) (s : Agent.loop_state)
  (ts : list Agent.tick) (cmd : string) (last : option string) (ser : bool) :
  polled_token t = Some "PHOTO" ->
  Forall (fun t' => polled_token t' = Some "PHOTO" \/ mapped_of t' = Some cmd) ts ->
  Exists (fun t' => mapped_of t' = Some cmd) ts ->
  last <> Some cmd ->
  (fst (Agent.poll_step t s) = s
   /\ Agent.serial_writes (snd (Agent.poll_step t s)) = []
   /\ (Agent.last_frame_jpeg t = None -> snd (Agent.poll_step t s) = []))
  /\ (exists c ok,
        Agent.serial_writes (snd (Agent.poll_loop ts (Agent.mkLoop last ser))) = [(c, ok)]
        /\ cmd = String c EmptyString).
Proof.
  intros P F E L. split.
  - rewrite (photo_step t s P). simpl. repeat split.
    + now destruct (Agent.last_frame_jpeg t).
    + now intros ->.
  - pose proof (poll_loop_writes ts (Agent.mkLoop last ser)) as W.
    simpl Agent.last_cmd in W.
    destruct (interrupted_run_commands ts cmd F E) as [k Ek].
    assert (V : In cmd ["W"; "S"; "A"; "D"; "X"]).
    { pose proof (omap_mapped_values ts) as V. rewrite Ek in V.
      now inversion V. }
    rewrite Ek in W. simpl in W.
    destruct (decide (Some cmd = last)) as [X|_]; [congruence|].
    simpl in W. rewrite dedup_from_same, app_nil_r in W.
    destruct (Agent.serial_writes _) as [|[c ok] [|w rest]];
      simpl in V; destruct V as [<-|[<-|[<-|[<-|[<-|[]]]]]];
      try discriminate W; injection W as <-; exists c, ok; split; reflexivity.
Qed.

(** C10 on a run: FORWARD polled three times with two PHOTO polls in
    between, and a PHOTO poll before any frame was captured. *)
Lemma photo_not_forwarded_witness :
  let ts := [reply "FORWARD"; reply "PHOTO"; reply "forward"; reply "Photo"; reply "FORWARD"] in
  (fst (Agent.poll_step idle_photo Agent.loop_start) = Agent.loop_start
   /\ Agent.serial_writes (snd (Agent.poll_step idle_photo Agent.loop_start)) = []
   /\ (Agent.last_frame_jpeg idle_photo = None ->
       snd (Agent.poll_step idle_photo Agent.loop_start) = []))
  /\ (exists c ok,
        Agent.serial_writes (snd (Agent.poll_loop ts (Agent.mkLoop None true))) = [(c, ok)]
        /\ "W" = String c EmptyString).
Proof.
  apply (photo_not_forwarded idle_photo Agent.loop_start
           [reply "FORWARD"; reply "PHOTO"; reply "forward"; reply "Photo"; reply "FORWARD"]
           "W" None true).
  - reflexivity.
  - repeat constructor; vm_compute; tauto.
  - constructor 1. reflexivity.
  - discriminate.
Defined.

Example photo_saved_once :
  Agent.poll_loop [reply "FORWARD"; reply "PHOTO"; reply "FORWARD"] Agent.loop_start
  = (Agent.mkLoop (Some "W") true,
     [Agent.SerialWrite "W"%char true; Agent.PhotoSave sample_frame true]).
Proof. reflexivity. Qed.
(** ** Agent: lyric streaming flow *)

Section Scheduler.
Import PyStr.

Lemma wait_until_exit fuel sleep start ts clock k clock' k' :
  Agent.wait_until fuel sleep start ts clock k = Some (clock', k') ->
  due start ts clock'.
Proof.
  revert clock k; induction fuel as [|fuel IH]; intros clock k; simpl;
    destruct (Hub.fgt ts (Hub.Fin (clock - start))) eqn:E; simpl; intros H;
    try discriminate H; try (now apply IH in H);
    injection H as <- <-; destruct ts as [q| | |]; simpl in *;
    try exact I; try discriminate E;
    apply negb_false_iff, Qle_bool_iff in E; lra.
Qed.

Lemma wait_until_mono fuel extra sleep start ts clock k r :
  Agent.wait_until fuel sleep start ts clock k = Some r ->
  Agent.wait_until (fuel + extra) sleep start ts clock k = Some r.
Proof.
  revert clock k; induction fuel as [|fuel IH]; intros clock k; simpl;
    destruct (Hub.fgt ts (Hub.Fin (clock - start))) eqn:E; simpl; intros H;
    try discriminate H.
  - destruct extra; simpl; now rewrite E.
  - now apply IH.
  - exact H.
Qed.

Lemma wait_until_enough fuel sleep start q clock k :
  (forall j, 1 # 100 <= sleep j)%Q ->
  (q - (clock - start) <= inject_Z (Z.of_nat fuel) * (1 # 100))%Q ->
  exists r, Agent.wait_until fuel sleep start (Hub.Fin q) clock k = Some r.
Proof.
  intros S. revert clock k; induction fuel as [|fuel IH]; intros clock k G; simpl;
    destruct (Qle_bool q (clock - start)) eqn:E; simpl; eauto.
  - exfalso. change (inject_Z (Z.of_nat 0)) with 0%Q in G.
    assert (X : (q <= clock - start)%Q) by lra.
    apply Qle_bool_iff in X. congruence.
  - apply IH. specialize (S k).
    rewrite Nat2Z.inj_succ, <- Z.add_1_r, inject_Z_plus in G.
    change (inject_Z 1) with 1%Q in G.
    generalize dependent (inject_Z (Z.of_nat fuel)). intros f _ G. lra.
Qed.

(** The wait for an offset other than plus infinity ends. *)
Lemma wait_until_terminates sleep start ts clock k :
  (forall j, 1 # 100 <= sleep j)%Q ->
  ts <> Hub.PInf ->
  exists fuel r, Agent.wait_until fuel sleep start ts clock k = Some r.
Proof.
  intros S N. destruct ts as [q| | |]; [|congruence| |];
    try (exists 0, (clock, k); reflexivity).
  exists (Z.to_nat (Qceiling ((q - (clock - start)) * 100))).
  apply wait_until_enough; [exact S|].
  pose proof (Qle_ceiling ((q - (clock - start)) * 100)) as C.
  assert (Z : (inject_Z (Qceiling ((q - (clock - start)) * 100))
               <= inject_Z (Z.of_nat (Z.to_nat (Qceiling ((q - (clock - start)) * 100)))))%Q).
  { rewrite <- Zle_Qle. lia. }
  lra.
Qed.

(** The wait for the offset plus infinity never ends. *)
Lemma wait_until_never fuel sleep start clock k :
  Agent.wait_until fuel sleep start Hub.PInf clock k = None.
Proof.
  revert clock k; induction fuel as [|fuel IH]; intros clock k; [reflexivity|].
  simpl. apply IH.
Qed.








End Scheduler.






Example schedule_in_sequence_order :
  option_map (map (fun p => (Qred (Agent.sent_at p), Agent.body p)))
    (Agent.stream_lines 400 (one_line_song spotify_up 0) 0
       [(Hub.Fin 0, "a"); (Hub.Fin (5 # 2), "b"); (Hub.Fin 1, "c"); (Hub.Fin 1, "d")]
       0 0 0)
  = Some [(0%Q, "10 a"); ((5 # 2)%Q, "10 b"); ((5 # 2)%Q, "10 c"); ((5 # 2)%Q, "10 d")].
Proof. vm_compute. reflexivity. Qed.

(** A lyric text whose second line has minutes too large for a float: the
    flow raises, and the first line is not published either. *)
Example schedule_lost_to_overflow :
  Agent.handle_music_spotify_flow 200
    (song_request ("[00:01.00]one" +:+ String "010"%char
                   ("[" +:+ nines 310 +:+ ":00.00]two"))
       spotify_up 0)
    true Raises
  = Agent.FlowRaised Agent.OverflowError.
Proof. vm_compute. reflexivity. Qed.

(** ** Agent: audio processing pipeline *)

Section Pipeline.
Import PyStr.

Lemma client_cached cached construct :
  fst (Agent.get_openai_client cached construct) = Gives tt ->
  Agent.get_openai_client cached construct = (Gives tt, true).
Proof.
  unfold Agent.get_openai_client.
  destruct cached; [reflexivity|]. now destruct construct as [|[]].
Qed.

(** Wherever [process_audio_file] reads [song_name], the read fails: the
    name is no local of the function, no name of the module and no
    builtin. *)
Lemma song_name_unbound bound :
  Agent.load_name (Agent.mkScope Agent.process_locals bound) "song_name"
  = Some (Agent.NameError "song_name").
Proof. vm_compute. reflexivity. Qed.

Lemma song_name_scopes :
  "song_name" ∈ Agent.music_locals
  /\ ("song_name" ∉ Agent.process_locals)
  /\ ("song_name" ∉ Agent.chatgpt_locals)
  /\ ("song_name" ∉ Agent.module_globals ∪ Agent.builtins).
Proof.
  repeat split; apply (bool_decide_unpack _); vm_compute; exact I.
Qed.

End Pipeline.

(** C9, as the code has it: in the branch of [process_audio_file] taken
    for a transcript without a music keyword, the reporting call reads
    [song_name], which only the music flow assigns: it is neither a local
    of [process_audio_file] nor a name of the module.  So when the
    generic flow returns, the run ends at the reporting call with the
    unbound-name error; when the generic flow itself raises, that
    exception ends the run and the reporting call is not reached.  Either
    way the report is never sent and the branch never returns
    normally. *)
Theorem non_music_report_unbound (fuel : nat) (e : Agent.audio_env) (cached : bool)
  (text : string) :
  fst (Agent.get_openai_client cached (Agent.construct_client e)) = Gives tt ->
  Agent.transcription e = Gives (Some text) ->
  PyStr.is_empty text = false ->
  existsb (fun keyword => PyStr.contains keyword (PyStr.lower text)) Agent.music_keywords
  = false ->
  let flow := Agent.handle_chatgpt_tts_flow (Agent.generic e) true (Agent.construct_client e) in
  ("song_name" ∈ Agent.music_locals
   /\ ("song_name" ∉ Agent.process_locals)
   /\ ("song_name" ∉ Agent.module_globals ∪ Agent.builtins))
  /\ Agent.process_audio_file fuel e cached
     = (Agent.Raised match fst flow with
                     | None => Agent.NameError "song_name"
                     | Some err => err
                     end,
        snd flow)
  /\ fst (Agent.process_audio_file fuel e cached) <> Agent.Returned
  /\ (forall body, In body (snd (Agent.process_audio_file fuel e cached)) ->
                   In body (snd flow)).
Proof.
  intros C T N K flow.
  assert (E : Agent.process_audio_file fuel e cached
              = (Agent.Raised match fst flow with
                              | None => Agent.NameError "song_name"
                              | Some err => err
                              end,
                 snd flow)).
  { unfold Agent.process_audio_file.
    rewrite (client_cached _ _ C), T, N, K. fold flow.
    destruct flow as [[err|] posted]; [reflexivity|].
    unfold Agent.bind; simpl Agent.locals. now rewrite song_name_unbound. }
  split; [pose proof song_name_scopes; tauto|].
  rewrite E. simpl. split; [reflexivity|]. split; [discriminate|auto].
Qed.

(** C9 on a run: a request for the time of day, answered without any
    failure. *)
Lemma non_music_report_unbound_witness :
  ("song_name" ∈ Agent.music_locals
   /\ ("song_name" ∉ Agent.process_locals)
   /\ ("song_name" ∉ Agent.module_globals ∪ Agent.builtins))
  /\ Agent.process_audio_file 0 time_request false
  = (Agent.Raised (Agent.NameError "song_name"), ["1.5 Noon"])
  /\ fst (Agent.process_audio_file 0 time_request false) <> Agent.Returned
  /\ (forall body, In body (snd (Agent.process_audio_file 0 time_request false)) ->
                   In body ["1.5 Noon"]).
Proof.
  apply (non_music_report_unbound 0 time_request false "What time is it");
    reflexivity.
Defined.

(** C9 as stated fails: executing the branch need not raise at the
    reporting call.  When speech synthesis fails, the generic flow raises
    the unbound-local error for [audio_duration] at its own post, and
    when the chat completion gives no text it raises a type error: the
    run ends there, before the reporting call is reached. *)
Lemma non_music_flow_raises_first :
  Agent.process_audio_file 0
    (Agent.mkAudioEnv (Gives tt) (Gives (Some "What time is it"))
       (Agent.mkChatEnv (Gives (Some "Noon")) Raises (Gives "1.5"))
       (one_line_song spotify_up 0))
    false
  = (Agent.Raised (Agent.UnboundLocalError "audio_duration"), [])
  /\ Agent.process_audio_file 0
       (Agent.mkAudioEnv (Gives tt) (Gives (Some "What time is it"))
          (Agent.mkChatEnv (Gives None) (Gives tt) (Gives "1.5"))
          (one_line_song spotify_up 0))
       false
     = (Agent.Raised Agent.TypeError, [])
  /\ Agent.UnboundLocalError "audio_duration" <> Agent.NameError "song_name"
  /\ Agent.TypeError <> Agent.NameError "song_name".
Proof. repeat split; try reflexivity; discriminate. Qed.

Example music_request_streams :
  Agent.process_audio_file 200
    (Agent.mkAudioEnv (Gives tt) (Gives (Some "Play the song Song"))
       (Agent.mkChatEnv Raises Raises Raises) (one_line_song spotify_up 2))
    false
  = (Agent.Returned, ["10 la"]).
Proof. vm_compute. reflexivity. Qed.

(** * Further properties *)

(** ** Hub: the cells are independent *)

Lemma handle_frame_rule (float : string -> option Hub.pyfloat)
  (r : Hub.request) (st : Hub.state) :
  let st' := fst (Hub.handle float r st) in
  match r with
  | Hub.PostCommand _ | Hub.KeyboardLine _ | Hub.SetFromKey _ =>
      Hub.latest_frame_bytes st' = Hub.latest_frame_bytes st
      /\ Hub.pending_audio_ready st' = Hub.pending_audio_ready st
      /\ Hub.current_transcript st' = Hub.current_transcript st
      /\ Hub.transcript_expire_time st' = Hub.transcript_expire_time st
  | Hub.PostSendAudio _ | Hub.GetAudio _ =>
      Hub.latest_frame_bytes st' = Hub.latest_frame_bytes st
      /\ Hub.current_command st' = Hub.current_command st
      /\ Hub.current_transcript st' = Hub.current_transcript st
      /\ Hub.transcript_expire_time st' = Hub.transcript_expire_time st
  | Hub.PostTranscript _ _ =>
      Hub.latest_frame_bytes st' = Hub.latest_frame_bytes st
      /\ Hub.current_command st' = Hub.current_command st
      /\ Hub.pending_audio_ready st' = Hub.pending_audio_ready st
  | Hub.PostFrame _ =>
      Hub.current_command st' = Hub.current_command st
      /\ Hub.pending_audio_ready st' = Hub.pending_audio_ready st
      /\ Hub.current_transcript st' = Hub.current_transcript st
      /\ Hub.transcript_expire_time st' = Hub.transcript_expire_time st
  | Hub.GetCommand | Hub.GetTranscript _ | Hub.GetLatestJpg => st' = st
  end.
Proof.
  destruct r as [c| |l|c|e|f|now raw|now|p|]; simpl; try reflexivity.
  - unfold Hub.command_post, Hub.set_current_command_from_key.
    destruct (bool_decide _); simpl; [|tauto].
    destruct (Hub.mapping !! _); simpl; tauto.
  - unfold Hub.keyboard_line, Hub.set_current_command_from_key.
    destruct (bool_decide _); simpl; [|tauto].
    destruct (Hub.mapping !! _); simpl; tauto.
  - unfold Hub.set_current_command_from_key.
    destruct (Hub.mapping !! _); simpl; tauto.
  - unfold Hub.send_audio. destruct e; simpl; tauto.
  - unfold Hub.audio. destruct (Hub.pending_audio_ready st); simpl; [|tauto].
    destruct f; simpl; tauto.
  - unfold Hub.receive_transcript.
    destruct (PyStr.is_empty _); simpl; [tauto|].
    destruct (Hub.duration_and_text _) as [[d t]|]; simpl; tauto.
  - rewrite receive_frame_cases.
    destruct (object_like p); simpl; [|tauto].
    destruct (Hub.truthy _); simpl; [|tauto].
    destruct (Hub.b64decode _); simpl; tauto.
Qed.

(** X1: every handler changes at most the cell it serves: command writes
    leave frame, audio flag and transcript alone, audio requests leave
    frame, command and transcript alone, and so on; the three reads change
    nothing. *)
Theorem handlers_touch_own_cell (float : string -> option Hub.pyfloat)
  (r : Hub.request) (st : Hub.state) :
  let st' := fst (Hub.handle float r st) in
  match r with
  | Hub.PostCommand _ | Hub.KeyboardLine _ | Hub.SetFromKey _ =>
      Hub.latest_frame_bytes st' = Hub.latest_frame_bytes st
      /\ Hub.pending_audio_ready st' = Hub.pending_audio_ready st
      /\ Hub.current_transcript st' = Hub.current_transcript st
      /\ Hub.transcript_expire_time st' = Hub.transcript_expire_time st
  | Hub.PostSendAudio _ | Hub.GetAudio _ =>
      Hub.latest_frame_bytes st' = Hub.latest_frame_bytes st
      /\ Hub.current_command st' = Hub.current_command st
      /\ Hub.current_transcript st' = Hub.current_transcript st
      /\ Hub.transcript_expire_time st' = Hub.transcript_expire_time st
  | Hub.PostTranscript _ _ =>
      Hub.latest_frame_bytes st' = Hub.latest_frame_bytes st
      /\ Hub.current_command st' = Hub.current_command st
      /\ Hub.pending_audio_ready st' = Hub.pending_audio_ready st
  | Hub.PostFrame _ =>
      Hub.current_command st' = Hub.current_command st
      /\ Hub.pending_audio_ready st' = Hub.pending_audio_ready st
      /\ Hub.current_transcript st' = Hub.current_transcript st
      /\ Hub.transcript_expire_time st' = Hub.transcript_expire_time st
  | Hub.GetCommand | Hub.GetTranscript _ | Hub.GetLatestJpg => st' = st
  end.
Proof. apply handle_frame_rule. Qed.

(** ** Hub and agent: commands end to end *)

Section CommandsEndToEnd.
Import PyStr.
Variable float : string -> option Hub.pyfloat.

Lemma direction_of_values key t :
  direction_of key = Some t ->
  In t ["FORWARD"; "BACKWARD"; "LEFT"; "RIGHT"; "Not Moving"].
Proof.
  unfold direction_of.
  repeat match goal with
         | |- context [String.eqb key ?k] => destruct (String.eqb key k)
         end; intros [= <-]; simpl; tauto.
Qed.

Lemma keyboard_line_spec line st :
  Hub.keyboard_line line st =
  match direction_of (upper (strip line)) with
  | Some t => Hub.set_command t st
  | None => st
  end.
Proof.
  unfold Hub.keyboard_line, Hub.set_current_command_from_key.
  rewrite upper_idem.
  pose proof (direction_of_spec (upper (strip line))) as H.
  destruct (direction_of (upper (strip line))) as [t|].
  - destruct H as [Hin Hm]. rewrite bool_decide_eq_true_2 by exact Hin.
    now rewrite Hm.
  - now rewrite bool_decide_eq_false_2 by exact H.
Qed.

Lemma public_command_cases r st :
  public r = true ->
  Hub.current_command (fst (Hub.handle float r st)) = Hub.current_command st
  \/ In (Hub.current_command (fst (Hub.handle float r st)))
        ["FORWARD"; "BACKWARD"; "LEFT"; "RIGHT"; "Not Moving"].
Proof.
  destruct r as [c| |l|c|e|f|now raw|now|p|]; intros P; try discriminate P;
    try (left; reflexivity).
  - rewrite handle_post_command.
    destruct (direction_of (upper c)) as [t|] eqn:E; simpl; [right|now left].
    eapply direction_of_values, E.
  - simpl. rewrite keyboard_line_spec.
    destruct (direction_of (upper (strip l))) as [t|] eqn:E; simpl; [right|now left].
    eapply direction_of_values, E.
  - left. pose proof (handle_frame_rule float (Hub.PostSendAudio e) st) as H.
    simpl in H. simpl. tauto.
  - left. pose proof (handle_frame_rule float (Hub.GetAudio f) st) as H.
    simpl in H. simpl. tauto.
  - left. pose proof (handle_frame_rule float (Hub.PostTranscript now raw) st) as H.
    simpl in H. simpl. tauto.
  - left. pose proof (handle_frame_rule float (Hub.PostFrame p) st) as H.
    simpl in H. simpl. tauto.
Qed.

Lemma public_tokens_kept rs st :
  forallb public rs = true ->
  In (Hub.current_command st) served_tokens ->
  In (Hub.current_command (after float rs st)) served_tokens.
Proof.
  revert st; induction rs as [|r rs IH]; intros st P H; [exact H|].
  simpl in P. apply andb_prop in P as [Pr Prs].
  rewrite after_cons. apply IH; [exact Prs|].
  destruct (public_command_cases r st Pr) as [E|E]; [now rewrite E|].
  simpl in E. simpl. tauto.
Qed.

(** The agent's reading of each served token. *)
Lemma served_token_understood token :
  In token served_tokens ->
  Agent.token_of token <> "PHOTO"
  /\ exists cmd, Agent.dirs !! Agent.token_of token = Some cmd.
Proof.
  simpl. intros [<-|[<-|[<-|[<-|[<-|[<-|[]]]]]]];
    (split; [vm_compute; discriminate | eexists; vm_compute; reflexivity]).
Qed.

Lemma served_direction_key key t dev st :
  direction_of key = Some t ->
  mapped_of (poll_tick dev (Hub.set_command t st)) = Some key.
Proof.
  unfold direction_of.
  repeat match goal with
         | |- context [String.eqb key ?k] =>
             destruct (String.eqb_spec key k) as [->|?]
         end; intros [= <-]; reflexivity.
Qed.

Lemma direction_of_upper key t : direction_of key = Some t -> upper key = key.
Proof.
  unfold direction_of.
  repeat match goal with
         | |- context [String.eqb key ?k] =>
             destruct (String.eqb_spec key k) as [->|?]
         end; intros [= <-]; reflexivity.
Qed.


End CommandsEndToEnd.

(** X2: through the hub's own surface (HTTP handlers and keyboard loop)
    the served command is always one of FORWARD, BACKWARD, LEFT, RIGHT,
    NOT_MOVING, Not Moving, never PHOTO, and the agent's table has a
    direction for each of them: the agent never meets a command of the hub
    it ignores, and its PHOTO branch is never entered. *)
Theorem public_surface_never_photo (float : string -> option Hub.pyfloat)
  (rs : list Hub.request) :
  forallb public rs = true ->
  exists token cmd,
    Hub.command_get (after float rs Hub.initial) = Hub.mkResp 200 (Hub.BText token)
    /\ In token served_tokens
    /\ Agent.token_of token <> "PHOTO"
    /\ Agent.dirs !! Agent.token_of token = Some cmd.
Proof.
  intros P.
  assert (H : In (Hub.current_command (after float rs Hub.initial)) served_tokens).
  { apply public_tokens_kept; [exact P|]. simpl. tauto. }
  destruct (served_token_understood _ H) as [N [cmd D]].
  exists (Hub.current_command (after float rs Hub.initial)), cmd.
  repeat split; try assumption.
  apply command_get_token. simpl in H. simpl. tauto.
Qed.

(** X2 on a run: a lower-case stop, a keyboard line and a rejected P. *)
Lemma public_surface_never_photo_witness :
  exists token cmd,
    Hub.command_get
      (after (fun _ => None)
             [Hub.PostCommand "x"; Hub.KeyboardLine " d "; Hub.PostCommand "P";
              Hub.GetCommand; Hub.PostSendAudio true]
             Hub.initial)
    = Hub.mkResp 200 (Hub.BText token)
    /\ In token served_tokens
    /\ Agent.token_of token <> "PHOTO"
    /\ Agent.dirs !! Agent.token_of token = Some cmd.
Proof.
  apply (public_surface_never_photo (fun _ => None)
           [Hub.PostCommand "x"; Hub.KeyboardLine " d "; Hub.PostCommand "P";
            Hub.GetCommand; Hub.PostSendAudio true]).
  reflexivity.
Defined.

(** X3: the key an operator writes comes back as the byte for the
    Arduino: when a write is accepted, the agent's next poll of the hub
    maps the served token to the upper-cased key itself (W, A, S, D or X);
    when it is rejected the hub is unchanged. *)
Theorem key_round_trip (float : string -> option Hub.pyfloat)
  (c : string) (dev : Agent.tick) (st : Hub.state) :
  let st' := after float [Hub.PostCommand c] st in
  match direction_of (PyStr.upper c) with
  | Some _ => mapped_of (poll_tick dev st') = Some (PyStr.upper c)
  | None => st' = st
  end.
Proof.
  simpl. rewrite after_cons, handle_post_command, after_nil.
  destruct (direction_of (PyStr.upper c)) as [t|] eqn:E; simpl; [|reflexivity].
  now apply served_direction_key.
Qed.





(** ** Hub: frames and transcripts over sequences *)

Section FramesOverTime.
Variable float : string -> option Hub.pyfloat.

Lemma handle_stored_frame r st :
  Hub.latest_frame_bytes (fst (Hub.handle float r st)) =
  match stored_frame r with
  | Some data => Some data
  | None => Hub.latest_frame_bytes st
  end.
Proof.
  pose proof (handle_frame_rule float r st) as H. cbv zeta in H.
  destruct r as [c| |l|c|e|f|now raw|now|p|]; cbn [stored_frame];
    try tauto; try (now rewrite H).
  clear H. cbn [Hub.handle].
  destruct (Hub.receive_frame p st) as [st' resp] eqn:E.
  rewrite receive_frame_cases in E. cbn [fst].
  destruct (object_like p); cbn [andb]; [|now injection E as <- _].
  destruct (Hub.truthy (frame_field p)); [|now injection E as <- _].
  destruct (Hub.b64decode (frame_field p)); now injection E as <- _.
Qed.

Lemma latest_frame_after rs st :
  Hub.latest_frame_bytes (after float rs st) =
  match last (omap stored_frame rs) with
  | Some data => Some data
  | None => Hub.latest_frame_bytes st
  end.
Proof.
  revert st; induction rs as [|r rs IH]; intros st; [reflexivity|].
  rewrite after_cons, IH, handle_stored_frame. simpl omap.
  destruct (stored_frame r) as [data|]; [|reflexivity].
  change (list_omap Hub.request Hub.bytes stored_frame rs)
    with (omap stored_frame rs).
  rewrite last_cons. now destruct (last (omap stored_frame rs)).
Qed.

End FramesOverTime.

(** X5: frames are latest-wins over any sequence of hub requests: a read
    of the latest frame returns the bytes of the most recent accepted
    push, whatever rejected pushes and other requests came after it, and
    the not-found reply when no push was ever accepted. *)
Theorem latest_frame_wins (float : string -> option Hub.pyfloat)
  (rs : list Hub.request) :
  Hub.latest_jpg (after float rs Hub.initial) =
  match last (omap stored_frame rs) with
  | Some data => Hub.mkResp 200 (Hub.BFile "image/jpeg" data)
  | None => Hub.json_error 404 "no frame received yet"
  end.
Proof.
  unfold Hub.latest_jpg. rewrite latest_frame_after.
  now destruct (last (omap stored_frame rs)).
Qed.

Example frames_over_time :
  Hub.latest_jpg
    (after (fun _ => None)
       [Hub.PostFrame (Agent.frame_payload sample_frame);
        Hub.PostFrame (Hub.JObj [("frame", Hub.JStr "abc")]);
        Hub.PostCommand "W";
        Hub.PostFrame (Hub.JObj [])]
       Hub.initial)
  = Hub.mkResp 200 (Hub.BFile "image/jpeg" sample_frame).
Proof. reflexivity. Qed.

Section TranscriptWindow.
Import PyStr.
Variable float : string -> option Hub.pyfloat.

Lemma body_parts_text body duration_str text :
  body_parts body duration_str text -> text <> EmptyString.
Proof. intros [t N _|d ws c t _ _ _ _ _]; [exact N|discriminate]. Qed.

Lemma expiry_at_least_grace now duration e t :
  expiry_for now duration e -> (t < now + 5)%Q -> before t e.
Proof.
  unfold expiry_for, before.
  destruct duration as [[d| | |]|]; intros H L.
  - destruct H as [x [-> Hx]]. pose proof (Q.le_max_l 0 d). lra.
  - subst e. exact I.
  - destruct H as [x [-> Hx]]. lra.
  - destruct H as [x [-> Hx]]. lra.
  - destruct H as [x [-> Hx]]. lra.
Qed.

Lemma expiry_reached now d e t :
  expiry_for now (Some (Hub.Fin d)) e -> (now + Qmax 0 d + 5 <= t)%Q -> reached t e.
Proof.
  unfold expiry_for, reached. intros [x [-> Hx]] L. lra.
Qed.

End TranscriptWindow.

(** X6: a transcript published with a body that is not blank is readable
    at once and for at least the five seconds of grace whatever the
    duration prefix is, its text is never empty, and with a duration
    prefix that parses to a finite number d it reads as the empty string
    from now + max(0, d) + 5 on. *)
Theorem publish_then_read (float : string -> option Hub.pyfloat)
  (now : Q) (raw : string) (st : Hub.state) :
  PyStr.is_empty (PyStr.strip raw) = false ->
  let st' := fst (Hub.receive_transcript float now raw st) in
  exists duration_str text,
    body_parts (PyStr.strip raw) duration_str text
    /\ text <> EmptyString
    /\ (forall t, (t < now + 5)%Q ->
          Hub.latest_transcript t st'
          = Hub.mkResp 200 (Hub.BJson [("transcript", text)]))
    /\ (forall d t, float duration_str = Some (Hub.Fin d) ->
          (now + Qmax 0 d + 5 <= t)%Q ->
          Hub.latest_transcript t st'
          = Hub.mkResp 200 (Hub.BJson [("transcript", "")])).
Proof.
  intros H st'. subst st'.
  destruct (publish_replaces float now raw st H) as [d [text [e [B [E X]]]]].
  exists d, text. rewrite E. cbn [fst].
  split; [exact B|]. split; [eapply body_parts_text, B|]. split.
  - intros t L.
    rewrite (read_visible t (Hub.set_transcript text e st)); [reflexivity|].
    cbn. eapply expiry_at_least_grace; [exact X|exact L].
  - intros q t F L. rewrite F in X.
    apply (read_expired t (Hub.set_transcript text e st)).
    cbn. eapply expiry_reached; [exact X|exact L].
Qed.

(** X6 on a run: the body 3 hello published at time 100. *)
Lemma publish_then_read_witness :
  exists duration_str text,
    body_parts (PyStr.strip "3 hello") duration_str text
    /\ text <> EmptyString
    /\ (forall t, (t < 100 + 5)%Q ->
          Hub.latest_transcript t (fst (Hub.receive_transcript decimal_float 100 "3 hello" Hub.initial))
          = Hub.mkResp 200 (Hub.BJson [("transcript", text)]))
    /\ (forall d t, decimal_float duration_str = Some (Hub.Fin d) ->
          (100 + Qmax 0 d + 5 <= t)%Q ->
          Hub.latest_transcript t (fst (Hub.receive_transcript decimal_float 100 "3 hello" Hub.initial))
          = Hub.mkResp 200 (Hub.BJson [("transcript", "")])).
Proof.
  apply (publish_then_read decimal_float 100 "3 hello" Hub.initial).
  reflexivity.
Defined.

(** ** Agent to hub: the transcript wire format *)

Section WireFormat.
Import PyStr.
Variable float : string -> option Hub.pyfloat.

Lemma lstrip_rstrip t : lstrip (rstrip t) = rstrip (lstrip t).
Proof.
  induction t as [|c t IH]; [reflexivity|].
  cbn [lstrip rstrip]. destruct (is_space c) eqn:E.
  - rewrite andb_true_r. destruct (is_empty (rstrip t)) eqn:R.
    + apply is_empty_true in R. rewrite <- IH, R. reflexivity.
    + cbn [lstrip]. now rewrite E.
  - rewrite andb_false_r. cbn [lstrip rstrip]. rewrite E.
    now rewrite andb_false_r.
Qed.

Lemma lstrip_idem t : lstrip (lstrip t) = lstrip t.
Proof.
  destruct (lstrip_head t) as [->|[c [r [-> E]]]]; [reflexivity|].
  now apply lstrip_nospace_head.
Qed.

Lemma strip_idem t : strip (strip t) = strip t.
Proof.
  unfold strip. now rewrite <- lstrip_rstrip, rstrip_idem, lstrip_rstrip, lstrip_idem.
Qed.

Lemma rstrip_app a b :
  rstrip (a +:+ b) = if is_empty (rstrip b) then rstrip a else a +:+ rstrip b.
Proof.
  induction a as [|c a IH].
  - rewrite !append_nil_l. now destruct (rstrip b).
  - rewrite append_cons. cbn [rstrip]. rewrite IH.
    destruct (is_empty (rstrip b)) eqn:R; [reflexivity|].
    rewrite append_cons.
    destruct (a +:+ rstrip b) eqn:A; [|reflexivity].
    destruct a; [|discriminate A]. rewrite append_nil_l in A.
    rewrite A in R. discriminate R.
Qed.

Lemma span_token_app d c r :
  no_space d -> is_space c = true ->
  span_token (d +:+ String c r) = (d, String c r).
Proof.
  unfold no_space. intros N C. induction d as [|x d IH].
  - rewrite append_nil_l. cbn. now rewrite C.
  - rewrite append_cons. cbn in *. apply andb_prop in N as [Nx Nd].
    apply negb_true_iff in Nx. now rewrite Nx, (IH Nd).
Qed.

Lemma lstrip_token d x :
  d <> EmptyString -> no_space d -> lstrip (d +:+ x) = d +:+ x.
Proof.
  unfold no_space. destruct d as [|c d]; [congruence|]. intros _ N.
  cbn in N. apply andb_prop in N as [Nc _]. apply negb_true_iff in Nc.
  rewrite append_cons. now apply lstrip_nospace_head.
Qed.

Lemma rstrip_space_text t :
  rstrip (String " "%char t) =
  if is_empty (rstrip t) then EmptyString else String " "%char (rstrip t).
Proof. cbn [rstrip]. now destruct (is_empty (rstrip t)). Qed.

(** The body [d + " " + t] as the hub reads it. *)
Lemma wire_parts d t :
  d <> EmptyString -> no_space d ->
  strip (d +:+ " " +:+ t) = (if is_empty (strip t) then d else d +:+ " " +:+ rstrip t)
  /\ Hub.duration_and_text (strip (d +:+ " " +:+ t))
     = Some (if is_empty (strip t) then ("0", d) else (d, strip t)).
Proof.
  intros D N.
  assert (E : is_empty (strip t) = is_empty (rstrip t)).
  { unfold strip. rewrite <- lstrip_rstrip.
    destruct (rstrip t) as [|c r] eqn:R; [reflexivity|].
    pose proof (rstrip_idem t) as I. rewrite R in I.
    destruct (lstrip (String c r)) eqn:L; [|reflexivity].
    destruct (lstrip_split (String c r)) as [ws [Ews B]].
    rewrite L, append_nil_r in Ews. subst ws.
    rewrite (rstrip_blank _ B) in I. discriminate I. }
  assert (S : strip (d +:+ " " +:+ t)
              = (if is_empty (strip t) then d else d +:+ " " +:+ rstrip t)).
  { unfold strip at 1. rewrite (lstrip_token d _ D N), rstrip_app.
    change (" " +:+ t) with (String " "%char t). rewrite rstrip_space_text, E.
    destruct (is_empty (rstrip t)); [now apply rstrip_no_space|reflexivity]. }
  split; [exact S|]. rewrite S.
  unfold Hub.duration_and_text, split_max1.
  destruct (is_empty (strip t)) eqn:T.
  - replace d with (d +:+ EmptyString) by apply append_nil_r.
    rewrite (lstrip_token d _ D N), append_nil_r.
    destruct d as [|c d]; [congruence|]. cbn [is_empty].
    pose proof (span_token_spec (String c d)) as [A [_ R]].
    destruct (span_token (String c d)) as [tok rest]. cbn [fst snd] in A, R.
    assert (rest = EmptyString) as ->.
    { destruct R as [R|[x [y [R X]]]]; [exact R|]. subst rest.
      exfalso. unfold no_space in N. rewrite A, all_chars_app in N.
      apply andb_prop in N as [_ N]. cbn in N. now rewrite X in N. }
    rewrite append_nil_r in A. subst tok. reflexivity.
  - rewrite (lstrip_token d _ D N).
    assert (Hne : is_empty (d +:+ " " +:+ rstrip t) = false)
      by (destruct d; [congruence|reflexivity]).
    rewrite Hne. change (" " +:+ rstrip t) with (String " "%char (rstrip t)).
    rewrite (span_token_app d " "%char _ N eq_refl).
    cbn [lstrip is_space]. change (is_space " "%char) with true. cbv iota.
    rewrite lstrip_rstrip. fold (strip t). rewrite T.
    now destruct d.
Qed.

End WireFormat.

Lemma wire_received (float : string -> option Hub.pyfloat)
  (now : Q) (d t : string) (st : Hub.state) :
  d <> EmptyString -> no_space d ->
  exists e,
    Hub.receive_transcript float now (d +:+ " " +:+ t) st
    = (Hub.set_transcript (if PyStr.is_empty (PyStr.strip t) then d else PyStr.strip t) e st,
       Hub.json_ok)
    /\ expiry_for now (float (if PyStr.is_empty (PyStr.strip t) then "0" else d)) e.
Proof.
  intros D N. destruct (wire_parts d t D N) as [S P].
  unfold Hub.receive_transcript. rewrite P.
  assert (Hne : PyStr.is_empty (PyStr.strip (d +:+ " " +:+ t)) = false).
  { rewrite S. destruct (PyStr.is_empty (PyStr.strip t)); now destruct d. }
  rewrite Hne.
  destruct (PyStr.is_empty (PyStr.strip t)); eexists; (split; [reflexivity|]);
    apply expiry_of_duration.
Qed.

(** X7: the text-with-duration wire format of [send_transcript_to_server]
    as the hub decodes it: a body built as a whitespace-free duration
    token, one space and a text stores the stripped text with the expiry
    of that duration; but when the text is blank the hub takes the
    duration token itself for the text, with duration 0. *)
Theorem transcript_wire_format (float : string -> option Hub.pyfloat)
  (now : Q) (d t : string) (st : Hub.state) :
  d <> EmptyString -> no_space d ->
  exists e,
    Hub.receive_transcript float now (d +:+ " " +:+ t) st
    = (Hub.set_transcript (if PyStr.is_empty (PyStr.strip t) then d else PyStr.strip t) e st,
       Hub.json_ok)
    /\ expiry_for now (float (if PyStr.is_empty (PyStr.strip t) then "0" else d)) e.
Proof. apply wire_received. Qed.

(** X7 on a run: a report of the music flow, and a lyric line without
    text. *)
Lemma transcript_wire_format_witness :
  (exists e,
     Hub.receive_transcript decimal_float 0 ("5" +:+ " " +:+ "No Song Name found") Hub.initial
     = (Hub.set_transcript "No Song Name found" e Hub.initial, Hub.json_ok)
     /\ expiry_for 0 (decimal_float "5") e)
  /\ (exists e,
        Hub.receive_transcript decimal_float 0 ("10" +:+ " " +:+ "") Hub.initial
        = (Hub.set_transcript "10" e Hub.initial, Hub.json_ok)
        /\ expiry_for 0 (decimal_float "0") e).
Proof.
  split.
  - apply (transcript_wire_format decimal_float 0 "5" "No Song Name found" Hub.initial);
      [discriminate|reflexivity].
  - apply (transcript_wire_format decimal_float 0 "10" "" Hub.initial);
      [discriminate|reflexivity].
Defined.

(** X8: a lyric line travels unchanged from the parser to the display: for
    every line the parser keeps, the body the streaming loop posts makes
    the hub store exactly the parsed text, with the expiry of the posted
    duration 10; unless the parsed text is empty, when the hub shows the
    text 10 instead, with duration 0. *)
Theorem lyric_line_displayed (float : string -> option Hub.pyfloat)
  (py : Lyrics.arith) (now : Q) (line : string) (t : Hub.pyfloat) (text : string)
  (st : Hub.state) :
  Lyrics.line_entry py line = inr (Some (t, text)) ->
  exists e,
    Hub.receive_transcript float now ("10 " +:+ text) st
    = (Hub.set_transcript (if PyStr.is_empty text then "10" else text) e st, Hub.json_ok)
    /\ expiry_for now (float (if PyStr.is_empty text then "0" else "10")) e.
Proof.
  intros L.
  assert (T : PyStr.strip text = text).
  { unfold Lyrics.line_entry in L.
    destruct (Lyrics.match_line line) as [[[g1 [ip fp]] g3]|]; [|discriminate L].
    destruct (Lyrics.int_of py g1) as [|minutes]; [discriminate L|].
    destruct (Lyrics.float py _) as [seconds|]; [|discriminate L].
    destruct (Lyrics.add_int_float py _ seconds); [discriminate L|].
    injection L as _ <-. apply strip_idem. }
  destruct (wire_received float now "10" text st) as [e [E X]];
    [discriminate|reflexivity|].
  rewrite T in E, X. exists e. split; [exact E|exact X].
Qed.

(** X8 on a run: a line with text and a line without. *)
Lemma lyric_line_displayed_witness :
  (exists e,
     Hub.receive_transcript decimal_float 7 ("10 " +:+ "Hello  there") Hub.initial
     = (Hub.set_transcript "Hello  there" e Hub.initial, Hub.json_ok)
     /\ expiry_for 7 (decimal_float "10") e)
  /\ (exists e,
        Hub.receive_transcript decimal_float 7 ("10 " +:+ "") Hub.initial
        = (Hub.set_transcript "10" e Hub.initial, Hub.json_ok)
        /\ expiry_for 7 (decimal_float "0") e).
Proof.
  split.
  - apply (lyric_line_displayed decimal_float binary64 7 "[00:12.50] Hello  there "
             (Hub.Fin (25 # 2)) "Hello  there" Hub.initial).
    vm_compute. reflexivity.
  - apply (lyric_line_displayed decimal_float binary64 7 "[00:12.50]"
             (Hub.Fin (25 # 2)) "" Hub.initial).
    vm_compute. reflexivity.
Defined.

(** ** Agent: the serial port and the snapshots *)

Section SerialPort.
Import PyStr.

Lemma port_after_app open evs1 evs2 :
  port_after open (evs1 ++ evs2) =
  match port_after open evs1 with
  | Some open' => port_after open' evs2
  | None => None
  end.
Proof.
  revert open; induction evs1 as [|e evs1 IH]; intros open; [reflexivity|].
  destruct e; cbn; destruct open; auto.
Qed.

Lemma port_after_init t : port_after false (Agent.init_serial t) = Some true.
Proof.
  unfold Agent.init_serial.
  induction (Agent.open_failures t) as [|n IH]; [reflexivity|exact IH].
Qed.

Lemma port_after_send cmd t ser :
  port_after ser (snd (Agent.send_command_to_arduino cmd t ser))
  = Some (fst (Agent.send_command_to_arduino cmd t ser)).
Proof.
  unfold Agent.send_command_to_arduino.
  destruct cmd as [|c r]; [reflexivity|].
  destruct (Agent.write_ok t); cbn [fst snd]; rewrite port_after_app;
    destruct ser; rewrite ?port_after_init; reflexivity.
Qed.

Lemma port_after_step t s :
  port_after (Agent.ser_open s) (snd (Agent.poll_step t s))
  = Some (Agent.ser_open (fst (Agent.poll_step t s))).
Proof.
  unfold Agent.poll_step.
  destruct (Agent.polled t) as [|code text]; [reflexivity|].
  destruct (negb (Z.eqb code 200)); [reflexivity|].
  destruct (String.eqb (Agent.token_of text) "PHOTO").
  - destruct (Agent.last_frame_jpeg t); reflexivity.
  - destruct (Agent.dirs !! Agent.token_of text) as [cmd|]; [|reflexivity].
    destruct (bool_decide _); [reflexivity|].
    pose proof (port_after_send cmd t (Agent.ser_open s)) as P.
    destruct (Agent.send_command_to_arduino cmd t (Agent.ser_open s)) as [ser evs].
    exact P.
Qed.

Lemma port_after_loop ts s :
  port_after (Agent.ser_open s) (snd (Agent.poll_loop ts s))
  = Some (Agent.ser_open (fst (Agent.poll_loop ts s))).
Proof.
  revert s; induction ts as [|t ts IH]; intros s; [reflexivity|].
  rewrite poll_loop_cons. cbn [fst snd].
  now rewrite port_after_app, port_after_step, IH.
Qed.

Lemma photo_saves_app a b :
  Agent.photo_saves (a ++ b) = Agent.photo_saves a ++ Agent.photo_saves b.
Proof.
  induction a as [|e a IH]; [reflexivity|].
  destruct e; cbn; now rewrite IH.
Qed.

Lemma photo_saves_send cmd t ser :
  Agent.photo_saves (snd (Agent.send_command_to_arduino cmd t ser)) = [].
Proof.
  unfold Agent.send_command_to_arduino.
  destruct cmd as [|c r]; [reflexivity|].
  assert (I : Agent.photo_saves (Agent.init_serial t) = []).
  { unfold Agent.init_serial. rewrite photo_saves_app. cbn.
    induction (Agent.open_failures t) as [|n IH]; [reflexivity|exact IH]. }
  destruct (Agent.write_ok t); cbn [snd]; rewrite photo_saves_app;
    destruct ser; rewrite ?I; reflexivity.
Qed.

Lemma photo_saves_step t s :
  Agent.photo_saves (snd (Agent.poll_step t s)) =
  match snapshot_of t with
  | Some snapshot => [snapshot]
  | None => []
  end.
Proof.
  unfold snapshot_of, polled_token, Agent.poll_step.
  destruct (Agent.polled t) as [|code text]; [reflexivity|].
  destruct (negb (Z.eqb code 200)); [reflexivity|].
  destruct (String.eqb_spec (Agent.token_of text) "PHOTO") as [E|E].
  - rewrite E. rewrite bool_decide_eq_true_2 by reflexivity.
    now destruct (Agent.last_frame_jpeg t).
  - rewrite bool_decide_eq_false_2 by congruence.
    destruct (Agent.dirs !! Agent.token_of text) as [cmd|]; [|reflexivity].
    destruct (bool_decide _); [reflexivity|].
    pose proof (photo_saves_send cmd t (Agent.ser_open s)) as P.
    now destruct (Agent.send_command_to_arduino cmd t (Agent.ser_open s)).
Qed.

Lemma failed_write_step t s cmd c :
  mapped_of t = Some cmd -> cmd = String c EmptyString ->
  Agent.last_cmd s <> Some cmd -> Agent.write_ok t = false ->
  Agent.serial_writes (snd (Agent.poll_step t s)) = [(c, false)]
  /\ Agent.last_cmd (fst (Agent.poll_step t s)) = Some cmd
  /\ Agent.ser_open (fst (Agent.poll_step t s)) = false.
Proof.
  unfold mapped_of, Agent.poll_step. intros M -> L W.
  destruct (Agent.polled t) as [|code text]; [discriminate M|].
  destruct (negb (Z.eqb code 200)); [discriminate M|].
  destruct (String.eqb (Agent.token_of text) "PHOTO"); [discriminate M|].
  rewrite M. rewrite bool_decide_eq_false_2 by congruence.
  unfold Agent.send_command_to_arduino. rewrite W. cbn [fst snd Agent.last_cmd Agent.ser_open].
  rewrite serial_writes_app. destruct (Agent.ser_open s); cbn [Agent.serial_writes app];
    rewrite ?serial_writes_init; auto.
Qed.

Lemma same_command_silent ts s cmd :
  Forall (fun t => mapped_of t = Some cmd \/ mapped_of t = None) ts ->
  Agent.last_cmd s = Some cmd ->
  Agent.serial_writes (snd (Agent.poll_loop ts s)) = []
  /\ Agent.ser_open (fst (Agent.poll_loop ts s)) = Agent.ser_open s.
Proof.
  intros F. revert s. induction F as [|t ts M _ IH]; intros s L; [now split|].
  rewrite poll_loop_cons. cbn [fst snd].
  pose proof (poll_step_spec t s) as S.
  assert (E : Agent.poll_step t s = (s, []) \/
              (fst (Agent.poll_step t s) = s
               /\ Agent.serial_writes (snd (Agent.poll_step t s)) = [])).
  { destruct M as [M|M]; rewrite M in S.
    - left. rewrite L in S. now destruct (decide (Some cmd = Some cmd)).
    - now right. }
  destruct E as [E|[E1 E2]].
  - rewrite E. cbn [fst snd app]. now apply IH.
  - rewrite E1, serial_writes_app, E2.
    cbn [app]. now apply IH.
Qed.

End SerialPort.

(** X9: the loop respects the serial port: over any number of iterations
    and whatever the devices do, it never writes to a closed port and
    never opens an open one, and the handle it ends with is open exactly
    when the events say so (a write that raised leaves it closed until the
    next send re-opens it). *)
Theorem serial_port_protocol (ts : list Agent.tick) (s : Agent.loop_state) :
  port_after (Agent.ser_open s) (snd (Agent.poll_loop ts s))
  = Some (Agent.ser_open (fst (Agent.poll_loop ts s))).
Proof. apply port_after_loop. Qed.

Example reopen_after_failed_write :
  Agent.poll_loop
    [Agent.mkTick (Agent.PollReply 200 "FORWARD") None true 0 false;
     Agent.mkTick (Agent.PollReply 200 "LEFT") None true 2 true]
    Agent.loop_start
  = (Agent.mkLoop (Some "A") true,
     [Agent.SerialWrite "W"%char false; Agent.SerialOpenFailed; Agent.SerialOpenFailed;
      Agent.SerialOpened; Agent.SerialWrite "A"%char true]).
Proof. reflexivity. Qed.

(** X10: a command whose serial write raises is lost: the loop records it
    as forwarded all the same, so while the polls keep standing for that
    command (or for none) it is never written again, and the port stays
    closed. *)
Theorem failed_write_not_retried (t : Agent.tick) (ts : list Agent.tick)
  (s : Agent.loop_state) (cmd : string) :
  mapped_of t = Some cmd ->
  Agent.last_cmd s <> Some cmd ->
  Agent.write_ok t = false ->
  Forall (fun t' => mapped_of t' = Some cmd \/ mapped_of t' = None) ts ->
  exists c,
    cmd = String c EmptyString
    /\ Agent.serial_writes (snd (Agent.poll_loop (t :: ts) s)) = [(c, false)]
    /\ Agent.ser_open (fst (Agent.poll_loop (t :: ts) s)) = false.
Proof.
  intros M L W F.
  assert (V : exists c, cmd = String c EmptyString).
  { pose proof (mapped_of_values t cmd M) as V. simpl in V.
    destruct V as [<-|[<-|[<-|[<-|[<-|[]]]]]]; eexists; reflexivity. }
  destruct V as [c C]. exists c. split; [exact C|].
  destruct (failed_write_step t s cmd c M C L W) as [A [L' O]].
  destruct (same_command_silent ts (fst (Agent.poll_step t s)) cmd F L') as [A' O'].
  rewrite poll_loop_cons. cbn [fst snd].
  rewrite serial_writes_app, A, A', O', O. split; reflexivity.
Qed.

(** X10 on a run: FORWARD polled four times, the first write raising. *)
Lemma failed_write_not_retried_witness :
  exists c,
    "W" = String c EmptyString
    /\ Agent.serial_writes
         (snd (Agent.poll_loop
                 (Agent.mkTick (Agent.PollReply 200 "FORWARD") None true 0 false
                  :: [reply "FORWARD"; reply "nonsense"; reply "FORWARD"])
                 Agent.loop_start))
       = [(c, false)]
    /\ Agent.ser_open
         (fst (Agent.poll_loop
                 (Agent.mkTick (Agent.PollReply 200 "FORWARD") None true 0 false
                  :: [reply "FORWARD"; reply "nonsense"; reply "FORWARD"])
                 Agent.loop_start))
       = false.
Proof.
  apply (failed_write_not_retried
           (Agent.mkTick (Agent.PollReply 200 "FORWARD") None true 0 false)
           [reply "FORWARD"; reply "nonsense"; reply "FORWARD"] Agent.loop_start "W").
  - reflexivity.
  - discriminate.
  - reflexivity.
  - repeat constructor; vm_compute; tauto.
Defined.

Lemma photos_written_filter evs :
  Agent.photos_written evs = map fst (List.filter snd (Agent.photo_saves evs)).
Proof.
  induction evs as [|e evs IH]; [reflexivity|].
  destruct e as [| | |d [|]]; simpl; now rewrite IH.
Qed.

Lemma snapshot_files ts :
  map fst (List.filter snd (omap snapshot_of ts)) = omap snapshot_file ts.
Proof.
  induction ts as [|t ts IH]; [reflexivity|].
  assert (C1 : omap snapshot_of (t :: ts)
               = match snapshot_of t with
                 | Some x => x :: omap snapshot_of ts
                 | None => omap snapshot_of ts
                 end) by reflexivity.
  assert (C2 : omap snapshot_file (t :: ts)
               = match snapshot_file t with
                 | Some x => x :: omap snapshot_file ts
                 | None => omap snapshot_file ts
                 end) by reflexivity.
  rewrite C1, C2. unfold snapshot_file at 1.
  destruct (snapshot_of t) as [[d [|]]|]; cbn [List.filter snd map fst];
    now rewrite IH.
Qed.

Lemma photo_saves_loop ts s :
  Agent.photo_saves (snd (Agent.poll_loop ts s)) = omap snapshot_of ts.
Proof.
  revert s; induction ts as [|t ts IH]; intros s; [reflexivity|].
  rewrite poll_loop_cons. cbn [snd]. rewrite photo_saves_app, IH, photo_saves_step.
  simpl omap. now destruct (snapshot_of t).
Qed.

(** X11: PHOTO is not debounced: over any number of iterations the
    handler sets out to write one snapshot for every poll whose token is
    PHOTO and that finds a captured frame, with that frame as content,
    and none for any other poll.  The file is written exactly when
    creating and writing it does not raise; a snapshot that failed is not
    tried again. *)
Theorem photo_saved_per_poll (ts : list Agent.tick) (s : Agent.loop_state) :
  Agent.photo_saves (snd (Agent.poll_loop ts s)) = omap snapshot_of ts
  /\ Agent.photos_written (snd (Agent.poll_loop ts s)) = omap snapshot_file ts.
Proof.
  split; [apply photo_saves_loop|].
  rewrite photos_written_filter, photo_saves_loop. apply snapshot_files.
Qed.

Example photo_held :
  Agent.photos_written
    (snd (Agent.poll_loop
            [reply "PHOTO";
             Agent.mkTick (Agent.PollReply 200 "PHOTO") (Some sample_audio) false 0 true;
             reply "FORWARD"; reply "photo"]
            Agent.loop_start))
  = [sample_frame; sample_frame].
Proof. reflexivity. Qed.

(** ** Agent: the two request flows *)

Section Flows.
Import PyStr.

Lemma audio_duration_bound bound :
  Agent.load_name (Agent.mkScope Agent.chatgpt_locals bound) "audio_duration"
  = if bool_decide ("audio_duration" ∈ bound) then None
    else Some (Agent.UnboundLocalError "audio_duration").
Proof.
  unfold Agent.load_name. cbn [Agent.locals Agent.bound].
  assert (L : bool_decide ("audio_duration" ∈ Agent.chatgpt_locals) = true)
    by (vm_compute; reflexivity).
  now rewrite L.
Qed.

(** The decision table of the generic flow, once the client is there. *)
Lemma chatgpt_flow_table e cached construct :
  fst (Agent.get_openai_client cached construct) = Gives tt ->
  Agent.handle_chatgpt_tts_flow e cached construct =
  match Agent.chat_reply e with
  | Raises => (None, [])
  | Gives reply =>
      match Agent.tts e, Agent.duration_text e with
      | Gives _, Gives d =>
          match reply with
          | Some r => (None, [d +:+ " " +:+ r])
          | None => (Some Agent.TypeError, [])
          end
      | _, _ => (Some (Agent.UnboundLocalError "audio_duration"), [])
      end
  end.
Proof.
  intros C. unfold Agent.handle_chatgpt_tts_flow. rewrite C.
  destruct (Agent.chat_reply e) as [|reply]; [reflexivity|].
  destruct (Agent.tts e) as [|[]]; [reflexivity|].
  destruct (Agent.duration_text e) as [|d]; reflexivity.
Qed.

End Flows.

(** X12: the generic flow, with the client at hand.  When the chat
    completion fails it returns without posting.  When speech synthesis or
    the duration probe fails, the except clause lets the flow go on, and
    the post then reads the never-assigned [audio_duration]: the flow ends
    in the unbound-local error and posts nothing.  Only when all three
    succeed does it post, once, the duration, a space and the reply. *)
Theorem chatgpt_flow_outcomes (e : Agent.chat_env) (cached : bool) (construct : ext unit) :
  fst (Agent.get_openai_client cached construct) = Gives tt ->
  (Agent.chat_reply e = Raises ->
   Agent.handle_chatgpt_tts_flow e cached construct = (None, []))
  /\ (forall reply, Agent.chat_reply e = Gives reply ->
        Agent.tts e = Raises \/ Agent.duration_text e = Raises ->
        Agent.handle_chatgpt_tts_flow e cached construct
        = (Some (Agent.UnboundLocalError "audio_duration"), []))
  /\ (forall r d, Agent.chat_reply e = Gives (Some r) ->
        Agent.tts e = Gives tt -> Agent.duration_text e = Gives d ->
        Agent.handle_chatgpt_tts_flow e cached construct = (None, [d +:+ " " +:+ r]))
  /\ length (snd (Agent.handle_chatgpt_tts_flow e cached construct)) <= 1.
Proof.
  intros C. rewrite (chatgpt_flow_table e cached construct C).
  repeat split.
  - now intros ->.
  - intros reply -> [T|D].
    + now rewrite T.
    + rewrite D. now destruct (Agent.tts e).
  - now intros r d -> -> ->.
  - destruct (Agent.chat_reply e) as [|[r|]]; cbn; try lia;
      destruct (Agent.tts e); cbn; try lia;
      destruct (Agent.duration_text e); cbn; lia.
Qed.

(** X12 on a run: speech synthesis fails after the chat completion
    answered. *)
Lemma chatgpt_flow_outcomes_witness :
  Agent.handle_chatgpt_tts_flow (Agent.mkChatEnv (Gives (Some "Noon")) Raises (Gives "1.5"))
    false (Gives tt)
  = (Some (Agent.UnboundLocalError "audio_duration"), []).
Proof.
  apply (proj1 (proj2 (chatgpt_flow_outcomes
                         (Agent.mkChatEnv (Gives (Some "Noon")) Raises (Gives "1.5"))
                         false (Gives tt) eq_refl))
               (Some "Noon")).
  - reflexivity.
  - now left.
Defined.



(** ** Hub and agent: the audio hand-off end to end *)

Section HandoffEndToEnd.

Lemma idle_poll_step dev other cached :
  AudioLoop.poll_step
    (AudioLoop.mkTick (audio_poll (Hub.mkResp 204 Hub.BEmpty) other)
       (AudioLoop.save_ok dev) (AudioLoop.request dev) (AudioLoop.fuel dev)) cached
  = AudioLoop.mkIteration None [] AudioLoop.NoAudio.
Proof. reflexivity. Qed.

Lemma handoff_idle files dev other hub cached :
  Hub.pending_audio_ready hub = false ->
  handoff files dev other hub cached
  = (hub, repeat (AudioLoop.mkIteration None [] AudioLoop.NoAudio) (length files)).
Proof.
  intros P. revert cached. induction files as [|f fs IH]; intros cached; [reflexivity|].
  cbn [handoff]. unfold Hub.audio. rewrite P. cbn [negb].
  rewrite IH. cbn [length repeat]. now rewrite idle_poll_step.
Qed.

Lemma saved_of_step polled save request fuel cached content :
  polled = AudioLoop.PollReply 200 content ->
  AudioLoop.saved (AudioLoop.poll_step (AudioLoop.mkTick polled save request fuel) cached)
  = match content with
    | [] => None
    | _ :: _ => if save then Some content else None
    end.
Proof.
  intros ->. unfold AudioLoop.poll_step. cbn [AudioLoop.polled AudioLoop.save_ok].
  change (Z.eqb 200 204) with false. change (Z.eqb 200 200) with true.
  destruct content as [|b data]; [reflexivity|].
  cbn [orb AudioLoop.is_nil negb]. destruct save; [|reflexivity].
  cbn [negb AudioLoop.request AudioLoop.fuel].
  now destruct (Agent.process_audio_file fuel request cached) as [[| |] bodies].
Qed.

Lemma saved_of_failed_get polled save request fuel cached other :
  polled = AudioLoop.PollReply 500 other ->
  AudioLoop.saved (AudioLoop.poll_step (AudioLoop.mkTick polled save request fuel) cached)
  = None.
Proof.
  intros ->. unfold AudioLoop.poll_step. cbn [AudioLoop.polled].
  change (Z.eqb 500 204) with false. change (Z.eqb 500 200) with false.
  now destruct (AudioLoop.is_nil other).
Qed.

Lemma omap_saved_idle n :
  omap AudioLoop.saved (repeat (AudioLoop.mkIteration None [] AudioLoop.NoAudio) n) = [].
Proof. induction n as [|n IH]; [reflexivity|exact IH]. Qed.

Lemma handoff_pending file files dev other hub cached :
  Hub.pending_audio_ready hub = true ->
  AudioLoop.save_ok dev = true ->
  omap AudioLoop.saved (snd (handoff (file :: files) dev other hub cached))
  = match file with
    | Some (b :: data) => [b :: data]
    | _ => []
    end
  /\ Hub.pending_audio_ready (fst (handoff (file :: files) dev other hub cached)) = false.
Proof.
  intros P S. cbn [handoff]. rewrite (first_poll file hub P).
  rewrite handoff_idle by reflexivity. cbn [fst snd]. split; [|reflexivity].
  simpl omap. rewrite omap_saved_idle.
  destruct file as [content|].
  - rewrite (saved_of_step _ _ _ _ _ content eq_refl), S.
    now destruct content.
  - now rewrite (saved_of_failed_get _ _ _ _ _ other eq_refl).
Qed.

End HandoffEndToEnd.

(** X14: the audio hand-off end to end.  After a batch of triggers of
    which at least one found the file, however often the agent polls, it
    writes at most one audio file: exactly the bytes the hub read at the
    first poll, whatever the processing of the request then does.  When
    the hub cannot read the file at that poll, or reads an empty file, the
    trigger is consumed and the agent writes nothing. *)
Theorem handoff_saves_once (float : string -> option Hub.pyfloat)
  (es : list bool) (file : option Hub.bytes) (files : list (option Hub.bytes))
  (dev : AudioLoop.tick) (other : Hub.bytes) (hub : Hub.state) (cached : bool) :
  In true es ->
  AudioLoop.save_ok dev = true ->
  let hub1 := after float (map Hub.PostSendAudio es) hub in
  omap AudioLoop.saved (snd (handoff (file :: files) dev other hub1 cached))
  = match file with
    | Some (b :: data) => [b :: data]
    | _ => []
    end
  /\ Hub.pending_audio_ready (fst (handoff (file :: files) dev other hub1 cached)) = false.
Proof.
  intros T S hub1. subst hub1. rewrite (triggers_pending float es hub T).
  now apply handoff_pending.
Qed.

(** X14 on a run: two triggers, then three polls. *)
Lemma handoff_saves_once_witness :
  omap AudioLoop.saved
    (snd (handoff [Some sample_audio; Some sample_audio; None] audio_dev []
            (after (fun _ => None) (map Hub.PostSendAudio [true; true]) Hub.initial) false))
  = [sample_audio]
  /\ Hub.pending_audio_ready
       (fst (handoff [Some sample_audio; Some sample_audio; None] audio_dev []
               (after (fun _ => None) (map Hub.PostSendAudio [true; true]) Hub.initial)
               false))
     = false.
Proof.
  apply (handoff_saves_once (fun _ => None) [true; true] (Some sample_audio)
           [Some sample_audio; None] audio_dev [] Hub.initial false).
  - simpl. tauto.
  - reflexivity.
Defined.

Section GenericRequest.
Import PyStr.

Lemma process_generic fuel e cached text :
  fst (Agent.get_openai_client cached (Agent.construct_client e)) = Gives tt ->
  Agent.transcription e = Gives (Some text) ->
  is_empty text = false ->
  existsb (fun keyword => contains keyword (lower text)) Agent.music_keywords = false ->
  Agent.process_audio_file fuel e cached
  = (Agent.Raised
       (default (Agent.NameError "song_name")
          (fst (Agent.handle_chatgpt_tts_flow (Agent.generic e) true
                  (Agent.construct_client e)))),
     snd (Agent.handle_chatgpt_tts_flow (Agent.generic e) true (Agent.construct_client e))).
Proof.
  intros C T N K. unfold Agent.process_audio_file.
  rewrite (client_cached _ _ C), T, N, K.
  destruct (Agent.handle_chatgpt_tts_flow (Agent.generic e) true (Agent.construct_client e))
    as [[err|] bodies]; [reflexivity|].
  unfold Agent.bind; cbn [Agent.locals]. now rewrite song_name_unbound.
Qed.

End GenericRequest.

(** X15: every generic voice request that succeeds ends in the loop's
    catch-all.  When audio arrives and is saved, the transcript names no
    music, and chat completion, speech synthesis and duration probe all
    succeed, the iteration saves the audio, posts the reply once, and then
    ends with the unexpected-error report for the unbound [song_name]; the
    next iteration finds the client built. *)
Theorem generic_request_iteration (t : AudioLoop.tick) (cached : bool)
  (b : Byte.byte) (content : Hub.bytes) (text reply d : string) :
  AudioLoop.polled t = AudioLoop.PollReply 200 (b :: content) ->
  AudioLoop.save_ok t = true ->
  fst (Agent.get_openai_client cached (Agent.construct_client (AudioLoop.request t)))
  = Gives tt ->
  Agent.transcription (AudioLoop.request t) = Gives (Some text) ->
  PyStr.is_empty text = false ->
  existsb (fun keyword => PyStr.contains keyword (PyStr.lower text)) Agent.music_keywords
  = false ->
  Agent.chat_reply (Agent.generic (AudioLoop.request t)) = Gives (Some reply) ->
  Agent.tts (Agent.generic (AudioLoop.request t)) = Gives tt ->
  Agent.duration_text (Agent.generic (AudioLoop.request t)) = Gives d ->
  AudioLoop.poll_step t cached
  = AudioLoop.mkIteration (Some (b :: content)) [d +:+ " " +:+ reply]
      (AudioLoop.UnexpectedError (Agent.NameError "song_name"))
  /\ AudioLoop.client_after t cached = true.
Proof.
  intros P S C T N K R Tts D.
  assert (E : AudioLoop.poll_step t cached
              = AudioLoop.mkIteration (Some (b :: content)) [d +:+ " " +:+ reply]
                  (AudioLoop.UnexpectedError (Agent.NameError "song_name"))).
  { unfold AudioLoop.poll_step. rewrite P, S.
    change (Z.eqb 200 204) with false. change (Z.eqb 200 200) with true.
    cbn [orb AudioLoop.is_nil negb].
    rewrite (process_generic _ _ _ text C T N K).
    rewrite (chatgpt_flow_table _ true _ eq_refl), R, Tts, D. reflexivity. }
  split; [exact E|].
  unfold AudioLoop.client_after. rewrite E. cbn [AudioLoop.saved].
  now rewrite (client_cached _ _ C).
Qed.

(** X15 on a run: the request for the time of day. *)
Lemma generic_request_iteration_witness :
  AudioLoop.poll_step
    (AudioLoop.mkTick (AudioLoop.PollReply 200 sample_audio) true time_request 0) false
  = AudioLoop.mkIteration (Some sample_audio) ["1.5 Noon"]
      (AudioLoop.UnexpectedError (Agent.NameError "song_name")).
Proof.
  apply (generic_request_iteration
           (AudioLoop.mkTick (AudioLoop.PollReply 200 sample_audio) true time_request 0)
           false Byte.x49 [Byte.x44; Byte.x33] "What time is it" "Noon" "1.5");
    reflexivity.
Defined.

(** ** The page's key handlers against the hub *)

Section PageKeys.
Import PyStr.

Lemma page_key_cases (key : string) :
  key ∈ Page.movementKeys ++ ["x"] ->
  key = "w" \/ key = "a" \/ key = "s" \/ key = "d" \/ key = "x".
Proof.
  unfold Page.movementKeys. cbn [app].
  rewrite !elem_of_cons, elem_of_nil. tauto.
Qed.

Lemma movement_key_cases (key : string) :
  key ∈ Page.movementKeys -> key = "w" \/ key = "a" \/ key = "s" \/ key = "d".
Proof.
  unfold Page.movementKeys. rewrite !elem_of_cons, elem_of_nil. tauto.
Qed.

Lemma page_command_accepted c :
  In c ["W"; "A"; "S"; "D"; "X"] ->
  forall st, exists t,
    direction_of c = Some t /\ Hub.command_post c st = (Hub.set_command t st, Hub.json_ok).
Proof.
  intros H st. rewrite command_post_spec.
  simpl in H. destruct H as [<-|[<-|[<-|[<-|[<-|[]]]]]]; eexists; split; reflexivity.
Qed.

Lemma keydown_sent key pressed :
  Forall (fun c => In c ["W"; "A"; "S"; "D"; "X"]) (snd (Page.keydown key pressed)).
Proof.
  unfold Page.keydown.
  destruct (decide (lower key ∈ Page.movementKeys ++ ["x"])) as [Hk|Hk].
  - rewrite bool_decide_eq_true_2 by exact Hk.
    destruct (bool_decide (lower key ∈ pressed)); [constructor|].
    cbn [snd]. constructor; [|constructor].
    apply page_key_cases in Hk.
    destruct Hk as [->|[->|[->|[->| ->]]]]; vm_compute; tauto.
  - rewrite bool_decide_eq_false_2 by exact Hk. constructor.
Qed.

Lemma keyup_sent key pressed :
  Forall (fun c => In c ["W"; "A"; "S"; "D"; "X"]) (snd (Page.keyup key pressed)).
Proof.
  unfold Page.keyup.
  destruct (bool_decide (lower key ∈ Page.movementKeys)).
  - destruct (negb _); [cbn [snd]; constructor; [simpl; tauto | constructor]|].
    destruct (last _) as [k|] eqn:L; [|constructor].
    cbn [snd]. constructor; [|constructor].
    apply last_Some in L as [l' L].
    assert (Hk : k ∈ filter (fun k => k ∈ pressed ∖ {[lower key]}) Page.movementKeys).
    { rewrite L, elem_of_app, elem_of_cons. right; now left. }
    apply list_elem_of_filter in Hk as [_ Hk].
    apply movement_key_cases in Hk.
    destruct Hk as [->|[->|[->| ->]]]; vm_compute; tauto.
  - destruct (String.eqb (lower key) "x"); [|constructor].
    cbn [snd]. constructor; [simpl; tauto | constructor].
Qed.

Lemma on_event_sent ev pressed :
  Forall (fun c => In c ["W"; "A"; "S"; "D"; "X"]) (snd (Page.on_event ev pressed)).
Proof. destruct ev; [apply keydown_sent | apply keyup_sent]. Qed.

Lemma on_events_cons ev rest pressed :
  Page.on_events (ev :: rest) pressed
  = (fst (Page.on_events rest (fst (Page.on_event ev pressed))),
     snd (Page.on_event ev pressed)
     ++ snd (Page.on_events rest (fst (Page.on_event ev pressed)))).
Proof.
  cbn [Page.on_events]. destruct (Page.on_event ev pressed) as [p1 s1]. cbn [fst snd].
  now destruct (Page.on_events rest p1).
Qed.

Lemma on_events_sent evs pressed :
  Forall (fun c => In c ["W"; "A"; "S"; "D"; "X"]) (snd (Page.on_events evs pressed)).
Proof.
  revert pressed; induction evs as [|ev rest IH]; intros pressed; [constructor|].
  rewrite on_events_cons. cbn [snd]. apply Forall_app. split.
  - apply on_event_sent.
  - apply IH.
Qed.

(** A step of the page keeps this: when no movement key is left in the
    set, either nothing was sent and none was in the set before, or the
    last command sent is X. *)
Lemma on_event_released ev pressed :
  released (fst (Page.on_event ev pressed)) ->
  (snd (Page.on_event ev pressed) = [] /\ released pressed)
  \/ last (snd (Page.on_event ev pressed)) = Some "X".
Proof.
  destruct ev as [key|key]; cbn [Page.on_event].
  - unfold Page.keydown.
    destruct (decide (lower key ∈ Page.movementKeys ++ ["x"])) as [Hk|Hk].
    + rewrite bool_decide_eq_true_2 by exact Hk.
      destruct (bool_decide (lower key ∈ pressed)); [intros R; left; now split|].
      cbn [fst snd]. intros R.
      apply page_key_cases in Hk.
      destruct Hk as [E|[E|[E|[E|E]]]]; rewrite E in *;
        try (right; reflexivity);
        (exfalso;
         match type of R with
         | released ({[?k]} ∪ _) =>
             apply (R k); [simpl; tauto | apply elem_of_union_l, elem_of_singleton; reflexivity]
         end).
    + rewrite bool_decide_eq_false_2 by exact Hk. intros R; left; now split.
  - unfold Page.keyup.
    destruct (bool_decide (lower key ∈ Page.movementKeys)).
    + destruct (existsb _ _) eqn:E; cbn [negb]; [|intros _; right; reflexivity].
      intros R. exfalso.
      apply existsb_exists in E as (k & Hin & Hk).
      apply bool_decide_eq_true in Hk.
      assert (R' : released (pressed ∖ {[lower key]})).
      { now destruct (last _). }
      exact (R' k Hin Hk).
    + destruct (String.eqb (lower key) "x"); [intros _; right; reflexivity|].
      intros R; left; now split.
Qed.

Lemma on_events_released evs pressed sent0 :
  (released pressed -> sent0 = [] \/ last sent0 = Some "X") ->
  released (fst (Page.on_events evs pressed)) ->
  sent0 ++ snd (Page.on_events evs pressed) = []
  \/ last (sent0 ++ snd (Page.on_events evs pressed)) = Some "X".
Proof.
  revert pressed sent0; induction evs as [|ev rest IH]; intros pressed sent0 H0 R.
  - cbn [Page.on_events fst snd] in *. rewrite app_nil_r. now apply H0.
  - rewrite on_events_cons in *. cbn [fst snd] in *. rewrite app_assoc.
    apply IH; [|exact R]. intros R1.
    destruct (on_event_released ev pressed R1) as [[E Rp]|L].
    + rewrite E, app_nil_r. now apply H0.
    + right. now rewrite last_app, L.
Qed.

Lemma stop_token_mapped dev hub :
  In (Hub.current_command hub) ["NOT_MOVING"; "Not Moving"] ->
  mapped_of (poll_tick dev hub) = Some "X".
Proof.
  intros H. unfold mapped_of, poll_tick, command_poll. cbn [Agent.polled].
  rewrite command_get_token by (simpl in *; tauto).
  cbn [Hub.content Hub.status].
  destruct H as [<-|[<-|[]]]; reflexivity.
Qed.

Lemma posted_stop float sent st :
  In (Hub.current_command st) ["NOT_MOVING"; "Not Moving"] ->
  sent = [] \/ last sent = Some "X" ->
  In (Hub.current_command (after float (map Hub.PostCommand sent) st))
     ["NOT_MOVING"; "Not Moving"].
Proof.
  intros H [->|L]; [exact H|].
  rewrite last_accepted_after.
  apply last_Some in L as [l' ->].
  rewrite omap_app. simpl omap.
  change (direction_of (upper "X")) with (Some "Not Moving").
  cbn [option_bind mbind]. 
  rewrite last_snoc. simpl. tauto.
Qed.

End PageKeys.

(** X16: whatever keys are pressed and released, in whatever state the
    page is, every command it sends is one of W, A, S, D, X, and the hub's
    command write accepts each of them: the page never gets the
    400 reply. *)
Theorem page_commands_accepted (evs : list Page.key_event) (pressed : gset string) :
  Forall (fun c => In c ["W"; "A"; "S"; "D"; "X"]
                   /\ forall st, snd (Hub.command_post c st) = Hub.json_ok)
         (snd (Page.on_events evs pressed)).
Proof.
  eapply Forall_impl; [apply on_events_sent|].
  intros c H. split; [exact H|]. intros st.
  destruct (page_command_accepted c H st) as (t & _ & ->). reflexivity.
Qed.

(** X17: a held key is sent once.  The repeated key-down events of a key
    that stays down send what the first of them sends; the later ones send
    nothing. *)
Theorem held_key_sent_once (n : nat) (key : string) (pressed : gset string) :
  snd (Page.on_events (repeat (Page.KeyDown key) (S n)) pressed)
  = snd (Page.on_event (Page.KeyDown key) pressed).
Proof.
  cbn [repeat]. rewrite on_events_cons. cbn [snd].
  assert (H : forall p, PyStr.lower key ∈ p \/ PyStr.lower key ∉ Page.movementKeys ++ ["x"] ->
                        snd (Page.on_events (repeat (Page.KeyDown key) n) p) = []).
  { induction n as [|n IH]; intros p Hp; [reflexivity|].
    cbn [repeat]. rewrite on_events_cons. cbn [snd Page.on_event].
    assert (E : Page.keydown key p = (p, [])).
    { unfold Page.keydown.
      destruct (bool_decide (PyStr.lower key ∈ Page.movementKeys ++ ["x"])) eqn:B;
        [|reflexivity].
      destruct Hp as [Hp|Hp].
      - now rewrite bool_decide_eq_true_2 by exact Hp.
      - apply bool_decide_eq_true in B. contradiction. }
    rewrite E. cbn [fst snd]. now apply IH. }
  rewrite H; [apply app_nil_r|].
  cbn [Page.on_event]. unfold Page.keydown.
  destruct (decide (PyStr.lower key ∈ Page.movementKeys ++ ["x"])) as [Hk|Hk].
  - rewrite bool_decide_eq_true_2 by exact Hk.
    destruct (decide (PyStr.lower key ∈ pressed)) as [Hp|Hp].
    + rewrite bool_decide_eq_true_2 by exact Hp. now left.
    + rewrite bool_decide_eq_false_2 by exact Hp. cbn [fst]. left.
      apply elem_of_union_l, elem_of_singleton. reflexivity.
  - rewrite bool_decide_eq_false_2 by exact Hk. now right.
Qed.

(** X18: releasing the keys stops the robot.  From a freshly loaded page
    and a hub whose command is a stop token, after any key events whose
    commands all reach the hub: whenever the page holds no movement key as
    pressed, the hub's command is a stop token again, and the agent's next
    poll maps it to the serial command X. *)
Theorem released_keys_stop (float : string -> option Hub.pyfloat)
  (evs : list Page.key_event) (dev : Agent.tick) (st : Hub.state) :
  In (Hub.current_command st) ["NOT_MOVING"; "Not Moving"] ->
  released (fst (Page.on_events evs ∅)) ->
  let hub := after float (map Hub.PostCommand (snd (Page.on_events evs ∅))) st in
  In (Hub.current_command hub) ["NOT_MOVING"; "Not Moving"]
  /\ mapped_of (poll_tick dev hub) = Some "X".
Proof.
  intros H R hub.
  assert (S : In (Hub.current_command hub) ["NOT_MOVING"; "Not Moving"]).
  { apply posted_stop; [exact H|].
    apply (on_events_released evs ∅ []); [now left | exact R]. }
  split; [exact S | now apply stop_token_mapped].
Qed.

(** X18 on a run: two keys held together, then released. *)
Lemma released_keys_stop_witness :
  mapped_of
    (poll_tick (reply "")
       (after (fun _ => None)
          (map Hub.PostCommand
             (snd (Page.on_events
                     [Page.KeyDown "w"; Page.KeyDown "A"; Page.KeyUp "W"; Page.KeyUp "a"]
                     ∅)))
          Hub.initial))
  = Some "X".
Proof.
  apply (released_keys_stop (fun _ => None)
           [Page.KeyDown "w"; Page.KeyDown "A"; Page.KeyUp "W"; Page.KeyUp "a"]
           (reply "") Hub.initial).
  - simpl. tauto.
  - intros k H.
    simpl in H. destruct H as [<-|[<-|[<-|[<-|[]]]]];
      (eapply (bool_decide_unpack _); vm_compute; exact I).
Defined.

(** The commands of that run, as the page sends them. *)
Example two_keys_sent :
  snd (Page.on_events
         [Page.KeyDown "w"; Page.KeyDown "A"; Page.KeyUp "W"; Page.KeyUp "a"] ∅)
  = ["W"; "A"; "A"; "X"].
Proof. vm_compute. reflexivity. Qed.

(** ** The camera loop against the hub *)

Lemma film_cons t rest kept_frame hub :
  film (t :: rest) kept_frame hub
  = film rest
      (match Camera.encoded t with Some jpeg => Some jpeg | None => kept_frame end)
      (match shown_frame t with Some jpeg => Hub.set_frame jpeg hub | None => hub end).
Proof.
  cbn [film]. unfold Camera.capture, shown_frame.
  destruct (Camera.encoded t) as [[|b data]|]; destruct (Camera.delivered t);
    try reflexivity.
  now rewrite camera_frame_stored.
Qed.

Lemma film_frames ts kept_frame hub :
  fst (film ts kept_frame hub)
  = match last (omap Camera.encoded ts) with
    | Some jpeg => Some jpeg
    | None => kept_frame
    end
  /\ Hub.latest_frame_bytes (snd (film ts kept_frame hub))
     = match last (omap shown_frame ts) with
       | Some jpeg => Some jpeg
       | None => Hub.latest_frame_bytes hub
       end.
Proof.
  revert kept_frame hub; induction ts as [|t rest IH]; intros kept_frame hub;
    [now split|].
  rewrite film_cons. destruct (IH
      (match Camera.encoded t with Some jpeg => Some jpeg | None => kept_frame end)
      (match shown_frame t with Some jpeg => Hub.set_frame jpeg hub | None => hub end))
    as [A B].
  rewrite A, B. simpl omap.
  change (list_omap Camera.tick Camera.bytes Camera.encoded rest)
    with (omap Camera.encoded rest).
  change (list_omap Camera.tick Hub.bytes shown_frame rest)
    with (omap shown_frame rest).
  split.
  - destruct (Camera.encoded t) as [jpeg|]; [|reflexivity].
    rewrite last_cons. now repeat case_match.
  - destruct (shown_frame t) as [jpeg|]; [|reflexivity].
    rewrite last_cons. now repeat case_match.
Qed.

(** X19: the two frame cells after any run of the camera loop.  The
    agent's last frame, the one a PHOTO command saves, is the last frame
    that was encoded, delivered or not; the hub's latest frame is the last
    encoded frame that was not empty and whose POST arrived.  A pass whose
    encoding fails changes neither. *)
Theorem camera_cells_after (ts : list Camera.tick) (kept_frame : option Hub.bytes)
  (hub : Hub.state) :
  fst (film ts kept_frame hub)
  = match last (omap Camera.encoded ts) with
    | Some jpeg => Some jpeg
    | None => kept_frame
    end
  /\ Hub.latest_frame_bytes (snd (film ts kept_frame hub))
     = match last (omap shown_frame ts) with
       | Some jpeg => Some jpeg
       | None => Hub.latest_frame_bytes hub
       end.
Proof. apply film_frames. Qed.

(** A lost POST leaves the hub one frame behind the agent. *)
Example hub_frame_behind :
  let ts := [Camera.mkTick (Some sample_frame) true;
             Camera.mkTick None true;
             Camera.mkTick (Some sample_audio) false] in
  fst (film ts None Hub.initial) = Some sample_audio
  /\ Hub.latest_frame_bytes (snd (film ts None Hub.initial)) = Some sample_frame.
Proof. vm_compute. now split. Qed.

(** ** Lyrics: the search *)

Section LyricsSearch.
Import LyricsTools.

Lemma key_lt_spec a b : key_lt a b = true <-> (a < b)%Q.
Proof.
  unfold key_lt. rewrite negb_true_iff. split.
  - intros H. apply Qnot_le_lt. intros L. apply Qle_bool_iff in L. congruence.
  - intros H. destruct (Qle_bool b a) eqn:E; [|reflexivity].
    apply Qle_bool_iff in E. exfalso. exact (Qlt_not_le _ _ H E).
Qed.

Lemma key_lt_false a b : key_lt a b = false -> (b <= a)%Q.
Proof. unfold key_lt. rewrite negb_false_iff. apply Qle_bool_iff. Qed.

(** The head of the sorted list is the first element of the list with the
    least key. *)
Lemma sorted_head kl :
  match hd_error (sorted kl) with
  | None => kl = []
  | Some x =>
      exists pre post, kl = pre ++ x :: post
        /\ Forall (fun y => (fst x < fst y)%Q) pre
        /\ Forall (fun y => (fst x <= fst y)%Q) post
  end.
Proof.
  induction kl as [|a kl IH]; [reflexivity|].
  cbn [sorted fold_right]. change (fold_right insert [] kl) with (sorted kl).
  destruct (sorted kl) as [|y s]; cbn [hd_error insert] in *.
  - subst kl. exists [], []. repeat split; constructor.
  - destruct IH as (pre & post & -> & Hpre & Hpost).
    destruct (key_lt (fst y) (fst a)) eqn:K; cbn [hd_error].
    + apply key_lt_spec in K. exists (a :: pre), post.
      split; [reflexivity|]. split; [|exact Hpost].
      constructor; [exact K | exact Hpre].
    + apply key_lt_false in K. exists [], (pre ++ y :: post).
      split; [reflexivity|]. split; [constructor|].
      apply Forall_app. split.
      * eapply Forall_impl; [exact Hpre|]. intros z Hz. cbv beta in Hz. lra.
      * constructor; [exact K|].
        eapply Forall_impl; [exact Hpost|]. intros z Hz. cbv beta in Hz. lra.
Qed.

Lemma keyed_spec d results kl :
  keyed d results = Some kl ->
  results = map snd kl /\ Forall (fun p => sort_key d (snd p) = Some (fst p)) kl.
Proof.
  revert kl; induction results as [|x rest IH]; intros kl; cbn [keyed].
  - intros [= <-]. split; [reflexivity|constructor].
  - destruct (sort_key d x) as [k|] eqn:K; [|discriminate].
    destruct (keyed d rest) as [krest|]; [|discriminate].
    intros [= <-]. destruct (IH krest eq_refl) as [-> F].
    split; [reflexivity|]. constructor; [exact K|exact F].
Qed.

Lemma keyed_null d results x :
  In x results -> duration x = Null -> keyed d results = None.
Proof.
  intros Hin Hn. induction results as [|y rest IH]; [destruct Hin|].
  cbn [keyed]. destruct Hin as [->|Hin].
  - unfold sort_key. now rewrite Hn.
  - rewrite (IH Hin). now destruct (sort_key d y).
Qed.

Lemma keys_bound d (R : Q -> Prop) l :
  Forall (fun p => sort_key d (snd p) = Some (fst p)) l ->
  Forall (fun p => R (fst p)) l ->
  Forall (fun y => exists ky, sort_key d y = Some ky /\ R ky) (map snd l).
Proof.
  induction l as [|p l IH]; intros F B; [constructor|].
  inversion F as [|? ? Fp Fl]; inversion B as [|? ? Bp Bl]; subst.
  cbn [map]. constructor; [exists (fst p); now split | now apply IH].
Qed.

Lemma search_with_duration results d :
  ~ (d == 0)%Q ->
  search_lyrics (Gives (200%Z, Gives results)) (Some d)
  = match keyed d results with
    | Some kl => hd_error (map snd (sorted kl))
    | None => None
    end.
Proof.
  intros D. destruct results as [|r0 rest]; [reflexivity|].
  unfold search_lyrics. change (Z.eqb 200 200) with true. cbn [negb].
  destruct (Qeq_bool d 0) eqn:E; [apply Qeq_bool_iff in E; contradiction|].
  reflexivity.
Qed.

Lemma search_status r wanted x :
  search_lyrics r wanted = Some x ->
  exists results, r = Gives (200%Z, Gives results).
Proof.
  destruct r as [|[status body]]; [discriminate|].
  unfold search_lyrics.
  destruct (Z.eqb_spec status 200) as [->|]; [|discriminate].
  cbn [negb]. destruct body as [|results]; [discriminate|].
  intros _. now exists results.
Qed.

Lemma search_closest results d x :
  ~ (d == 0)%Q ->
  search_lyrics (Gives (200%Z, Gives results)) (Some d) = Some x ->
  exists pre post k,
    results = pre ++ x :: post
    /\ sort_key d x = Some k
    /\ Forall (fun y => exists ky, sort_key d y = Some ky /\ (k < ky)%Q) pre
    /\ Forall (fun y => exists ky, sort_key d y = Some ky /\ (k <= ky)%Q) post.
Proof.
  intros D. rewrite (search_with_duration results d D).
  destruct (keyed d results) as [kl|] eqn:K; [|discriminate].
  apply keyed_spec in K as [-> F].
  pose proof (sorted_head kl) as H.
  destruct (sorted kl) as [|y s]; [discriminate|].
  cbn [hd_error map] in *. intros [= <-].
  destruct H as (pre & post & -> & Hpre & Hpost).
  apply Forall_app in F as [Fpre Fy].
  inversion Fy as [|? ? Fx Fpost]; subst.
  exists (map snd pre), (map snd post), (fst y).
  rewrite map_app. cbn [map].
  split; [reflexivity|]. split; [exact Fx|]. split.
  - exact (keys_bound d (fun ky => (fst y < ky)%Q) pre Fpre Hpre).
  - exact (keys_bound d (fun ky => (fst y <= ky)%Q) post Fpost Hpost).
Qed.

End LyricsSearch.

(** X20: the duration match of [search_lyrics].  When a non-zero duration
    is given and a result comes back, the request was answered with status
    200 and a list, and the result is the first element of that list whose
    duration is closest to the one given: every element before it is
    strictly farther, every element after it at least as far; an element
    without a duration counts as duration 0. *)
Theorem search_lyrics_closest (r : LyricsTools.reply) (d : Q) (x : LyricsTools.track) :
  ~ (d == 0)%Q ->
  LyricsTools.search_lyrics r (Some d) = Some x ->
  exists results pre post k,
    r = Gives (200%Z, Gives results)
    /\ results = pre ++ x :: post
    /\ LyricsTools.sort_key d x = Some k
    /\ Forall (fun y => exists ky, LyricsTools.sort_key d y = Some ky /\ (k < ky)%Q) pre
    /\ Forall (fun y => exists ky, LyricsTools.sort_key d y = Some ky /\ (k <= ky)%Q) post.
Proof.
  intros D H. destruct (search_status r (Some d) x H) as [results ->].
  destruct (search_closest results d x D H) as (pre & post & k & E & K & Hpre & Hpost).
  exists results, pre, post, k. repeat split; assumption.
Qed.

(** X20 on a search: three results, two of them equally close. *)
Lemma search_lyrics_closest_witness :
  exists results pre post k,
    Gives (200%Z, Gives [LyricsTools.mkTrack 1 (LyricsTools.Num 200) None;
                         LyricsTools.mkTrack 2 (LyricsTools.Num 180) (Some "[00:01.00]la");
                         LyricsTools.mkTrack 3 (LyricsTools.Num 182) None])
    = Gives (200%Z, Gives results)
    /\ results = pre ++ LyricsTools.mkTrack 2 (LyricsTools.Num 180) (Some "[00:01.00]la") :: post
    /\ LyricsTools.sort_key 181
         (LyricsTools.mkTrack 2 (LyricsTools.Num 180) (Some "[00:01.00]la")) = Some k
    /\ Forall (fun y => exists ky, LyricsTools.sort_key 181 y = Some ky /\ (k < ky)%Q) pre
    /\ Forall (fun y => exists ky, LyricsTools.sort_key 181 y = Some ky /\ (k <= ky)%Q) post.
Proof.
  apply (search_lyrics_closest
           (Gives (200%Z, Gives [LyricsTools.mkTrack 1 (LyricsTools.Num 200) None;
                                 LyricsTools.mkTrack 2 (LyricsTools.Num 180)
                                   (Some "[00:01.00]la");
                                 LyricsTools.mkTrack 3 (LyricsTools.Num 182) None]))
           181 (LyricsTools.mkTrack 2 (LyricsTools.Num 180) (Some "[00:01.00]la"))).
  - intros H. vm_compute in H. discriminate H.
  - vm_compute. reflexivity.
Defined.

(** X21: what undoes the duration match.  A result whose duration is null
    makes the whole search return nothing when a non-zero duration is
    given, wherever it stands in the list; with a zero duration the match
    is skipped and the first result is returned, as when no duration is
    given. *)
Theorem search_lyrics_null_duration (results : list LyricsTools.track) (d : Q)
  (x : LyricsTools.track) :
  In x results ->
  LyricsTools.duration x = LyricsTools.Null ->
  (~ (d == 0)%Q ->
   LyricsTools.search_lyrics (Gives (200%Z, Gives results)) (Some d) = None)
  /\ ((d == 0)%Q ->
      LyricsTools.search_lyrics (Gives (200%Z, Gives results)) (Some d)
      = hd_error results)
  /\ LyricsTools.search_lyrics (Gives (200%Z, Gives results)) None = hd_error results.
Proof.
  intros Hin Hn. split; [|split].
  - intros D. rewrite (search_with_duration results d D).
    now rewrite (keyed_null d results x Hin Hn).
  - intros D. apply Qeq_bool_iff in D.
    destruct results as [|r0 rest]; [destruct Hin|].
    unfold LyricsTools.search_lyrics. change (Z.eqb 200 200) with true. cbn [negb].
    now rewrite D.
  - destruct results as [|r0 rest]; [destruct Hin|]. reflexivity.
Qed.

(** X21 on a search: the null duration stands last. *)
Lemma search_lyrics_null_duration_witness :
  LyricsTools.search_lyrics
    (Gives (200%Z, Gives [LyricsTools.mkTrack 1 (LyricsTools.Num 181) None;
                          LyricsTools.mkTrack 2 LyricsTools.Null None]))
    (Some 181%Q)
  = None.
Proof.
  apply (search_lyrics_null_duration
           [LyricsTools.mkTrack 1 (LyricsTools.Num 181) None;
            LyricsTools.mkTrack 2 LyricsTools.Null None]
           181 (LyricsTools.mkTrack 2 LyricsTools.Null None)).
  - simpl. tauto.
  - reflexivity.
  - intros H. vm_compute in H. discriminate H.
Defined.

(** ** Lyrics: the saved file *)

Section LrcFile.
Import PyStr LyricsTools.

(** A first line that is no lyric line adds nothing to the parse. *)
Lemma collect_header py line rest :
  all_chars not_lf line = true ->
  Lyrics.line_entry py line = inr None ->
  Lyrics.collect py (split_on "010"%char (line +:+ String "010"%char rest))
  = Lyrics.collect py (split_on "010"%char rest).
Proof.
  intros L E. rewrite split_on_app, (split_on_line line L).
  cbn [app Lyrics.collect]. rewrite E.
  now destruct (Lyrics.collect py _).
Qed.

Lemma tag_line_clean (tag value : string) :
  all_chars not_lf tag = true ->
  all_chars not_lf value = true ->
  all_chars not_lf (tag +:+ value +:+ "]") = true.
Proof. intros T V. now rewrite !all_chars_app, T, V. Qed.

Lemma truthy_text_some o s :
  truthy_text o = Some s -> o = Some s /\ is_empty s = false.
Proof.
  destruct o as [t|]; simpl; [|discriminate].
  destruct (is_empty t) eqn:E; [discriminate|]. intros [= <-]. now split.
Qed.

Lemma saved_content_parse py artist title len album_line lyrics :
  all_chars not_lf artist = true ->
  all_chars not_lf title = true ->
  all_chars not_lf len = true ->
  (album_line = EmptyString
   \/ exists album, all_chars not_lf album = true
                    /\ album_line = "[al:" +:+ album +:+ "]" +:+ lf) ->
  Lyrics.parse_lrc_timestamps py
    (Some ("[ar:" +:+ artist +:+ "]" +:+ lf
           +:+ ("[ti:" +:+ title +:+ "]" +:+ lf)
           +:+ album_line
           +:+ ("[length:" +:+ len +:+ "]" +:+ lf)
           +:+ lf
           +:+ lyrics))
  = Lyrics.collect py (split_on "010"%char lyrics).
Proof.
  intros A T L AL.
  assert (E : "[ar:" +:+ artist +:+ "]" +:+ lf
              +:+ ("[ti:" +:+ title +:+ "]" +:+ lf)
              +:+ album_line
              +:+ ("[length:" +:+ len +:+ "]" +:+ lf)
              +:+ lf
              +:+ lyrics
              = ("[ar:" +:+ artist +:+ "]")
                +:+ String "010"%char
                      (("[ti:" +:+ title +:+ "]")
                       +:+ String "010"%char
                             (album_line
                              +:+ (("[length:" +:+ len +:+ "]")
                                   +:+ String "010"%char (String "010"%char lyrics))))).
  { rewrite !append_assoc. reflexivity. }
  rewrite E. clear E.
  unfold Lyrics.parse_lrc_timestamps.
  change (is_empty (("[ar:" +:+ artist +:+ "]") +:+ _)) with false. cbv iota.
  rewrite (collect_header py ("[ar:" +:+ artist +:+ "]"))
    by (try reflexivity; now apply tag_line_clean).
  rewrite (collect_header py ("[ti:" +:+ title +:+ "]"))
    by (try reflexivity; now apply tag_line_clean).
  assert (H : Lyrics.collect py
                (split_on "010"%char
                   (("[length:" +:+ len +:+ "]")
                    +:+ String "010"%char (String "010"%char lyrics)))
              = Lyrics.collect py (split_on "010"%char lyrics)).
  { rewrite (collect_header py ("[length:" +:+ len +:+ "]"))
      by (try reflexivity; now apply tag_line_clean).
    change (split_on "010"%char (String "010"%char lyrics))
      with (EmptyString :: split_on "010"%char lyrics).
    cbn [Lyrics.collect].
    change (Lyrics.line_entry py EmptyString)
      with (@inr Lyrics.error _ (@None (Hub.pyfloat * string))).
    now destruct (Lyrics.collect py _). }
  destruct AL as [->|(album & Al & ->)].
  - rewrite append_nil_l. exact H.
  - rewrite !append_assoc.
    change (lf +:+ ?x) with (String "010"%char x).
    rewrite <- (append_assoc "[al:" album), <- (append_assoc ("[al:" +:+ album) "]").
    rewrite (collect_header py (("[al:" +:+ album) +:+ "]")).
    + rewrite <- H. now rewrite !append_assoc.
    + now rewrite !all_chars_app, Al.
    + reflexivity.
Qed.

Lemma safe_kept s : all_chars kept (safe s) = true.
Proof.
  induction s as [|c s IH]; [reflexivity|].
  simpl. destruct (kept c) eqn:K; [|exact IH]. simpl. now rewrite K.
Qed.

Lemma kept_no_separator c :
  kept c = true -> Ascii.eqb c "/"%char = false /\ Ascii.eqb c "."%char = false.
Proof.
  intros K. destruct (Ascii.eqb_spec c "/"%char) as [->|_]; [discriminate K|].
  destruct (Ascii.eqb_spec c "."%char) as [->|_]; [discriminate K|]. now split.
Qed.

Lemma all_chars_impl (p q : ascii -> bool) s :
  (forall c, p c = true -> q c = true) ->
  all_chars p s = true -> all_chars q s = true.
Proof.
  intros I. induction s as [|c s IH]; [reflexivity|].
  simpl. intros H. apply andb_prop in H as [Hc Hs].
  now rewrite (I c Hc), (IH Hs).
Qed.

End LrcFile.

(** X22: the file name [save_lrc_file] makes up.  When no file name is
    given (none, or the empty string) and there are synced lyrics, the
    file is named artist, space, hyphen, space, title, [.lrc], with
    every character of artist and title removed that is no word character,
    whitespace or hyphen: whatever the two texts hold, the name has no
    slash, and no point before its extension.  Without synced lyrics
    nothing is written. *)
Theorem lrc_default_filename (d : LyricsTools.lyrics_data) (filename : option string) :
  LyricsTools.truthy_text filename = None ->
  match LyricsTools.save_lrc_file d filename with
  | None => LyricsTools.truthy_text (LyricsTools.syncedLyrics d) = None
  | Some (name, _) =>
      exists stem,
        name = stem +:+ ".lrc"
        /\ stem = LyricsTools.safe (LyricsTools.artistName d) +:+ " - "
                  +:+ LyricsTools.safe (LyricsTools.trackName d)
        /\ PyStr.all_chars
             (fun c => negb (Ascii.eqb c "/"%char) && negb (Ascii.eqb c "."%char)) stem
           = true
  end.
Proof.
  intros F. unfold LyricsTools.save_lrc_file. rewrite F.
  destruct (LyricsTools.truthy_text (LyricsTools.syncedLyrics d)) as [lyrics|];
    [|reflexivity].
  eexists. split; [|split; [reflexivity|]].
  - now rewrite <- !append_assoc.
  - rewrite !all_chars_app.
    assert (K : forall s,
               PyStr.all_chars
                 (fun c => negb (Ascii.eqb c "/"%char) && negb (Ascii.eqb c "."%char))
                 (LyricsTools.safe s) = true).
    { intros s. apply (all_chars_impl LyricsTools.kept); [|apply safe_kept].
      intros c Kc. destruct (kept_no_separator c Kc) as [-> ->]. reflexivity. }
    now rewrite !K.
Qed.

(** X22 on a record whose texts hold slashes and points. *)
Lemma lrc_default_filename_witness :
  match LyricsTools.save_lrc_file
          (LyricsTools.mkLyricsData "../a.b" "AC/DC" None "292" (Some "[00:01.00]la"))
          (Some EmptyString)
  with
  | None => True
  | Some (name, _) => name = "ACDC - ab.lrc"
  end.
Proof.
  pose proof (lrc_default_filename
                (LyricsTools.mkLyricsData "../a.b" "AC/DC" None "292" (Some "[00:01.00]la"))
                (Some EmptyString) eq_refl) as H.
  destruct (LyricsTools.save_lrc_file _ _) as [[name content]|]; [|exact I].
  destruct H as (stem & -> & -> & _). reflexivity.
Defined.

(** X23: a saved file parses back to the lyrics.  When artist, title,
    album and length text hold no line feed, parsing the content
    [save_lrc_file] writes gives exactly what parsing the synced lyrics
    gives, the same lines or the same exception, whatever the number
    conversions of the interpreter do: none of the header lines is taken
    for a lyric line. *)
Theorem saved_lrc_parses_back (py : Lyrics.arith) (d : LyricsTools.lyrics_data)
  (filename : option string) (name content : string) :
  LyricsTools.save_lrc_file d filename = Some (name, content) ->
  PyStr.all_chars PyStr.not_lf (LyricsTools.artistName d) = true ->
  PyStr.all_chars PyStr.not_lf (LyricsTools.trackName d) = true ->
  (forall album, LyricsTools.albumName d = Some album ->
                 PyStr.all_chars PyStr.not_lf album = true) ->
  PyStr.all_chars PyStr.not_lf (LyricsTools.length_text d) = true ->
  Lyrics.parse_lrc_timestamps py (Some content)
  = Lyrics.parse_lrc_timestamps py (LyricsTools.syncedLyrics d).
Proof.
  intros S A T Al L. unfold LyricsTools.save_lrc_file in S.
  destruct (LyricsTools.truthy_text (LyricsTools.syncedLyrics d)) as [lyrics|] eqn:Ly;
    [|discriminate S].
  injection S as _ <-.
  apply truthy_text_some in Ly as [-> Ne].
  rewrite (saved_content_parse py _ _ _ _ lyrics A T L).
  - unfold Lyrics.parse_lrc_timestamps. now rewrite Ne.
  - destruct (LyricsTools.truthy_text (LyricsTools.albumName d)) as [album|] eqn:E;
      [|now left].
    right. exists album. apply truthy_text_some in E as [E _].
    split; [now apply Al | reflexivity].
Qed.

(** X23 on a record with an album. *)
Lemma saved_lrc_parses_back_witness :
  Lyrics.parse_lrc_timestamps binary64
    (Some ("[ar:AC/DC]" +:+ LyricsTools.lf +:+ "[ti:Thunderstruck]" +:+ LyricsTools.lf
           +:+ "[al:The Razors Edge]" +:+ LyricsTools.lf
           +:+ "[length:292]" +:+ LyricsTools.lf +:+ LyricsTools.lf
           +:+ "[00:01.00]la"))
  = Lyrics.parse_lrc_timestamps binary64 (Some "[00:01.00]la").
Proof.
  apply (saved_lrc_parses_back binary64
           (LyricsTools.mkLyricsData "Thunderstruck" "AC/DC" (Some "The Razors Edge") "292"
              (Some "[00:01.00]la"))
           (Some "out.lrc") "out.lrc").
  - reflexivity.
  - reflexivity.
  - reflexivity.
  - intros album [= <-]. reflexivity.
  - reflexivity.
Defined.

(** A title with a line feed in it: the header brings a lyric line of its
    own. *)
Example header_line_injected :
  match LyricsTools.save_lrc_file
          (LyricsTools.mkLyricsData ("x" +:+ LyricsTools.lf +:+ "[00:00.50]boo") "y" None "1"
             (Some "[00:01.00]la"))
          None
  with
  | Some (_, content) =>
      Lyrics.parse_lrc_timestamps binary64 (Some content)
      = inr [(Hub.Fin (1 # 2), "boo]"); (Hub.Fin 1, "la")]
  | None => False
  end.
Proof. vm_compute. reflexivity. Qed.

(** ** Lyrics: the karaoke demonstration *)

Section Karaoke.
Import LyricsTools.

Variable fdiv : Hub.pyfloat -> Hub.pyfloat -> ext Hub.pyfloat.

Lemma show_lines_mono fuel extra sleep start speed lines clock k shown :
  show_lines fuel fdiv sleep start speed lines clock k = Shown shown ->
  show_lines (fuel + extra) fdiv sleep start speed lines clock k = Shown shown.
Proof.
  revert clock k shown; induction lines as [|[ts text] rest IH];
    intros clock k shown; cbn [show_lines]; [auto|].
  destruct (fdiv ts speed) as [|due_at]; [discriminate|].
  destruct (Agent.wait_until fuel sleep start due_at clock k) as [[clock' k']|] eqn:W;
    [|discriminate].
  rewrite (wait_until_mono _ extra _ _ _ _ _ _ W).
  destruct (show_lines fuel fdiv sleep start speed rest clock' k') as [| |s| |] eqn:R;
    try discriminate.
  intros [= <-]. now rewrite (IH _ _ _ R).
Qed.

Lemma show_lines_schedule sleep start speed lines clock k :
  (forall j, 1 # 100 <= sleep j)%Q ->
  Forall (fun l => exists d, fdiv (fst l) speed = Gives d /\ d <> Hub.PInf) lines ->
  exists fuel shown,
    show_lines fuel fdiv sleep start speed lines clock k = Shown shown
    /\ map snd shown = map snd lines
    /\ Forall2 (fun p l => exists d, fdiv (fst l) speed = Gives d /\ due start d (fst p))
               shown lines.
Proof.
  intros S F. revert clock k; induction F as [|[ts text] rest [d [D N]] _ IH];
    intros clock k.
  - exists 0, []. repeat split. constructor.
  - destruct (wait_until_terminates sleep start d clock k S N) as [n1 [[clock' k'] W]].
    destruct (IH clock' k') as [n2 [shown [R [M T]]]].
    exists (n1 + n2), ((clock', text) :: shown). cbn [show_lines fst] in *. rewrite D.
    rewrite (wait_until_mono _ n2 _ _ _ _ _ _ W).
    rewrite Nat.add_comm, (show_lines_mono _ n1 _ _ _ _ _ _ _ R).
    split; [reflexivity|]. split; [cbn [map snd]; now rewrite M|].
    constructor; [|exact T]. exists d. split; [exact D|].
    cbn [fst]. eapply wait_until_exit, W.
Qed.

Lemma show_lines_never fuel sleep start speed lines clock k :
  Forall (fun l => exists d, fdiv (fst l) speed = Gives d) lines ->
  Exists (fun l => fdiv (fst l) speed = Gives Hub.PInf) lines ->
  show_lines fuel fdiv sleep start speed lines clock k = OutOfFuel.
Proof.
  intros F X. revert clock k F;
    induction X as [[ts text] rest H|[ts text] rest _ IH]; intros clock k F;
    cbn [show_lines fst] in *.
  - rewrite H. now rewrite wait_until_never.
  - inversion F as [|? ? [d D] F']; subst. cbn [fst] in D. rewrite D.
    destruct (Agent.wait_until fuel sleep start d clock k) as [[clock' k']|];
      [|reflexivity].
    now rewrite (IH clock' k' F').
Qed.

End Karaoke.

(** X24: the karaoke demonstration, whatever the number conversions and
    the float division of the interpreter do.  If the parser raises, so
    does the demonstration, before it shows anything.  Otherwise, for at
    least one lyric line: when every division of an offset by the speed
    gives a value other than plus infinity and every sleep lasts at least
    the hundredth of a second asked for, the demonstration ends having
    shown every line once, in order, none before its offset divided by
    the speed has passed since the start; when the division raises, as it
    does for a zero speed, it stops before it shows anything; and when
    the divisions give values of which one is plus infinity, it never
    ends. *)
Theorem karaoke_schedule (py : Lyrics.arith)
  (fdiv : Hub.pyfloat -> Hub.pyfloat -> ext Hub.pyfloat) (sleep_len : nat -> Q)
  (clock_start : Q) (synced_lyrics : option string) (speed : Hub.pyfloat) :
  match Lyrics.parse_lrc_timestamps py synced_lyrics with
  | inl e =>
      forall fuel,
        LyricsTools.simulate_karaoke fuel py fdiv sleep_len clock_start synced_lyrics speed
        = LyricsTools.ParseRaised e
  | inr lines =>
      lines <> [] ->
      ((forall j, 1 # 100 <= sleep_len j)%Q ->
       Forall (fun l => exists d, fdiv (fst l) speed = Gives d /\ d <> Hub.PInf) lines ->
       exists fuel shown,
         LyricsTools.simulate_karaoke fuel py fdiv sleep_len clock_start synced_lyrics speed
         = LyricsTools.Shown shown
         /\ map snd shown = map snd lines
         /\ Forall2 (fun p l => exists d, fdiv (fst l) speed = Gives d
                                          /\ due clock_start d (fst p))
                    shown lines)
      /\ ((forall t, fdiv t speed = Raises) ->
          forall fuel,
            LyricsTools.simulate_karaoke fuel py fdiv sleep_len clock_start synced_lyrics
              speed
            = LyricsTools.ZeroDivision [])
      /\ (Forall (fun l => exists d, fdiv (fst l) speed = Gives d) lines ->
          Exists (fun l => fdiv (fst l) speed = Gives Hub.PInf) lines ->
          forall fuel,
            LyricsTools.simulate_karaoke fuel py fdiv sleep_len clock_start synced_lyrics
              speed
            = LyricsTools.OutOfFuel)
  end.
Proof.
  unfold LyricsTools.simulate_karaoke.
  destruct (Lyrics.parse_lrc_timestamps py synced_lyrics) as [e|[|[ts text] rest]];
    [reflexivity|congruence|].
  intros _. split; [|split].
  - intros S F.
    exact (show_lines_schedule fdiv sleep_len clock_start speed ((ts, text) :: rest)
             clock_start 0 S F).
  - intros Z fuel. cbn [LyricsTools.show_lines]. now rewrite Z.
  - intros F X fuel. now apply show_lines_never.
Qed.

(** X24 on two lines at double speed, with sleeps of exactly a hundredth
    of a second. *)
Lemma karaoke_schedule_witness :
  exists fuel shown,
    LyricsTools.simulate_karaoke fuel binary64 div64 (fun _ => 1 # 100) 0
      (Some ("[00:00.02]one" +:+ LyricsTools.lf +:+ "[00:00.04]two")) (Hub.Fin 2)
    = LyricsTools.Shown shown
    /\ map snd shown = ["one"; "two"].
Proof.
  pose proof (karaoke_schedule binary64 div64 (fun _ => 1 # 100) 0
                (Some ("[00:00.02]one" +:+ LyricsTools.lf +:+ "[00:00.04]two"))
                (Hub.Fin 2)) as K.
  destruct (Lyrics.parse_lrc_timestamps binary64 _) as [e|lines] eqn:P;
    [vm_compute in P; discriminate P|].
  vm_compute in P. injection P as <-.
  destruct K as [K _]; [discriminate|].
  destruct K as (fuel & shown & E & M & _).
  - intros j. apply Qle_refl.
  - repeat constructor; eexists; (split; [vm_compute; reflexivity | discriminate]).
  - exists fuel, shown. split; [exact E|exact M].
Defined.

(** Zero speed, and an offset of plus infinity. *)
Example karaoke_stuck :
  LyricsTools.simulate_karaoke 50 binary64 div64 (fun _ => 1 # 100) 0
    (Some "[00:00.02]one") (Hub.Fin 0)
  = LyricsTools.ZeroDivision []
  /\ LyricsTools.simulate_karaoke 50 binary64 div64 (fun _ => 1 # 100) 0
       (Some ("[00:" +:+ nines 309 +:+ ".0]one")) (Hub.Fin 2)
     = LyricsTools.OutOfFuel.
Proof. split; vm_compute; reflexivity. Qed.
